(** * wedding-site: the RSVP server (src/server.js) and the page scripts

  A shallow embedding of the request handler of [src/server.js] and of the
  parts of the JavaScript runtime it calls (JSON, path, fs, Date), and of
  the three scripts of [src/public/assets/js/rsvp.js] (the RSVP form, the
  slider, the countdown), followed by the properties of the router, of the
  record store, of the static files and of the scripts.

  Conventions of the embedding:
  - a JavaScript string is the list of its UTF-16 code units;
  - a JSON number is kept as the decimal literal it was read from, which
    stands for the double it rounds to; whether a literal rounds to zero
    (and is falsy) or to an infinity (and is written as null) is decided
    exactly, and a number is written with the digits it was read with;
  - a file holds text; the store file is read and written as UTF-8 text by
    the server, and [JSON.stringify] only emits well-formed text;
  - a write either happens or throws and leaves the file as it was;
  - the listener starts from the path name that the runtime's [URL] parser
    gives for the request URL (line 70), and the router from the decoded
    one (line 71); every chunk of a request body arrives,
    unless the socket is destroyed;
  - what the server prints on the console is left out;
  - a page script is a function on the parts of the page that it reads and
    writes; a click, a timer that is due and the outcome of [fetch] are
    events that its listeners are run on. *)

From Stdlib Require Import List NArith ZArith Lia Bool Ascii String Sorted.
From Stdlib Require Import DecimalString.
From Stdlib.Strings Require Import Byte.
From stdpp Require Import gmap.
Import ListNotations.

Local Open Scope N_scope.
Local Open Scope list_scope.

(** ** JavaScript strings *)

Module JsString.

Abbreviation jsstring := (list N).

(** The code units of an ASCII literal. *)
Fixpoint js (s : string) : jsstring :=
  match s with
  | EmptyString => []
  | String c s' => N_of_ascii c :: js s'
  end.

Fixpoint eqb (s t : jsstring) : bool :=
  match s, t with
  | [], [] => true
  | a :: s', b :: t' => N.eqb a b && eqb s' t'
  | _, _ => false
  end.

(** [String.prototype.startsWith]. *)
Fixpoint startsWith (s prefix : jsstring) : bool :=
  match prefix, s with
  | [], _ => true
  | p :: prefix', c :: s' => N.eqb c p && startsWith s' prefix'
  | _ :: _, [] => false
  end.

(** WhiteSpace and LineTerminator code units, as stripped by
    [String.prototype.trim]. *)
Definition is_js_space (c : N) : bool :=
  (9 <=? c) && (c <=? 13) || (c =? 32) || (c =? 160) || (c =? 5760)
  || (8192 <=? c) && (c <=? 8202) || (c =? 8232) || (c =? 8233)
  || (c =? 8239) || (c =? 8287) || (c =? 12288) || (c =? 65279).

Fixpoint trimStart (s : jsstring) : jsstring :=
  match s with
  | c :: s' => if is_js_space c then trimStart s' else s
  | [] => []
  end.

Definition trimEnd (s : jsstring) : jsstring := rev (trimStart (rev s)).

Definition trim (s : jsstring) : jsstring := trimEnd (trimStart s).

(** ASCII lower-casing, which is all [getContentType] needs of
    [toLowerCase]: no text with a unit outside ASCII is lower-cased to an
    extension of its table. *)
Definition lower_unit (c : N) : N :=
  if (65 <=? c) && (c <=? 90) then c + 32 else c.

Definition toLowerCase (s : jsstring) : jsstring := map lower_unit s.

(** [Array.prototype.join] on strings. *)
Fixpoint join (sep : jsstring) (parts : list jsstring) : jsstring :=
  match parts with
  | [] => []
  | [p] => p
  | p :: rest => p ++ sep ++ join sep rest
  end.

End JsString.
Import JsString.
Arguments js s%_string : simpl never.

(** ** JSON values, [JSON.stringify] and [JSON.parse] *)

Module Json.

(** The values [JSON.parse] can return.  An object is the list of its own
    properties in property order; a number carries its literal. *)
#[warnings="-register-all"]
Inductive json : Type :=
| JNull
| JBool (b : bool)
| JNumber (lit : jsstring)
| JString (s : jsstring)
| JArray (items : list json)
| JObject (props : list (jsstring * json)).

Definition is_empty {A : Type} (s : list A) : bool :=
  match s with [] => true | _ => false end.

(** *** Objects: property lookup and definition *)

Fixpoint obj_get (k : jsstring) (props : list (jsstring * json)) : option json :=
  match props with
  | [] => None
  | (k', v) :: rest => if JsString.eqb k' k then Some v else obj_get k rest
  end.

Definition is_digit (c : N) : bool := (48 <=? c) && (c <=? 57).

Definition digits_value (d : jsstring) : N :=
  fold_left (fun acc c => 10 * acc + (c - 48)) d 0.

(** An array index is a canonical numeric string below 2^32 - 1; such keys
    come first, in ascending order, among the own properties of an object. *)
Definition array_index (k : jsstring) : option N :=
  match k with
  | [] => None
  | c :: rest =>
    if forallb is_digit k && (negb (c =? 48) || is_empty rest)
       && (length k <=? 10)%nat && (digits_value k <? 4294967295)
    then Some (digits_value k) else None
  end.

(** Where a new key goes: before the first property that must follow it. *)
Definition goes_before (k k' : jsstring) : bool :=
  match array_index k, array_index k' with
  | Some i, Some i' => i <? i'
  | Some _, None => true
  | None, _ => false
  end.

Fixpoint obj_insert_new (k : jsstring) (v : json) (props : list (jsstring * json))
  : list (jsstring * json) :=
  match props with
  | [] => [(k, v)]
  | (k', v') :: rest =>
    if goes_before k k' then (k, v) :: props
    else (k', v') :: obj_insert_new k v rest
  end.

Fixpoint obj_replace (k : jsstring) (v : json) (props : list (jsstring * json))
  : list (jsstring * json) :=
  match props with
  | [] => []
  | (k', v') :: rest =>
    if JsString.eqb k' k then (k', v) :: rest
    else (k', v') :: obj_replace k v rest
  end.

(** CreateDataProperty: an existing property keeps its place and takes the
    new value, a new one is added in property order. *)
Definition obj_set (k : jsstring) (v : json) (props : list (jsstring * json))
  : list (jsstring * json) :=
  match obj_get k props with
  | Some _ => obj_replace k v props
  | None => obj_insert_new k v props
  end.

Definition obj_of_pairs (pairs : list (jsstring * json)) : list (jsstring * json) :=
  fold_left (fun o kv => obj_set (fst kv) (snd kv) o) pairs [].

(** *** Numbers *)

Fixpoint span_digits (s : jsstring) : jsstring * jsstring :=
  match s with
  | c :: s' =>
    if is_digit c then let (d, r) := span_digits s' in (c :: d, r) else ([], s)
  | [] => ([], [])
  end.

Definition scan_sign (s : jsstring) : jsstring * jsstring :=
  match s with
  | c :: r => if c =? 45 then ([c], r) else ([], s)
  | [] => ([], s)
  end.

Definition scan_int (s : jsstring) : option (jsstring * jsstring) :=
  match s with
  | c :: r =>
    if c =? 48 then Some ([c], r)
    else if is_digit c then let (d, r') := span_digits r in Some (c :: d, r')
    else None
  | [] => None
  end.

Definition scan_frac (s : jsstring) : option (jsstring * jsstring) :=
  match s with
  | c :: r =>
    if c =? 46 then
      match span_digits r with
      | ([], _) => None
      | (d, r') => Some (c :: d, r')
      end
    else Some ([], s)
  | [] => Some ([], s)
  end.

Definition scan_exp_sign (s : jsstring) : jsstring * jsstring :=
  match s with
  | c :: r => if (c =? 43) || (c =? 45) then ([c], r) else ([], s)
  | [] => ([], s)
  end.

Definition scan_exp (s : jsstring) : option (jsstring * jsstring) :=
  match s with
  | c :: r =>
    if (c =? 101) || (c =? 69) then
      let (sg, r1) := scan_exp_sign r in
      match span_digits r1 with
      | ([], _) => None
      | (d, r') => Some (c :: sg ++ d, r')
      end
    else Some ([], s)
  | [] => Some ([], s)
  end.

(** The longest prefix of [s] that is a JSON number, and what follows it. *)
Definition scan_number (s : jsstring) : option (jsstring * jsstring) :=
  let (sg, r0) := scan_sign s in
  match scan_int r0 with
  | None => None
  | Some (i, r1) =>
    match scan_frac r1 with
    | None => None
    | Some (f, r2) =>
      match scan_exp r2 with
      | None => None
      | Some (e, r3) => Some (sg ++ i ++ f ++ e, r3)
      end
    end
  end.

(** The value of a literal without its sign, as [m * 10 ^ e]. *)
Definition literal_value (lit : jsstring) : option (Z * Z) :=
  let (_, r0) := scan_sign lit in
  match scan_int r0 with
  | None => None
  | Some (i, r1) =>
    match scan_frac r1 with
    | None => None
    | Some (f, r2) =>
      let fd := tl f in
      let m := Z.of_N (digits_value (i ++ fd)) in
      let e :=
        match r2 with
        | _ :: r3 =>
          let (sg, d) := scan_exp_sign r3 in
          let a := Z.of_N (digits_value (fst (span_digits d))) in
          if JsString.eqb sg [45] then (- a)%Z else a
        | [] => 0%Z
        end in
      Some (m, (e - Z.of_nat (length fd))%Z)
    end
  end.

(** Whether a literal denotes a double that is zero: its digits are all
    zero, or its value is at most 2^-1075 and rounds to zero. *)
Definition number_is_zero (lit : jsstring) : bool :=
  match literal_value lit with
  | Some (m, e) =>
    (m =? 0)%Z || ((e <? 0)%Z && (m * 2 ^ 1075 <=? 10 ^ (- e))%Z)
  | None => false
  end.

(** Whether a literal is too large for a double and denotes an infinity:
    its value is at least 2^1024 - 2^970. *)
Definition number_overflows (lit : jsstring) : bool :=
  match literal_value lit with
  | Some (m, e) =>
    if (0 <=? e)%Z then (2 ^ 1024 - 2 ^ 970 <=? m * 10 ^ e)%Z
    else ((2 ^ 1024 - 2 ^ 970) * 10 ^ (- e) <=? m)%Z
  | None => false
  end.

(** *** Strings *)

Definition hex_digit (d : N) : N := if d <? 10 then 48 + d else 87 + d.

Definition unicode_escape (c : N) : jsstring :=
  [92; 117; hex_digit (c / 4096 mod 16); hex_digit (c / 256 mod 16);
   hex_digit (c / 16 mod 16); hex_digit (c mod 16)].

Definition is_high_surrogate (c : N) : bool := (55296 <=? c) && (c <=? 56319).
Definition is_low_surrogate (c : N) : bool := (56320 <=? c) && (c <=? 57343).

(** The escape of a code unit that QuoteJSONString never emits as it is. *)
Definition short_escape (c : N) : option N :=
  if c =? 8 then Some 98          (* \b *)
  else if c =? 9 then Some 116    (* \t *)
  else if c =? 10 then Some 110   (* \n *)
  else if c =? 12 then Some 102   (* \f *)
  else if c =? 13 then Some 114   (* \r *)
  else if c =? 34 then Some 34    (* the quote *)
  else if c =? 92 then Some 92    (* the backslash *)
  else None.

Fixpoint quote_units (s : jsstring) : jsstring :=
  match s with
  | [] => []
  | c :: s' =>
    match short_escape c with
    | Some e => 92 :: e :: quote_units s'
    | None =>
      if c <? 32 then unicode_escape c ++ quote_units s'
      else if is_high_surrogate c then
        match s' with
        | d :: s'' =>
          if is_low_surrogate d then c :: d :: quote_units s''
          else unicode_escape c ++ quote_units s'
        | [] => unicode_escape c
        end
      else if is_low_surrogate c then unicode_escape c ++ quote_units s'
      else c :: quote_units s'
    end
  end.

Definition QuoteJSONString (s : jsstring) : jsstring :=
  34 :: quote_units s ++ [34].

(** *** [JSON.stringify] *)

(** SerializeJSONProperty, with SerializeJSONArray and SerializeJSONObject
    inlined; [gap] is the indentation unit and [indent] the current one. *)
Fixpoint SerializeJSONProperty (gap indent : jsstring) (v : json) {struct v}
  : jsstring :=
  match v with
  | JNull => js "null"
  | JBool true => js "true"
  | JBool false => js "false"
  | JNumber lit => if number_overflows lit then js "null" else lit
  | JString s => QuoteJSONString s
  | JArray items =>
    let stepback := indent in
    let indent := indent ++ gap in
    let partial := map (SerializeJSONProperty gap indent) items in
    if is_empty partial then js "[]"
    else if is_empty gap then js "[" ++ join (js ",") partial ++ js "]"
    else
      let separator := js "," ++ [10] ++ indent in
      js "[" ++ [10] ++ indent ++ join separator partial
         ++ [10] ++ stepback ++ js "]"
  | JObject props =>
    let stepback := indent in
    let indent := indent ++ gap in
    let partial :=
      map (fun kv =>
             QuoteJSONString (fst kv) ++ js ":"
             ++ (if is_empty gap then [] else js " ")
             ++ SerializeJSONProperty gap indent (snd kv)) props in
    if is_empty partial then js "{}"
    else if is_empty gap then js "{" ++ join (js ",") partial ++ js "}"
    else
      let separator := js "," ++ [10] ++ indent in
      js "{" ++ [10] ++ indent ++ join separator partial
         ++ [10] ++ stepback ++ js "}"
  end.

(** [JSON.stringify(v, null, space)] for a numeric [space] (at most ten
    spaces are used); [JSON.stringify(v)] is [JSON_stringify 0 v]. *)
Definition JSON_stringify (space : nat) (v : json) : jsstring :=
  SerializeJSONProperty (repeat 32 (Nat.min space 10)) [] v.


(** *** [JSON.parse] *)

(** JSON white space: tab, line feed, carriage return, space. *)
Definition is_json_ws (c : N) : bool :=
  (c =? 9) || (c =? 10) || (c =? 13) || (c =? 32).

Fixpoint skip_ws (s : jsstring) : jsstring :=
  match s with
  | c :: s' => if is_json_ws c then skip_ws s' else s
  | [] => []
  end.

Definition hex_value (c : N) : option N :=
  if is_digit c then Some (c - 48)
  else if (97 <=? c) && (c <=? 102) then Some (c - 87)
  else if (65 <=? c) && (c <=? 70) then Some (c - 55)
  else None.

Definition hex4 (h1 h2 h3 h4 : N) : option N :=
  match hex_value h1, hex_value h2, hex_value h3, hex_value h4 with
  | Some a, Some b, Some c, Some d => Some (((a * 16 + b) * 16 + c) * 16 + d)
  | _, _, _, _ => None
  end.

(** The code unit a one-letter escape stands for. *)
Definition unescape (e : N) : option N :=
  if e =? 34 then Some 34
  else if e =? 92 then Some 92
  else if e =? 47 then Some 47
  else if e =? 98 then Some 8
  else if e =? 102 then Some 12
  else if e =? 110 then Some 10
  else if e =? 114 then Some 13
  else if e =? 116 then Some 9
  else None.

Definition cons_unit (c : N) (r : option (jsstring * jsstring))
  : option (jsstring * jsstring) :=
  match r with
  | Some (t, rest) => Some (c :: t, rest)
  | None => None
  end.

(** The characters of a string literal after its opening quote, up to and
    including the closing quote. *)
Fixpoint parse_string_body (s : jsstring) : option (jsstring * jsstring) :=
  match s with
  | [] => None
  | c :: r =>
    if c =? 34 then Some ([], r)
    else if c =? 92 then
      match r with
      | e :: r1 =>
        if e =? 117 then
          match r1 with
          | h1 :: h2 :: h3 :: h4 :: r2 =>
            match hex4 h1 h2 h3 h4 with
            | Some u => cons_unit u (parse_string_body r2)
            | None => None
            end
          | _ => None
          end
        else
          match unescape e with
          | Some u => cons_unit u (parse_string_body r1)
          | None => None
          end
      | [] => None
      end
    else if c <? 32 then None
    else cons_unit c (parse_string_body r)
  end.

Fixpoint strip_prefix (p s : jsstring) : option jsstring :=
  match p, s with
  | [], _ => Some s
  | a :: p', b :: s' => if b =? a then strip_prefix p' s' else None
  | _ :: _, [] => None
  end.

Definition keyword (p : jsstring) (v : json) (s : jsstring)
  : option (json * jsstring) :=
  match strip_prefix p s with
  | Some rest => Some (v, rest)
  | None => None
  end.

(** Recursive descent over the JSON grammar.  [n] bounds the number of
    nested calls; [JSON_parse] starts with more than the text can use. *)
Fixpoint parse_value (n : nat) (s : jsstring) {struct n} : option (json * jsstring) :=
  match n with
  | O => None
  | S n' =>
    match skip_ws s with
    | [] => None
    | c :: r =>
      if c =? 123 then
        match skip_ws r with
        | [] => None
        | c1 :: r1 =>
          if c1 =? 125 then Some (JObject [], r1)
          else
            match parse_members n' (c1 :: r1) with
            | Some (pairs, rest) => Some (JObject (obj_of_pairs pairs), rest)
            | None => None
            end
        end
      else if c =? 91 then
        match skip_ws r with
        | [] => None
        | c1 :: r1 =>
          if c1 =? 93 then Some (JArray [], r1)
          else
            match parse_elements n' (c1 :: r1) with
            | Some (items, rest) => Some (JArray items, rest)
            | None => None
            end
        end
      else if c =? 34 then
        match parse_string_body r with
        | Some (str, rest) => Some (JString str, rest)
        | None => None
        end
      else if c =? 116 then keyword (js "rue") (JBool true) r
      else if c =? 102 then keyword (js "alse") (JBool false) r
      else if c =? 110 then keyword (js "ull") JNull r
      else
        match scan_number (c :: r) with
        | Some (lit, rest) => Some (JNumber lit, rest)
        | None => None
        end
    end
  end

with parse_elements (n : nat) (s : jsstring) {struct n}
  : option (list json * jsstring) :=
  match n with
  | O => None
  | S n' =>
    match parse_value n' s with
    | None => None
    | Some (v, r) =>
      match skip_ws r with
      | [] => None
      | c :: r1 =>
        if c =? 44 then
          match parse_elements n' r1 with
          | Some (vs, rest) => Some (v :: vs, rest)
          | None => None
          end
        else if c =? 93 then Some ([v], r1)
        else None
      end
    end
  end

with parse_members (n : nat) (s : jsstring) {struct n}
  : option (list (jsstring * json) * jsstring) :=
  match n with
  | O => None
  | S n' =>
    match skip_ws s with
    | [] => None
    | q :: r0 =>
      if q =? 34 then
        match parse_string_body r0 with
        | None => None
        | Some (k, r1) =>
          match skip_ws r1 with
          | [] => None
          | c :: r2 =>
            if c =? 58 then
              match parse_value n' r2 with
              | None => None
              | Some (v, r3) =>
                match skip_ws r3 with
                | [] => None
                | c' :: r4 =>
                  if c' =? 44 then
                    match parse_members n' r4 with
                    | Some (kvs, rest) => Some ((k, v) :: kvs, rest)
                    | None => None
                    end
                  else if c' =? 125 then Some ([(k, v)], r4)
                  else None
                end
              end
            else None
          end
        end
      else None
    end
  end.

(** [JSON.parse(text)]: [None] stands for the SyntaxError it throws. *)
Definition JSON_parse (s : jsstring) : option json :=
  match parse_value (S (length s)) s with
  | Some (v, rest) =>
    match skip_ws rest with
    | [] => Some v
    | _ :: _ => None
    end
  | None => None
  end.

(** *** What the handler asks of a parsed value *)

(** ToBoolean. *)
Definition truthy (v : json) : bool :=
  match v with
  | JNull => false
  | JBool b => b
  | JNumber lit => negb (number_is_zero lit)
  | JString s => negb (is_empty s)
  | JArray _ | JObject _ => true
  end.

(** [v.name] for a value that is neither null nor undefined; [None] stands
    for undefined.  Primitives and arrays have no property called name, and
    neither has Object.prototype. *)
Definition get_name (v : json) : option json :=
  match v with
  | JObject props => obj_get (js "name") props
  | _ => None
  end.

End Json.

(** ** Decoding a request chunk

    [body += chunk] turns the Buffer [chunk] into a string by decoding it as
    UTF-8; every maximal ill-formed part becomes U+FFFD. *)

Module Utf8.

(** The decoder between two code points, or inside one: the number of
    continuation bytes still to come, the bits read so far, and the range
    allowed for the next byte. *)
Inductive decoder : Type :=
| Start
| Pending (needed : nat) (code_point : N) (lower upper : N).

Definition utf16 (cp : N) : jsstring :=
  if cp <? 65536 then [cp]
  else [55296 + (cp - 65536) / 1024; 56320 + (cp - 65536) mod 1024].

(** The first byte of a code point; [None] for a byte that starts none. *)
Definition lead (b : N) : option (jsstring * decoder) :=
  if b <=? 127 then Some ([b], Start)
  else if (194 <=? b) && (b <=? 223) then Some ([], Pending 1 (b - 192) 128 191)
  else if (224 <=? b) && (b <=? 239) then
    Some ([], Pending 2 (b - 224)
                (if b =? 224 then 160 else 128) (if b =? 237 then 159 else 191))
  else if (240 <=? b) && (b <=? 244) then
    Some ([], Pending 3 (b - 240)
                (if b =? 240 then 144 else 128) (if b =? 244 then 143 else 191))
  else None.

(** A continuation byte; [None] for a byte outside the range allowed. *)
Definition continue (needed : nat) (cp lower upper b : N)
  : option (jsstring * decoder) :=
  if (lower <=? b) && (b <=? upper) then
    let cp' := cp * 64 + (b - 128) in
    match needed with
    | S (S m) => Some ([], Pending (S m) cp' 128 191)
    | _ => Some (utf16 cp', Start)
    end
  else None.

(** One byte, strictly: [None] where the bytes are not UTF-8. *)
Definition step_strict (st : decoder) (b : N) : option (jsstring * decoder) :=
  match st with
  | Start => lead b
  | Pending needed cp lower upper => continue needed cp lower upper b
  end.

Definition lead_or_replace (b : N) : jsstring * decoder :=
  match lead b with
  | Some r => r
  | None => ([65533], Start)
  end.

(** One byte, with U+FFFD for each ill-formed part. *)
Definition step (st : decoder) (b : N) : jsstring * decoder :=
  match st with
  | Start => lead_or_replace b
  | Pending needed cp lower upper =>
    match continue needed cp lower upper b with
    | Some r => r
    | None => let (out, st') := lead_or_replace b in (65533 :: out, st')
    end
  end.

Fixpoint decode_from (st : decoder) (bytes : list Byte.byte) : jsstring :=
  match bytes with
  | [] => match st with Start => [] | Pending _ _ _ _ => [65533] end
  | b :: rest =>
    let (out, st') := step st (Byte.to_N b) in out ++ decode_from st' rest
  end.

(** [chunk.toString()] *)
Definition utf8_decode (bytes : list Byte.byte) : jsstring := decode_from Start bytes.

End Utf8.

(** ** [decodeURIComponent] *)

Module Uri.

(** A code unit of the text, or the byte that a percent escape stands for. *)
Inductive item : Type :=
| Unit (c : N)
| Escaped (b : N).

(** The escapes of a text; [None] for a percent sign that two hexadecimal
    digits do not follow. *)
Fixpoint items (s : jsstring) : option (list item) :=
  match s with
  | [] => Some []
  | c :: r =>
    if c =? 37 then
      match r with
      | h1 :: h2 :: r' =>
        match Json.hex_value h1, Json.hex_value h2, items r' with
        | Some a, Some b, Some rest => Some (Escaped (a * 16 + b) :: rest)
        | _, _, _ => None
        end
      | _ => None
      end
    else
      match items r with
      | Some rest => Some (Unit c :: rest)
      | None => None
      end
  end.

(** The escaped bytes read as UTF-8; a code point whose escapes are cut
    short or are not UTF-8 is an error. *)
Fixpoint decode_items (st : Utf8.decoder) (l : list item) : option jsstring :=
  match l with
  | [] => match st with Utf8.Start => Some [] | Utf8.Pending _ _ _ _ => None end
  | Unit c :: rest =>
    match st with
    | Utf8.Start =>
      match decode_items Utf8.Start rest with
      | Some t => Some (c :: t)
      | None => None
      end
    | Utf8.Pending _ _ _ _ => None
    end
  | Escaped b :: rest =>
    match Utf8.step_strict st b with
    | Some (out, st') =>
      match decode_items st' rest with
      | Some t => Some (out ++ t)
      | None => None
      end
    | None => None
    end
  end.

(** [decodeURIComponent(s)]; [None] stands for the URIError it throws. *)
Definition decodeURIComponent (s : jsstring) : option jsstring :=
  match items s with
  | Some l => decode_items Utf8.Start l
  | None => None
  end.

End Uri.

(** ** [path] (POSIX) *)

Module Path.

(** [s.split('/')] *)
Fixpoint split_slash (s : jsstring) : list jsstring :=
  match s with
  | [] => [[]]
  | c :: r =>
    if c =? 47 then [] :: split_slash r
    else
      match split_slash r with
      | seg :: segs => (c :: seg) :: segs
      | [] => [[c]]
      end
  end.

Definition is_dot (seg : jsstring) : bool := JsString.eqb seg [46].
Definition is_dotdot (seg : jsstring) : bool := JsString.eqb seg [46; 46].

(** The segments that [normalizeString] keeps; [stack] holds the segments
    kept so far, the last one first. *)
Fixpoint normalize_segments (allowAboveRoot : bool) (stack segs : list jsstring)
  : list jsstring :=
  match segs with
  | [] => rev stack
  | seg :: rest =>
    if Json.is_empty seg || is_dot seg then normalize_segments allowAboveRoot stack rest
    else if is_dotdot seg then
      match stack with
      | top :: below =>
        if is_dotdot top then
          normalize_segments allowAboveRoot
            (if allowAboveRoot then seg :: stack else stack) rest
        else normalize_segments allowAboveRoot below rest
      | [] =>
        normalize_segments allowAboveRoot
          (if allowAboveRoot then [seg] else []) rest
      end
    else normalize_segments allowAboveRoot (seg :: stack) rest
  end.

Definition normalizeString (path : jsstring) (allowAboveRoot : bool) : jsstring :=
  join [47] (normalize_segments allowAboveRoot [] (split_slash path)).

Definition isAbsolute (path : jsstring) : bool :=
  match path with c :: _ => c =? 47 | [] => false end.

Definition ends_with_slash (path : jsstring) : bool :=
  match rev path with c :: _ => c =? 47 | [] => false end.

Definition normalize (path : jsstring) : jsstring :=
  if Json.is_empty path then js "."
  else
    let absolute := isAbsolute path in
    let trailingSeparator := ends_with_slash path in
    let p := normalizeString path (negb absolute) in
    if Json.is_empty p then
      if absolute then js "/" else if trailingSeparator then js "./" else js "."
    else
      let p := if trailingSeparator then p ++ js "/" else p in
      if absolute then 47 :: p else p.

(** [path.join(...args)] *)
Definition path_join (args : list jsstring) : jsstring :=
  match filter (fun a => negb (Json.is_empty a)) args with
  | [] => js "."
  | parts => normalize (join [47] parts)
  end.

(** [path.resolve(p)] in a process whose working directory is [cwd]. *)
Definition path_resolve (cwd p : jsstring) : jsstring :=
  let resolvedPath :=
    if Json.is_empty p then cwd ++ js "/"
    else if isAbsolute p then p ++ js "/"
    else cwd ++ js "/" ++ p ++ js "/" in
  let resolvedAbsolute := isAbsolute resolvedPath in
  let r := normalizeString resolvedPath (negb resolvedAbsolute) in
  if resolvedAbsolute then 47 :: r
  else if Json.is_empty r then js "." else r.

Fixpoint drop_slashes (s : jsstring) : jsstring :=
  match s with
  | c :: r => if c =? 47 then drop_slashes r else s
  | [] => []
  end.

Fixpoint drop_to_slash (s : jsstring) : jsstring :=
  match s with
  | c :: r => if c =? 47 then s else drop_to_slash r
  | [] => []
  end.

Fixpoint take_to_slash (s : jsstring) : jsstring :=
  match s with
  | c :: r => if c =? 47 then [] else c :: take_to_slash r
  | [] => []
  end.

(** [path.dirname(path)] *)
Definition path_dirname (path : jsstring) : jsstring :=
  match path with
  | [] => js "."
  | c0 :: body =>
    let hasRoot := c0 =? 47 in
    match drop_to_slash (drop_slashes (rev body)) with
    | [] => if hasRoot then js "/" else js "."
    | _ :: before =>
      if hasRoot && Json.is_empty before then js "//"
      else c0 :: rev before
    end
  end.

(** The part of [s] from its last dot on, and the part before it. *)
Fixpoint split_last_dot (s : jsstring) : option (jsstring * jsstring) :=
  match s with
  | [] => None
  | c :: r =>
    match split_last_dot r with
    | Some (pre, ext) => Some (c :: pre, ext)
    | None => if c =? 46 then Some ([], s) else None
    end
  end.

(** [path.extname(path)] *)
Definition path_extname (path : jsstring) : jsstring :=
  let base := rev (take_to_slash (drop_slashes (rev path))) in
  match split_last_dot base with
  | None => []
  | Some (pre, ext) =>
    if Json.is_empty pre || JsString.eqb base [46; 46] then [] else ext
  end.

End Path.

(** ** [Date.prototype.toISOString] *)

Module Date.

Local Open Scope Z_scope.

(** The last [width] decimal digits of [n]. *)
Fixpoint digits (width : nat) (n : Z) : jsstring :=
  match width with
  | O => []
  | S w => digits w (n / 10) ++ [Z.to_N (48 + n mod 10)]
  end.

(** Year, month and day of the proleptic Gregorian calendar, from the number
    of days since 1970-01-01. *)
Definition civil_from_days (days : Z) : Z * Z * Z :=
  let z := days + 719468 in
  let era := z / 146097 in
  let doe := z - era * 146097 in
  let yoe := (doe - doe / 1460 + doe / 36524 - doe / 146096) / 365 in
  let doy := doe - (365 * yoe + yoe / 4 - yoe / 100) in
  let mp := (5 * doy + 2) / 153 in
  let d := doy - (153 * mp + 2) / 5 + 1 in
  let m := if mp <? 10 then mp + 3 else mp - 9 in
  let y := yoe + era * 400 + (if m <=? 2 then 1 else 0) in
  (y, m, d).

Definition year_digits (y : Z) : jsstring :=
  if (0 <=? y) && (y <=? 9999) then digits 4 y
  else (if y <? 0 then js "-" else js "+") ++ digits 6 (Z.abs y).

(** [new Date(t).toISOString()] for a time value [t] in milliseconds since
    the epoch. *)
Definition toISOString (t : Z) : jsstring :=
  let '(y, m, d) := civil_from_days (t / 86400000) in
  let ms := t mod 86400000 in
  year_digits y ++ js "-" ++ digits 2 m ++ js "-" ++ digits 2 d ++ js "T"
  ++ digits 2 (ms / 3600000) ++ js ":" ++ digits 2 (ms / 60000 mod 60) ++ js ":"
  ++ digits 2 (ms / 1000 mod 60) ++ js "." ++ digits 3 (ms mod 1000) ++ js "Z".

End Date.

(** ** The file system, as far as the server uses [fs] *)

Module Fs.

Inductive errno : Type := ENOENT | EACCES | EISDIR | EIO.

Definition is_ENOENT (e : errno) : bool :=
  match e with ENOENT => true | _ => false end.

(** What a path can name: a readable file with its text, a file that may be
    written but not read, a directory, or a file on a failing device. *)
Inductive node : Type :=
| File (data : jsstring)
| WriteOnly
| Directory
| Damaged.

Record filesystem : Type := {
  entries : gmap (list N) node;
  read_only : bool
}.

Inductive result (A : Type) : Type :=
| Ok (a : A)
| Err (e : errno).
Arguments Ok {A} a.
Arguments Err {A} e.

(** [fs.existsSync(path)] *)
Definition existsSync (fs : filesystem) (path : jsstring) : bool :=
  match entries fs !! path with Some _ => true | None => false end.

(** The outcome of [fs.readFile(path, cb)] and of [fs.readFileSync(path)]:
    the data, or the error handed to the callback, respectively thrown. *)
Definition readFile (fs : filesystem) (path : jsstring) : result jsstring :=
  match entries fs !! path with
  | None => Err ENOENT
  | Some (File data) => Ok data
  | Some WriteOnly => Err EACCES
  | Some Directory => Err EISDIR
  | Some Damaged => Err EIO
  end.

(** [fs.mkdirSync(dir, { recursive: true })]; [None] when it throws. *)
Definition mkdirSync (fs : filesystem) (dir : jsstring) : option filesystem :=
  match entries fs !! dir with
  | Some Directory => Some fs
  | Some _ => None
  | None =>
    if read_only fs then None
    else Some {| entries := <[dir := Directory]> (entries fs);
                 read_only := read_only fs |}
  end.

(** [fs.writeFileSync(path, data)]; [None] when it throws. *)
Definition writeFileSync (fs : filesystem) (path data : jsstring)
  : option filesystem :=
  if read_only fs then None
  else
    match entries fs !! path with
    | Some Directory | Some Damaged => None
    | Some (File _) | Some WriteOnly | None =>
      Some {| entries := <[path := File data]> (entries fs);
              read_only := read_only fs |}
    end.

End Fs.

(** ** The server (src/server.js) *)

Module Server.

Import Json Path Fs.

(** The process: the directory of the script and the working directory. *)
Record process : Type := {
  dirname : jsstring;
  cwd : jsstring
}.

(** What the runtime decides: the clock read by [new Date()], and whether
    the 'end' event of a request is still emitted once its socket has been
    destroyed. *)
Record runtime : Type := {
  clock : Z;
  end_after_destroy : bool
}.

(** A request as the handler sees it: the method, the decoded path name
    (lines 70-71) and the chunks of the body, in order of arrival. *)
Record request : Type := {
  method : jsstring;
  pathname : jsstring;
  chunks : list (list Byte.byte)
}.

Record response : Type := {
  status : N;
  headers : list (jsstring * jsstring);
  body : jsstring
}.

Section Process.

Variable proc : process.

(** Lines 30-31. *)
Definition PUBLIC_DIR : jsstring := path_join [dirname proc; js "public"].
Definition RSVP_STORAGE : jsstring :=
  path_join [dirname proc; js "data"; js "rsvps.json"].

(** Lines 37-60. *)
Definition getContentType (filePath : jsstring) : jsstring :=
  let ext := toLowerCase (path_extname filePath) in
  if JsString.eqb ext (js ".html") then js "text/html; charset=utf-8"
  else if JsString.eqb ext (js ".css") then js "text/css; charset=utf-8"
  else if JsString.eqb ext (js ".js") then js "application/javascript; charset=utf-8"
  else if JsString.eqb ext (js ".json") then js "application/json; charset=utf-8"
  else if JsString.eqb ext (js ".png") then js "image/png"
  else if JsString.eqb ext (js ".jpg") || JsString.eqb ext (js ".jpeg")
  then js "image/jpeg"
  else if JsString.eqb ext (js ".svg") then js "image/svg+xml"
  else if JsString.eqb ext (js ".ico") then js "image/x-icon"
  else js "application/octet-stream".

Definition json_headers : list (jsstring * jsstring) :=
  [(js "Content-Type", js "application/json");
   (js "Access-Control-Allow-Origin", js "*")].

Definition text_headers : list (jsstring * jsstring) :=
  [(js "Content-Type", js "text/plain")].

(** Lines 97-98. *)
Definition invalid_submission : response :=
  {| status := 400; headers := json_headers;
     body := JSON_stringify 0
       (JObject [(js "error", JString (js "Invalid submission: name is required"))]) |}.

(** Lines 124-125. *)
Definition thank_you : response :=
  {| status := 200; headers := json_headers;
     body := JSON_stringify 0
       (JObject [(js "message", JString (js "Thank you for your RSVP!"))]) |}.

(** Lines 128-129. *)
Definition internal_error : response :=
  {| status := 500; headers := json_headers;
     body := JSON_stringify 0
       (JObject [(js "error", JString (js "Internal server error"))]) |}.

(** Line 96: the test that rejects a submission. *)
Definition name_missing (data : json) : bool :=
  negb (truthy data)
  || match get_name data with
     | Some (JString name) => is_empty (trim name)
     | _ => true
     end.

(** Lines 102-111: the stored value, or an empty array when the file is
    absent, cannot be read or parsed, or holds a falsy value. *)
Definition load_rsvps (fs : filesystem) : json :=
  if existsSync fs RSVP_STORAGE then
    match readFile fs RSVP_STORAGE with
    | Ok fileContent =>
      match JSON_parse fileContent with
      | Some v => if truthy v then v else JArray []
      | None => JArray []
      end
    | Err _ => JArray []
    end
  else JArray [].

(** The own properties that an object spread copies. Only objects reach
    line 116: a value with a string [name] is one. *)
Definition spread (data : json) : list (jsstring * json) :=
  match data with
  | JObject props => props
  | _ => []
  end.

(** Line 116. *)
Definition make_record (now : Z) (data : json) : json :=
  JObject (obj_set (js "createdAt") (JString (Date.toISOString now)) (spread data)).

(** Line 117: [rsvps.push(record)]; only an array has a [push] method, on
    any other value the call throws a TypeError ([None]). *)
Definition push (rsvps record : json) : option json :=
  match rsvps with
  | JArray items => Some (JArray (items ++ [record]))
  | _ => None
  end.

(** Lines 122-123; [inl] holds the file system at the time of the throw. *)
Definition persist (fs : filesystem) (rsvps : json) : filesystem + filesystem :=
  match mkdirSync fs (path_dirname RSVP_STORAGE) with
  | None => inl fs
  | Some fs1 =>
    match writeFileSync fs1 RSVP_STORAGE (JSON_stringify 2 rsvps) with
    | None => inl fs1
    | Some fs2 => inr fs2
    end
  end.

(** Lines 92-131: the 'end' listener of a submission, on the accumulated
    [text] of the body. *)
Definition submit_end (now : Z) (text : jsstring) (fs : filesystem)
  : filesystem * response :=
  match JSON_parse text with
  | None => (fs, internal_error)
  | Some data =>
    if name_missing data then (fs, invalid_submission)
    else
      let rsvps := load_rsvps fs in
      let record := make_record now data in
      match push rsvps record with
      | None => (fs, internal_error)
      | Some rsvps' =>
        match persist fs rsvps' with
        | inl fs' => (fs', internal_error)
        | inr fs' => (fs', thank_you)
        end
      end
  end.

(** The request stream of a submission: the text so far, and whether the
    socket has been destroyed. *)
Record incoming : Type := {
  text : jsstring;
  destroyed : bool
}.

Definition fresh : incoming := {| text := []; destroyed := false |}.

(** Lines 84-91: the 'data' listener. *)
Definition on_data (chunk : list Byte.byte) (st : incoming) : incoming :=
  let text' := text st ++ Utf8.utf8_decode chunk in
  {| text := text';
     destroyed := destroyed st || (1000000 <? N.of_nat (length text')) |}.

(** The runtime hands the chunks to the listener one by one, and none once
    the socket is destroyed. *)
Fixpoint receive (cs : list (list Byte.byte)) (st : incoming) : incoming :=
  match cs with
  | [] => st
  | c :: rest => if destroyed st then st else receive rest (on_data c st)
  end.

(** Lines 79-133.  A response written to a destroyed socket is not sent. *)
Definition submit_handler (rt : runtime) (req : request) (fs : filesystem)
  : filesystem * option response :=
  let st := receive (chunks req) fresh in
  if destroyed st then
    if end_after_destroy rt then (fst (submit_end (clock rt) (text st) fs), None)
    else (fs, None)
  else
    let (fs', r) := submit_end (clock rt) (text st) fs in (fs', Some r).

(** Lines 140-166. *)
Definition list_handler (fs : filesystem) : response :=
  match readFile fs RSVP_STORAGE with
  | Err e =>
    if is_ENOENT e then
      {| status := 200; headers := json_headers; body := js "[]" |}
    else
      {| status := 500; headers := json_headers;
         body := JSON_stringify 0
           (JObject [(js "error", JString (js "Unable to read RSVPs"))]) |}
  | Ok fileData =>
    {| status := 200; headers := json_headers;
       body := if is_empty fileData then js "[]" else fileData |}
  end.

(** Lines 173-178. *)
Definition preflight : response :=
  {| status := 204;
     headers := [(js "Access-Control-Allow-Origin", js "*");
                 (js "Access-Control-Allow-Methods", js "POST, OPTIONS");
                 (js "Access-Control-Allow-Headers", js "Content-Type")];
     body := [] |}.

Definition forbidden : response :=
  {| status := 403; headers := text_headers; body := js "Forbidden" |}.

Definition not_found : response :=
  {| status := 404; headers := text_headers; body := js "Not Found" |}.

Definition method_not_allowed : response :=
  {| status := 405; headers := text_headers; body := js "Method Not Allowed" |}.

(** Lines 189-191: the file a path name stands for. *)
Definition resolved_path (path : jsstring) : jsstring :=
  let requestedPath := if JsString.eqb path (js "/") then js "/index.html" else path in
  let filePath := path_join [PUBLIC_DIR; requestedPath] in
  path_resolve (cwd proc) filePath.

(** Lines 187-209. *)
Definition static_handler (path : jsstring) (fs : filesystem) : response :=
  let resolvedPath := resolved_path path in
  if negb (startsWith resolvedPath PUBLIC_DIR) then forbidden
  else
    match readFile fs resolvedPath with
    | Err _ => not_found
    | Ok data =>
      {| status := 200;
         headers := [(js "Content-Type", getContentType resolvedPath)];
         body := data |}
    end.

(** Lines 66-214: the request listener.  The result is the file system
    afterwards and the response that reaches the client, if any. *)
Definition serve (rt : runtime) (req : request) (fs : filesystem)
  : filesystem * option response :=
  if JsString.eqb (method req) (js "POST") && JsString.eqb (pathname req) (js "/rsvp")
  then submit_handler rt req fs
  else if JsString.eqb (method req) (js "GET") && JsString.eqb (pathname req) (js "/rsvps")
  then (fs, Some (list_handler fs))
  else if JsString.eqb (method req) (js "OPTIONS") && JsString.eqb (pathname req) (js "/rsvp")
  then (fs, Some preflight)
  else if JsString.eqb (method req) (js "GET")
  then (fs, Some (static_handler (pathname req) fs))
  else (fs, Some method_not_allowed).

(** Lines 66-71.  The listener gets the path name of the request URL still
    percent-encoded, and throws ([None]) when it cannot be decoded. *)
Definition listener (rt : runtime) (verb url_pathname : jsstring)
    (body_chunks : list (list Byte.byte)) (fs : filesystem)
  : option (filesystem * option response) :=
  match Uri.decodeURIComponent url_pathname with
  | None => None
  | Some path =>
    Some (serve rt {| method := verb; pathname := path; chunks := body_chunks |} fs)
  end.

(** Requests served one after the other, each with its own runtime
    choices; the responses come in the order of the requests. *)
Fixpoint serve_all (reqs : list (runtime * request)) (fs : filesystem)
  : filesystem * list (option response) :=
  match reqs with
  | [] => (fs, [])
  | (rt, req) :: rest =>
    let (fs1, r) := serve rt req fs in
    let (fs2, rs) := serve_all rest fs1 in
    (fs2, r :: rs)
  end.

End Process.

End Server.

(** ** Well-formed JSON values *)

Module JsonWf.

Import Json.

(** Case analysis on the comparisons of code units in the goal. *)
Ltac cmp_cases :=
  repeat match goal with
  | |- context [N.eqb ?a ?b] => destruct (N.eqb_spec a b)
  | |- context [N.ltb ?a ?b] => destruct (N.ltb_spec a b)
  | |- context [N.leb ?a ?b] => destruct (N.leb_spec a b)
  end.

Ltac cmp_cases_in H :=
  repeat match type of H with
  | context [N.eqb ?a ?b] => destruct (N.eqb_spec a b)
  | context [N.ltb ?a ?b] => destruct (N.ltb_spec a b)
  | context [N.leb ?a ?b] => destruct (N.leb_spec a b)
  end.

(** A stronger induction principle: the items of an array and the values of
    the properties of an object satisfy the predicate. *)
Section JsonInd.

Variable P : json -> Prop.
Hypothesis Hnull : P JNull.
Hypothesis Hbool : forall b, P (JBool b).
Hypothesis Hnumber : forall lit, P (JNumber lit).
Hypothesis Hstring : forall s, P (JString s).
Hypothesis Harray : forall items, Forall P items -> P (JArray items).
Hypothesis Hobject :
  forall props, Forall (fun kv => P (snd kv)) props -> P (JObject props).

Fixpoint json_nested_ind (v : json) : P v :=
  match v with
  | JNull => Hnull
  | JBool b => Hbool b
  | JNumber lit => Hnumber lit
  | JString s => Hstring s
  | JArray items =>
    Harray items
      ((fix all (l : list json) : Forall P l :=
          match l with
          | [] => @List.Forall_nil _ P
          | x :: l' => @List.Forall_cons _ P x l' (json_nested_ind x) (all l')
          end) items)
  | JObject props =>
    Hobject props
      ((fix all (l : list (jsstring * json)) : Forall (fun kv => P (snd kv)) l :=
          match l with
          | [] => @List.Forall_nil _ _
          | kv :: l' =>
            @List.Forall_cons _ (fun kv => P (snd kv)) kv l'
              (json_nested_ind (snd kv)) (all l')
          end) props)
  end.

End JsonInd.

(** Case analysis on a match in the hypothesis [H]. *)
Ltac break_match H :=
  match type of H with
  | context [match ?x with _ => _ end] => destruct x eqn:?; try discriminate H
  end.

(** *** Property order *)

Definition keys (props : list (jsstring * json)) : list jsstring := map fst props.

(** [precedes a b]: the key [a] may stand before the different key [b]. *)
Definition precedes (a b : jsstring) : Prop :=
  a <> b /\ goes_before b a = false.

(** No key twice, and no property that a later one should precede. *)
Definition canonical (props : list (jsstring * json)) : Prop :=
  StronglySorted precedes (keys props).

(** Appends and conses, brought to right-nested form. *)
Ltac list_assoc := simpl; repeat (rewrite <- app_assoc; simpl).

(** The first unit of [l], if any, does not satisfy [p]. *)
Definition head_not (p : N -> bool) (l : jsstring) : Prop :=
  match l with
  | [] => True
  | c :: _ => p c = false
  end.

(** What can extend a number: a digit, the point, the exponent mark. *)
Definition extends_number (c : N) : bool :=
  is_digit c || (c =? 46) || (c =? 101) || (c =? 69).

Definition is_point (c : N) : bool := c =? 46.
Definition is_exp_mark (c : N) : bool := (c =? 101) || (c =? 69).

(** A literal is well formed when [JSON.parse] reads it back whole. *)
Definition number_literal (lit : jsstring) : Prop :=
  scan_number lit = Some (lit, []).

(** The values [JSON.parse] returns: numbers are literals and objects have
    their properties in property order. *)
Fixpoint wf (v : json) : Prop :=
  match v with
  | JNull | JBool _ | JString _ => True
  | JNumber lit => number_literal lit
  | JArray items =>
    (fix all (l : list json) : Prop :=
       match l with
       | [] => True
       | x :: l' => wf x /\ all l'
       end) items
  | JObject props =>
    canonical props /\
    (fix all (l : list (jsstring * json)) : Prop :=
       match l with
       | [] => True
       | kv :: l' => wf (snd kv) /\ all l'
       end) props
  end.

(** What [JSON.parse] reads from the text [JSON.stringify] writes for [v]:
    [v], with null for each number that is an infinity. *)
Fixpoint reparsed (v : json) : json :=
  match v with
  | JNull | JBool _ | JString _ => v
  | JNumber lit => if number_overflows lit then JNull else v
  | JArray items => JArray (map reparsed items)
  | JObject props => JObject (map (fun kv => (fst kv, reparsed (snd kv))) props)
  end.

(** No number of [v] is an infinity. *)
Fixpoint in_range (v : json) : Prop :=
  match v with
  | JNull | JBool _ | JString _ => True
  | JNumber lit => number_overflows lit = false
  | JArray items =>
    (fix all (l : list json) : Prop :=
       match l with
       | [] => True
       | x :: l' => in_range x /\ all l'
       end) items
  | JObject props =>
    (fix all (l : list (jsstring * json)) : Prop :=
       match l with
       | [] => True
       | kv :: l' => in_range (snd kv) /\ all l'
       end) props
  end.

(** The number of nested calls [parse_value] needs for the text of [v]. *)
Fixpoint size (v : json) : nat :=
  match v with
  | JArray items =>
    S ((fix sum (l : list json) : nat :=
          match l with
          | [] => O
          | x :: l' => S (size x + sum l')
          end) items)
  | JObject props =>
    S ((fix sum (l : list (jsstring * json)) : nat :=
          match l with
          | [] => O
          | kv :: l' => S (size (snd kv) + sum l')
          end) props)
  | _ => 1
  end.

(** JSON white space only. *)
Definition blank (w : jsstring) : Prop := forallb is_json_ws w = true.

(** The white space after an opening bracket and between items, and the one
    before the closing bracket. *)
Definition opening (gap indent : jsstring) : jsstring :=
  if is_empty gap then [] else 10 :: indent ++ gap.

Definition closing (gap indent : jsstring) : jsstring :=
  if is_empty gap then [] else 10 :: indent.

Definition member_text (gap indent : jsstring) (kv : jsstring * json) : jsstring :=
  QuoteJSONString (fst kv) ++ [58] ++ (if is_empty gap then [] else [32])
  ++ SerializeJSONProperty gap indent (snd kv).


Definition size_items (l : list json) : nat :=
  fold_right (fun x acc => S (size x + acc)) O l.

Definition size_props (l : list (jsstring * json)) : nat :=
  fold_right (fun kv acc => S (size (snd kv) + acc)) O l.

(** The text of [v], after white space and within any indentation, reads
    back as [v]. *)
Definition reads_back (v : json) : Prop :=
  forall gap indent w rest n,
    blank gap -> blank indent -> blank w -> head_not extends_number rest ->
    (size v <= n)%nat ->
    parse_value n (w ++ SerializeJSONProperty gap indent v ++ rest)
    = Some (reparsed v, rest).

End JsonWf.

(** ** The vocabulary of the specification *)

Module Spec.

Import Json JsonWf Path Fs Server.

(** The text a submission accumulates from its chunks (line 85). *)
Definition body_text (cs : list (list Byte.byte)) : jsstring :=
  concat (map Utf8.utf8_decode cs).

(** "An object containing a name field whose trimmed value is non-empty". *)
Definition valid_submission (data : json) : Prop :=
  exists props name,
    data = JObject props /\
    obj_get (js "name") props = Some (JString name) /\
    trim name <> [].

(** "The resolved absolute path lies within the asset root directory". *)
Definition inside_root (root path : jsstring) : bool :=
  JsString.eqb path root || startsWith path (root ++ js "/").

(** "The file, if present, contains a syntactically valid JSON array". *)
Definition store_valid (proc : process) (fs : filesystem) : Prop :=
  forall content, readFile fs (RSVP_STORAGE proc) = Ok content ->
    exists items, JSON_parse content = Some (JArray items).







(** A submission request that the handler accepts: its body stays within
    the cap and parses as a valid submission. *)
Definition accepted_request (req : request) : Prop :=
  method req = js "POST" /\ pathname req = js "/rsvp" /\
  (N.of_nat (length (body_text (chunks req))) <= 1000000) /\
  exists data, JSON_parse (body_text (chunks req)) = Some data /\
               valid_submission data.

(** The value a request submits, and the record stored for it. *)
Definition submitted (req : request) : json :=
  match JSON_parse (body_text (chunks req)) with
  | Some data => data
  | None => JNull
  end.





End Spec.

(** ** Sample processes, file systems and requests *)

Module Samples.

Import Json Fs Server.

Definition app : process := {| dirname := js "/app"; cwd := js "/app" |}.

Definition empty_disk : filesystem := {| entries := ∅; read_only := false |}.

Definition at_epoch : runtime := {| clock := 0; end_after_destroy := false |}.

Definition quoted (s : jsstring) : jsstring := 34 :: s ++ [34].

(** The text of an object with string values, without white space. *)
Fixpoint members_text (kvs : list (jsstring * jsstring)) : jsstring :=
  match kvs with
  | [] => []
  | [(k, v)] => quoted k ++ js ":" ++ quoted v
  | (k, v) :: rest => quoted k ++ js ":" ++ quoted v ++ js "," ++ members_text rest
  end.

Definition object_text (kvs : list (jsstring * jsstring)) : jsstring :=
  js "{" ++ members_text kvs ++ js "}".

Definition ada_text : jsstring := object_text [(js "name", js "Ada")].

Definition ada_dated_text : jsstring :=
  object_text [(js "name", js "Ada"); (js "createdAt", js "yesterday")].

Definition blank_name_text : jsstring := object_text [(js "name", js "  ")].

(** A submission with a number that no double holds. *)
Definition overflow_text : jsstring :=
  js "{" ++ quoted (js "name") ++ js ":" ++ quoted (js "Ada") ++ js ","
  ++ quoted (js "guests") ++ js ":1e999}".

Definition ascii_bytes (s : jsstring) : list Byte.byte :=
  map (fun c => match Byte.of_N c with Some b => b | None => Byte.x00 end) s.

Definition post (text : jsstring) : request :=
  {| method := js "POST"; pathname := js "/rsvp"; chunks := [ascii_bytes text] |}.

Definition get (path : jsstring) : request :=
  {| method := js "GET"; pathname := path; chunks := [] |}.

Definition disk_with (path content : jsstring) : filesystem :=
  {| entries := {[ path := File content ]}; read_only := false |}.

(** The euro sign, three bytes in UTF-8 and one UTF-16 code unit. *)
Definition euro : list Byte.byte := [Byte.xe2; Byte.x82; Byte.xac].

Definition euros (n : nat) : list Byte.byte := concat (repeat euro n).

(** A body of 1,047,618 bytes that is answered: 22 chunks of 15,873 euro
    signs each. *)
Definition euro_request : request :=
  {| method := js "POST"; pathname := js "/rsvp";
     chunks := repeat (euros (N.to_nat 15873)) 22 |}.

End Samples.
(** ** Reply headers *)

Module Http.

Import Server.

(** The value of the header [name] of a reply, as [res.writeHead] was given
    it; [None] when the reply has no such header. *)
Definition header (name : jsstring) (r : response) : option jsstring :=
  match find (fun h => JsString.eqb (fst h) name) (headers r) with
  | Some h => Some (snd h)
  | None => None
  end.

(** The three routes of the RSVP interface (lines 79, 140 and 172). *)
Definition rsvp_route (req : request) : bool :=
  JsString.eqb (method req) (js "POST") && JsString.eqb (pathname req) (js "/rsvp")
  || JsString.eqb (method req) (js "GET") && JsString.eqb (pathname req) (js "/rsvps")
  || JsString.eqb (method req) (js "OPTIONS") && JsString.eqb (pathname req) (js "/rsvp").

(** The test of line 79. *)
Definition is_submission (req : request) : bool :=
  JsString.eqb (method req) (js "POST") && JsString.eqb (pathname req) (js "/rsvp").

(** A submission that was answered with the 200. *)
Definition thanked (req : request) (reply : option response) : bool :=
  is_submission req
  && match reply with Some r => status r =? 200 | None => false end.

(** The number of submissions among [reqs] that were answered with the 200,
    [replies] being the replies to [reqs] in their order. *)
Definition count_thanked (reqs : list (runtime * request))
    (replies : list (option response)) : nat :=
  length (List.filter (fun p => thanked (snd (fst p)) (snd p)) (combine reqs replies)).

End Http.

(** ** The state of the chunk decoder *)

Module DecoderState.

Import Utf8.

(** The code units that a decoder inside a code point still owes for the
    bytes it has taken: at the end of the chunk they become one U+FFFD. *)
Definition owed (st : decoder) : nat :=
  match st with Start => 0 | Pending _ _ _ _ => 1 end.

End DecoderState.

(** ** The segments of a path name *)

Module Segments.

Import Json Path.

Definition slash_free (seg : jsstring) : bool :=
  forallb (fun c => negb (c =? 47)) seg.

(** A segment that [normalizeString] keeps as it is. *)
Definition kept (seg : jsstring) : bool := negb (is_empty seg || is_dot seg).



(** A segment that is kept, has no slash and is not the parent directory. *)
Definition plain (seg : jsstring) : Prop :=
  kept seg = true /\ is_dotdot seg = false /\ slash_free seg = true.

(** The path of what the segments name below the directory [root]. *)
Definition below (root : jsstring) (segs : list jsstring) : jsstring :=
  root ++ concat (map (fun seg => 47 :: seg) segs).

End Segments.

(** ** File names *)

Module FileNames.

Import Json Segments.

Definition dot_free (s : jsstring) : bool := forallb (fun c => negb (c =? 46)) s.

(** A stem and an extension that make up one segment [stem.ext], the
    extension being what follows the last dot. *)
Definition stem_and_extension (stem ext : jsstring) : bool :=
  negb (is_empty stem) && slash_free stem && slash_free ext && dot_free ext.

End FileNames.

(** ** More sample requests *)

Module MoreSamples.

Import Server Samples.

(** Two valid submissions, with a refused one, a malformed one and a
    listing in between. *)
Definition mixed_requests : list (runtime * request) :=
  [(at_epoch, post ada_text); (at_epoch, post blank_name_text);
   (at_epoch, post (js "{")); (at_epoch, get (js "/rsvps"));
   (at_epoch, post ada_dated_text)].

End MoreSamples.
(** * The scripts of the pages (src/public/assets/js/rsvp.js)

    The file holds three scripts, each a listener of DOMContentLoaded: the
    RSVP form (lines 1-48), the slider of the hero images (lines 49-102)
    and the countdown (lines 102-130). *)

(** ** The countdown *)

Module Countdown.

Local Open Scope Z_scope.

(** The page as the script sees it: the text of the elements with the ids
    days and hours, [None] for an element that the page does not have. *)
Record page : Type := {
  daysEl : option jsstring;
  hoursEl : option jsstring
}.

(** Line 115: the time value of [new Date('2025-11-21T18:30:00Z')], in
    milliseconds since the epoch. *)
Definition target : Z := 1763749800000.

(** Lines 116-121, [now] being the time value of [new Date()]: the days and
    hours written to the page.  Time values are integers of at most
    8.64e15 in absolute value; on them the subtraction, the divisions under
    [Math.floor] and the remainder are exact. *)
Definition remaining (now : Z) : Z * Z :=
  let diffMs := target - now in
  let diffMs := if diffMs <? 0 then 0 else diffMs in
  let totalHours := diffMs / (1000 * 60 * 60) in
  let days := totalHours / 24 in
  let hours := Z.rem totalHours 24 in
  (days, hours).

(** The text of a Number that is a non-negative integer below 10^21: its
    decimal digits. *)
Definition integer_text (n : Z) : jsstring :=
  js (NilZero.string_of_uint (N.to_uint (Z.to_N n))).

(** Lines 113-124. *)
Definition updateCountdown (now : Z) (p : page) : page :=
  let (days, hours) := remaining now in
  {| daysEl := Some (integer_text days); hoursEl := Some (integer_text hours) |}.

(** The script after DOMContentLoaded: the page, and whether the hourly
    timer of line 129 runs. *)
Record countdown : Type := {
  shown : page;
  timer : bool
}.

(** Lines 108-130, at the time [now]. *)
Definition on_load (now : Z) (p : page) : countdown :=
  match daysEl p, hoursEl p with
  | Some _, Some _ => {| shown := updateCountdown now p; timer := true |}
  | _, _ => {| shown := p; timer := false |}
  end.

(** The timer fires at the time [now]. *)
Definition on_timer (now : Z) (st : countdown) : countdown :=
  if timer st then {| shown := updateCountdown now (shown st); timer := true |}
  else st.

End Countdown.
(** ** The slider of the hero images *)

Module Slider.

Local Open Scope Z_scope.

(** The page as the script sees it: whether it has a header element, and a
    button for each of the selectors .slider-btn.left and
    .slider-btn.right. *)
Record page : Type := {
  has_header : bool;
  has_left : bool;
  has_right : bool
}.

(** Lines 61-65. *)
Definition images : list jsstring :=
  [js "assets/images/hero.jpg"; js "assets/images/image1.jpg";
   js "assets/images/image4.jpg"].

(** The script and what it acts on: the page, the background image that it
    gave the header ([None] as long as it gave none), its two variables,
    the interval timers of the script that run, the number of timer ids
    that the window has issued, and whether the buttons have their click
    listeners. *)
Record slider : Type := {
  document : page;
  backgroundImage : option jsstring;
  currentIndex : Z;
  sliderInterval : N;
  timers : gset N;
  issued : N;
  left_listener : bool;
  right_listener : bool
}.

(** [images[index]] in a template literal: the text undefined outside the
    array. *)
Definition image (index : Z) : jsstring :=
  match (if index <? 0 then None else nth_error images (Z.to_nat index)) with
  | Some s => s
  | None => js "undefined"
  end.

(** Lines 69-71; [None] for the TypeError on a page without header. *)
Definition setHeroBackground (index : Z) (st : slider) : option slider :=
  if has_header (document st) then
    Some {| document := document st;
            backgroundImage := Some (js "url('" ++ image index ++ js "')");
            currentIndex := currentIndex st;
            sliderInterval := sliderInterval st;
            timers := timers st;
            issued := issued st;
            left_listener := left_listener st;
            right_listener := right_listener st |}
  else None.

Definition set_currentIndex (index : Z) (st : slider) : slider :=
  {| document := document st;
     backgroundImage := backgroundImage st;
     currentIndex := index;
     sliderInterval := sliderInterval st;
     timers := timers st;
     issued := issued st;
     left_listener := left_listener st;
     right_listener := right_listener st |}.

(** A call that may throw: the state it leaves, and whether it returned. *)
Definition show_current (st : slider) : slider * bool :=
  match setHeroBackground (currentIndex st) st with
  | Some st' => (st', true)
  | None => (st, false)
  end.

(** Lines 73-76. *)
Definition nextImage (st : slider) : slider * bool :=
  show_current
    (set_currentIndex
       (Z.rem (currentIndex st + 1) (Z.of_nat (length images))) st).

(** Lines 78-82. *)
Definition prevImage (st : slider) : slider * bool :=
  show_current
    (set_currentIndex
       (Z.rem (currentIndex st - 1 + Z.of_nat (length images))
              (Z.of_nat (length images))) st).

(** [sliderInterval = setInterval(nextImage, 10000)]: the window issues the
    next timer id. *)
Definition setInterval (st : slider) : slider :=
  {| document := document st;
     backgroundImage := backgroundImage st;
     currentIndex := currentIndex st;
     sliderInterval := (issued st + 1)%N;
     timers := {[ (issued st + 1)%N ]} ∪ timers st;
     issued := (issued st + 1)%N;
     left_listener := left_listener st;
     right_listener := right_listener st |}.

(** [clearInterval(sliderInterval)] *)
Definition clearInterval (st : slider) : slider :=
  {| document := document st;
     backgroundImage := backgroundImage st;
     currentIndex := currentIndex st;
     sliderInterval := sliderInterval st;
     timers := timers st ∖ {[ sliderInterval st ]};
     issued := issued st;
     left_listener := left_listener st;
     right_listener := right_listener st |}.

(** The rest of a click listener, which a throw of the first call skips. *)
Definition then_restart (r : slider * bool) : slider :=
  if snd r then setInterval (clearInterval (fst r)) else fst r.

(** Lines 88-92 and 94-98: a click on a button, which does nothing without
    a listener. *)
Definition on_left_click (st : slider) : slider :=
  if left_listener st then then_restart (prevImage st) else st.

Definition on_right_click (st : slider) : slider :=
  if right_listener st then then_restart (nextImage st) else st.

(** The timer [id] is due: its callback runs if the timer still runs. *)
Definition on_timer (id : N) (st : slider) : slider :=
  if bool_decide (id ∈ timers st) then fst (nextImage st) else st.

Definition add_left_listener (st : slider) : slider :=
  {| document := document st;
     backgroundImage := backgroundImage st;
     currentIndex := currentIndex st;
     sliderInterval := sliderInterval st;
     timers := timers st;
     issued := issued st;
     left_listener := true;
     right_listener := right_listener st |}.

Definition add_right_listener (st : slider) : slider :=
  {| document := document st;
     backgroundImage := backgroundImage st;
     currentIndex := currentIndex st;
     sliderInterval := sliderInterval st;
     timers := timers st;
     issued := issued st;
     left_listener := left_listener st;
     right_listener := true |}.

(** Lines 54-102: the listener of DOMContentLoaded, in a window that has
    issued [ids] timer ids.  [addEventListener] on a button that the page
    does not have throws, and so does [setHeroBackground] without header:
    the listener then ends there. *)
Definition on_load (p : page) (ids : N) : slider :=
  let st :=
    setInterval
      {| document := p; backgroundImage := None; currentIndex := 0;
         sliderInterval := 0; timers := ∅; issued := ids;
         left_listener := false; right_listener := false |} in
  if has_left p then
    let st := add_left_listener st in
    if has_right p then fst (show_current (add_right_listener st))
    else st
  else st.

Inductive event : Type :=
| Timer (id : N)
| LeftClick
| RightClick.

Definition handle (st : slider) (e : event) : slider :=
  match e with
  | Timer id => on_timer id st
  | LeftClick => on_left_click st
  | RightClick => on_right_click st
  end.

(** The events of a visit, in their order. *)
Definition run (es : list event) (st : slider) : slider := fold_left handle es st.

(** A page with the three elements. *)
Definition whole (p : page) : bool := has_header p && has_left p && has_right p.

(** What holds between the events on a page with the three elements: both
    listeners are there, the index is within the array, the header shows
    the image of the index, and the timer that the script holds is the one
    timer that runs. *)
Definition steady (st : slider) : Prop :=
  has_header (document st) = true /\
  left_listener st = true /\ right_listener st = true /\
  0 <= currentIndex st < Z.of_nat (length images) /\
  backgroundImage st = Some (js "url('" ++ image (currentIndex st) ++ js "')") /\
  timers st = {[ sliderInterval st ]}.

End Slider.
(** ** What [fetch] sends: a string as UTF-8 *)

Module Utf8Encode.

Import Json.

Definition byte_of (n : N) : Byte.byte :=
  match Byte.of_N n with Some b => b | None => Byte.x00 end.

Definition encode_code_point (cp : N) : list Byte.byte :=
  if cp <? 128 then [byte_of cp]
  else if cp <? 2048 then [byte_of (192 + cp / 64); byte_of (128 + cp mod 64)]
  else if cp <? 65536 then
    [byte_of (224 + cp / 4096); byte_of (128 + cp / 64 mod 64);
     byte_of (128 + cp mod 64)]
  else
    [byte_of (240 + cp / 262144); byte_of (128 + cp / 4096 mod 64);
     byte_of (128 + cp / 64 mod 64); byte_of (128 + cp mod 64)].

(** The UTF-8 bytes of a string; a surrogate that is not part of a pair is
    sent as U+FFFD. *)
Fixpoint utf8_encode (s : jsstring) : list Byte.byte :=
  match s with
  | [] => []
  | c :: r =>
    if is_high_surrogate c then
      match r with
      | d :: r' =>
        if is_low_surrogate d then
          encode_code_point (65536 + (c - 55296) * 1024 + (d - 56320))
          ++ utf8_encode r'
        else encode_code_point 65533 ++ utf8_encode r
      | [] => encode_code_point 65533
      end
    else if is_low_surrogate c then encode_code_point 65533 ++ utf8_encode r
    else encode_code_point c ++ utf8_encode r
  end.

(** A string of code units in which every surrogate is part of a pair. *)
Fixpoint well_formed (s : jsstring) : bool :=
  match s with
  | [] => true
  | c :: r =>
    if is_high_surrogate c then
      match r with
      | d :: r' => is_low_surrogate d && well_formed r'
      | [] => false
      end
    else negb (is_low_surrogate c) && (c <? 65536) && well_formed r
  end.


(** The quotient and the remainder of [x] by [d], as unknowns with their
    equations. *)
Ltac divmod x d :=
  let q := fresh "q" in
  let r := fresh "r" in
  pose proof (N.div_mod x d ltac:(discriminate));
  pose proof (N.mod_lt x d ltac:(discriminate));
  set (q := x / d) in *; set (r := x mod d) in *; clearbody q r.

(** Case analysis on the comparisons in the goal, one at a time, leaving
    out the cases that the hypotheses exclude. *)
Ltac decide_tests :=
  repeat (match goal with
          | |- context [N.leb ?a ?b] => destruct (N.leb_spec a b); try lia
          | |- context [N.ltb ?a ?b] => destruct (N.ltb_spec a b); try lia
          | |- context [N.eqb ?a ?b] => destruct (N.eqb_spec a b); try lia
          end; cbn [andb orb negb]; cbv iota).

End Utf8Encode.

(** ** The RSVP form (lines 1-48 of src/public/assets/js/rsvp.js) *)

Module RsvpForm.

Import Json Fs Server Utf8Encode.

(** The script acts on a page that has the form rsvpForm with its six
    controls and the element rsvpResponse; without the form it does nothing
    (line 11).  The values of the six controls: *)
Record form : Type := {
  name_value : jsstring;
  email_value : jsstring;
  phone_value : jsstring;
  guests_value : jsstring;
  attending_value : jsstring;
  message_value : jsstring
}.

(** [parseInt(s, 10)]: whether a minus sign was read, and the digits read;
    [None] stands for NaN, the result when no digit follows the white space
    and the sign. *)
Definition parseInt (s : jsstring) : option (bool * jsstring) :=
  let s := trimStart s in
  let (negative, rest) :=
    match s with
    | c :: r =>
      if c =? 45 then (true, r) else if c =? 43 then (false, r) else (false, s)
    | [] => (false, [])
    end in
  match span_digits rest with
  | ([], _) => None
  | (digits, _) => Some (negative, digits)
  end.

Fixpoint strip_zeros (digits : jsstring) : jsstring :=
  match digits with
  | c :: r => if c =? 48 then strip_zeros r else digits
  | [] => []
  end.

(** Line 20: [parseInt(s, 10) || 0], a Number, by its literal: the digits
    read, or 0 for NaN and for the two zeros. *)
Definition guests_number (s : jsstring) : json :=
  match parseInt s with
  | None => JNumber (js "0")
  | Some (negative, digits) =>
    match strip_zeros digits with
    | [] => JNumber (js "0")
    | d :: ds => JNumber ((if negative then js "-" else []) ++ d :: ds)
    end
  end.

(** Lines 16-23. *)
Definition formData (f : form) : json :=
  JObject
    [(js "name", JString (trim (name_value f)));
     (js "email", JString (trim (email_value f)));
     (js "phone", JString (trim (phone_value f)));
     (js "guests", guests_number (guests_value f));
     (js "attending", JString (attending_value f));
     (js "message", JString (trim (message_value f)))].

(** Line 31: the body of the request. *)
Definition payload (f : form) : jsstring := JSON_stringify 0 (formData f).

(** What [fetch] settles with: a rejection, or a response with its status
    and the text of its body. *)
Inductive fetched : Type :=
| Rejected
| Response (status : N) (body : jsstring).

(** The response element after the listener: its colour, the value assigned
    to its textContent (the page shows it as text) and its display; with
    it, whether the form was reset. *)
Record feedback : Type := {
  color : jsstring;
  textContent : json;
  display : jsstring;
  form_reset : bool
}.

(** Lines 42-46. *)
Definition unexpected : feedback :=
  {| color := js "red";
     textContent := JString (js "An unexpected error occurred. Please try again later.");
     display := js "block";
     form_reset := false |}.

(** [result.message || fallback], and the same for [result.error]: [None]
    stands for the TypeError of reading a property of null.  Among the
    values that [JSON.parse] returns only an object can have a property of
    one of these two names. *)
Definition property_or (key fallback : jsstring) (result : json) : option json :=
  match result with
  | JNull => None
  | JObject props =>
    match obj_get key props with
    | Some v => Some (if truthy v then v else JString fallback)
    | None => Some (JString fallback)
    end
  | _ => Some (JString fallback)
  end.

(** [res.ok] *)
Definition ok (status : N) : bool := (200 <=? status) && (status <=? 299).

(** Lines 33-46: what the listener does with the outcome of [fetch]. *)
Definition on_fetched (r : fetched) : feedback :=
  match r with
  | Rejected => unexpected
  | Response status body =>
    match JSON_parse body with
    | None => unexpected
    | Some result =>
      if ok status then
        match property_or (js "message") (js "RSVP submitted successfully.") result with
        | Some v =>
          {| color := js "green"; textContent := v; display := js "block";
             form_reset := true |}
        | None => unexpected
        end
      else
        match property_or (js "error")
                (js "There was a problem submitting your RSVP.") result with
        | Some v =>
          {| color := js "red"; textContent := v; display := js "block";
             form_reset := false |}
        | None => unexpected
        end
    end
  end.

(** The request of lines 26-32, its body in one chunk. *)
Definition request_of (f : form) : request :=
  {| method := js "POST"; pathname := js "/rsvp";
     chunks := [utf8_encode (payload f)] |}.

(** What [fetch] settles with when the server replies, or when the socket
    was destroyed. *)
Definition fetched_of (reply : option response) : fetched :=
  match reply with
  | Some r => Response (Server.status r) (Server.body r)
  | None => Rejected
  end.


(** A submission of the form to this server: the file system of the server
    afterwards, and the feedback on the page. *)
Definition submit (proc : process) (rt : runtime) (f : form) (fs : filesystem)
  : filesystem * feedback :=
  let (fs', reply) := serve proc rt (request_of f) fs in
  (fs', on_fetched (fetched_of reply)).

End RsvpForm.

(** ** Sample forms *)

Module FormSamples.

Import RsvpForm.

Definition ada_form : form :=
  {| name_value := js "  Ada Lovelace ";
     email_value := js "ada@example.org";
     phone_value := [];
     guests_value := js " 02 guests";
     attending_value := js "yes";
     message_value := js "See you there!" |}.


(** The feedback for each of the three replies of the submit handler. *)
Definition thanks_shown : feedback :=
  {| color := js "green";
     textContent := Json.JString (js "Thank you for your RSVP!");
     display := js "block";
     form_reset := true |}.



(** The three bytes of the euro sign, in two chunks. *)
Definition split_euro : list (list Byte.byte) :=
  [[Byte.xe2]; [Byte.x82; Byte.xac]].

End FormSamples.

(** ** Facts about strings *)

Module JsStringFacts.

Lemma eqb_eq s t : JsString.eqb s t = true <-> s = t.
Proof.
  revert t; induction s as [|a s IH]; intros [|b t]; simpl;
    try (split; [discriminate | intros; discriminate]); try tauto.
  rewrite andb_true_iff, N.eqb_eq, IH. split.
  - intros [-> ->]; reflexivity.
  - intros H; injection H; auto.
Qed.

Lemma eqb_refl s : JsString.eqb s s = true.
Proof. apply eqb_eq; reflexivity. Qed.

Lemma eqb_neq s t : JsString.eqb s t = false <-> s <> t.
Proof.
  rewrite <- eqb_eq. destruct (JsString.eqb s t); split; congruence.
Qed.


End JsStringFacts.

(** ** Facts about JSON values *)

Module JsonFacts.

Import Json JsonWf.

(** *** Property order *)

Lemma goes_before_irrefl k : goes_before k k = false.
Proof.
  unfold goes_before. destruct (array_index k); [apply N.ltb_irrefl | reflexivity].
Qed.

(** [goes_before] is a strict weak order. *)
Lemma goes_before_trans a b c :
  goes_before a b = true -> goes_before b c = true -> goes_before a c = true.
Proof.
  unfold goes_before.
  destruct (array_index a), (array_index b), (array_index c);
    try discriminate; try reflexivity.
  rewrite !N.ltb_lt. lia.
Qed.

Lemma goes_before_neg_trans a b c :
  goes_before a b = false -> goes_before b c = false -> goes_before a c = false.
Proof.
  unfold goes_before.
  destruct (array_index a), (array_index b), (array_index c);
    try discriminate; try reflexivity.
  rewrite !N.ltb_ge. lia.
Qed.

Lemma obj_get_None k props : obj_get k props = None <-> ~ In k (keys props).
Proof.
  induction props as [|[k' v'] props IH]; simpl.
  - tauto.
  - destruct (JsString.eqb k' k) eqn:E.
    + apply JsStringFacts.eqb_eq in E. split; [discriminate | intros H; exfalso; auto].
    + apply JsStringFacts.eqb_neq in E. rewrite IH. tauto.
Qed.

Lemma obj_get_Some_In k v props : obj_get k props = Some v -> In (k, v) props.
Proof.
  induction props as [|[k' v'] props IH]; simpl; [discriminate|].
  destruct (JsString.eqb k' k) eqn:E.
  - apply JsStringFacts.eqb_eq in E. intros [= ->]. left; congruence.
  - auto.
Qed.

Lemma keys_obj_replace k v props : keys (obj_replace k v props) = keys props.
Proof.
  induction props as [|[k' v'] props IH]; simpl; [reflexivity|].
  destruct (JsString.eqb k' k); simpl; [reflexivity | f_equal; exact IH].
Qed.





Lemma goes_before_asym a b : goes_before a b = true -> goes_before b a = false.
Proof.
  intros H. destruct (goes_before b a) eqn:E; [|reflexivity].
  pose proof (goes_before_trans _ _ _ H E) as H1.
  rewrite goes_before_irrefl in H1. discriminate.
Qed.

Lemma canonical_nil : canonical [].
Proof. constructor. Qed.

Lemma sorted_app_before (R : jsstring -> jsstring -> Prop) l1 x l2 :
  StronglySorted R (l1 ++ x :: l2) -> Forall (fun a => R a x) l1.
Proof.
  induction l1 as [|a l1 IH]; simpl; intros H.
  - constructor.
  - apply StronglySorted_inv in H as [Hs Hf]. constructor.
    + rewrite List.Forall_forall in Hf. apply Hf, in_or_app. right; left; reflexivity.
    + apply IH, Hs.
Qed.

Lemma obj_insert_new_last k v props :
  Forall (fun a => goes_before k a = false) (keys props) ->
  obj_insert_new k v props = props ++ [(k, v)].
Proof.
  induction props as [|[k' v'] props IH]; simpl; intros H.
  - reflexivity.
  - apply List.Forall_cons_iff in H as [H1 H2]. rewrite H1, IH by exact H2.
    reflexivity.
Qed.

Lemma obj_of_pairs_from acc l :
  canonical (acc ++ l) ->
  fold_left (fun o kv => obj_set (fst kv) (snd kv) o) l acc = acc ++ l.
Proof.
  revert acc; induction l as [|[k v] l IH]; intros acc H; simpl.
  - symmetry; apply app_nil_r.
  - assert (Hacc : Forall (fun a => precedes a k) (keys acc)).
    { unfold canonical, keys in H. rewrite map_app in H. simpl in H.
      apply sorted_app_before in H. exact H. }
    assert (Hset : obj_set k v acc = acc ++ [(k, v)]).
    { unfold obj_set.
      assert (Hnone : obj_get k acc = None).
      { apply obj_get_None. intros Hin. rewrite List.Forall_forall in Hacc.
        destruct (Hacc _ Hin) as [Hne _]. congruence. }
      rewrite Hnone. apply obj_insert_new_last.
      eapply List.Forall_impl; [|exact Hacc]. intros a [_ Ha]; exact Ha. }
    rewrite Hset, IH.
    + rewrite <- app_assoc. reflexivity.
    + rewrite <- app_assoc. exact H.
Qed.

(** Defining the properties of a canonical list one after the other gives
    the list back. *)
Lemma obj_of_pairs_canonical props : canonical props -> obj_of_pairs props = props.
Proof. intros H. unfold obj_of_pairs. apply (obj_of_pairs_from [] props H). Qed.

Lemma keys_insert_new k v props x :
  In x (keys (obj_insert_new k v props)) -> x = k \/ In x (keys props).
Proof.
  induction props as [|[k' v'] props IH]; simpl.
  - intros [<-|[]]; auto.
  - destruct (goes_before k k'); simpl.
    + intros [<-|H]; auto.
    + intros [<-|H]; auto. destruct (IH H); auto.
Qed.

Lemma canonical_insert_new k v props :
  canonical props -> ~ In k (keys props) -> canonical (obj_insert_new k v props).
Proof.
  unfold canonical.
  induction props as [|[k' v'] props IH]; simpl; intros Hs Hk.
  - repeat constructor.
  - apply StronglySorted_inv in Hs as [Hs Hf].
    destruct (goes_before k k') eqn:E; simpl.
    + constructor; [constructor; assumption|].
      constructor.
      * split; [intros ->; apply Hk; left; reflexivity|].
        apply goes_before_asym, E.
      * rewrite List.Forall_forall in Hf |- *. intros x Hx. split.
        -- intros ->. apply Hk. right. exact Hx.
        -- destruct (Hf x Hx) as [_ H1].
           destruct (goes_before x k) eqn:E1; [|reflexivity].
           rewrite (goes_before_trans _ _ _ E1 E) in H1. discriminate.
    + constructor.
      * apply IH; [exact Hs | intros H; apply Hk; right; exact H].
      * rewrite List.Forall_forall in Hf |- *. intros x Hx.
        destruct (keys_insert_new _ _ _ _ Hx) as [->|Hx'].
        -- split; [intros ->; apply Hk; left; reflexivity | exact E].
        -- apply Hf, Hx'.
Qed.

Lemma canonical_obj_set k v props : canonical props -> canonical (obj_set k v props).
Proof.
  intros H. unfold obj_set. destruct (obj_get k props) eqn:E.
  - unfold canonical. rewrite keys_obj_replace. exact H.
  - apply canonical_insert_new; [exact H | apply obj_get_None, E].
Qed.

Lemma canonical_obj_of_pairs pairs : canonical (obj_of_pairs pairs).
Proof.
  unfold obj_of_pairs. generalize canonical_nil. generalize (@nil (jsstring * json)).
  induction pairs as [|[k v] pairs IH]; simpl; intros acc H.
  - exact H.
  - apply IH, canonical_obj_set, H.
Qed.

(** The values of an object after [obj_set] are the new one and old ones. *)
Lemma obj_replace_values (Q : json -> Prop) k v props :
  Q v -> Forall (fun kv => Q (snd kv)) props ->
  Forall (fun kv => Q (snd kv)) (obj_replace k v props).
Proof.
  intros Hv. induction props as [|[k' v'] props IH]; simpl; intros H.
  - constructor.
  - apply List.Forall_cons_iff in H as [H1 H2].
    destruct (JsString.eqb k' k); constructor; auto.
Qed.

Lemma obj_insert_new_values (Q : json -> Prop) k v props :
  Q v -> Forall (fun kv => Q (snd kv)) props ->
  Forall (fun kv => Q (snd kv)) (obj_insert_new k v props).
Proof.
  intros Hv. induction props as [|[k' v'] props IH]; simpl; intros H.
  - repeat constructor. exact Hv.
  - destruct (goes_before k k').
    + constructor; [exact Hv | exact H].
    + apply List.Forall_cons_iff in H as [H1 H2]. constructor; auto.
Qed.

Lemma obj_set_values (Q : json -> Prop) k v props :
  Q v -> Forall (fun kv => Q (snd kv)) props ->
  Forall (fun kv => Q (snd kv)) (obj_set k v props).
Proof.
  intros Hv H. unfold obj_set. destruct (obj_get k props).
  - apply obj_replace_values; assumption.
  - apply obj_insert_new_values; assumption.
Qed.

Lemma obj_of_pairs_values (Q : json -> Prop) pairs :
  Forall (fun kv => Q (snd kv)) pairs ->
  Forall (fun kv => Q (snd kv)) (obj_of_pairs pairs).
Proof.
  unfold obj_of_pairs.
  assert (Hnil : Forall (fun kv : jsstring * json => Q (snd kv)) []) by constructor.
  revert Hnil. generalize (@nil (jsstring * json)).
  induction pairs as [|[k v] pairs IH]; simpl; intros acc Hacc H.
  - exact Hacc.
  - apply List.Forall_cons_iff in H as [H1 H2].
    apply IH; [|exact H2]. apply obj_set_values; assumption.
Qed.



(** *** Numbers: a scanned literal scans again, whatever follows it *)

Lemma head_not_extends r :
  head_not extends_number r ->
  head_not is_digit r /\ head_not is_point r /\ head_not is_exp_mark r.
Proof.
  destruct r as [|c r]; simpl; [tauto|].
  unfold extends_number, is_point, is_exp_mark.
  destruct (is_digit c), (c =? 46), (c =? 101), (c =? 69); simpl; intros H;
    try discriminate; auto.
Qed.

Lemma head_not_app p l r :
  l <> [] -> head_not p l -> head_not p (l ++ r).
Proof. destruct l; simpl; [congruence | auto]. Qed.

Lemma span_digits_reframe s d r :
  span_digits s = (d, r) ->
  s = d ++ r /\ forall r', head_not is_digit r' -> span_digits (d ++ r') = (d, r').
Proof.
  revert d r; induction s as [|c s IH]; simpl; intros d r H.
  - injection H as <- <-. split; [reflexivity|].
    intros [|c' r'] Hr'; simpl in *; [reflexivity | rewrite Hr'; reflexivity].
  - destruct (is_digit c) eqn:E.
    + destruct (span_digits s) as [d' r0] eqn:E'. injection H as <- <-.
      destruct (IH _ _ eq_refl) as [-> IH']. split; [reflexivity|].
      intros r' Hr'. simpl. rewrite E, (IH' _ Hr'). reflexivity.
    + injection H as <- <-. split; [reflexivity|].
      intros [|c' r'] Hr'; simpl in *; [reflexivity | rewrite Hr'; reflexivity].
Qed.

Lemma span_digits_nonempty s d r c :
  span_digits s = (c :: d, r) -> is_digit c = true.
Proof.
  destruct s as [|c0 s]; simpl; [discriminate|].
  destruct (is_digit c0) eqn:E; [|discriminate].
  destruct (span_digits s). intros [= <- _ _]. exact E.
Qed.

Lemma scan_int_reframe s i r :
  scan_int s = Some (i, r) ->
  s = i ++ r /\ (exists c t, i = c :: t /\ is_digit c = true) /\
  forall r', head_not is_digit r' -> scan_int (i ++ r') = Some (i, r').
Proof.
  destruct s as [|c s]; simpl; [discriminate|].
  destruct (c =? 48) eqn:E0.
  - intros [= <- <-]. split; [reflexivity|]. split.
    + exists c, []. split; [reflexivity|]. apply N.eqb_eq in E0; subst; reflexivity.
    + intros r' _. simpl. rewrite E0. reflexivity.
  - destruct (is_digit c) eqn:E; [|discriminate].
    destruct (span_digits s) as [d r0] eqn:E'. intros [= <- <-].
    destruct (span_digits_reframe _ _ _ E') as [-> Hd]. split; [reflexivity|]. split.
    + exists c, d. auto.
    + intros r' Hr'. simpl. rewrite E0, E, (Hd _ Hr'). reflexivity.
Qed.

Lemma scan_frac_reframe s f r :
  scan_frac s = Some (f, r) ->
  s = f ++ r /\ (f = [] \/ exists t, f = 46 :: t) /\
  forall r', head_not is_digit r' -> head_not is_point r' ->
             scan_frac (f ++ r') = Some (f, r').
Proof.
  assert (Hnone : forall r', head_not is_point r' -> scan_frac r' = Some ([], r')).
  { intros [|c' r'] H; simpl in *; [reflexivity|].
    unfold is_point in H. rewrite H. reflexivity. }
  destruct s as [|c s]; simpl.
  - intros [= <- <-]. split; [reflexivity|]. split; [left; reflexivity|].
    intros r' _ Hp. apply Hnone, Hp.
  - destruct (c =? 46) eqn:E.
    + destruct (span_digits s) as [d r0] eqn:E'. destruct d as [|d0 d]; [discriminate|].
      intros [= <- <-]. destruct (span_digits_reframe _ _ _ E') as [-> Hd].
      apply N.eqb_eq in E; subst c.
      split; [reflexivity|]. split; [right; eexists; reflexivity|].
      intros r' Hr' _. simpl. simpl in Hd. rewrite (Hd _ Hr'). reflexivity.
    + intros [= <- <-]. split; [reflexivity|]. split; [left; reflexivity|].
      intros r' _ Hp. apply Hnone, Hp.
Qed.

Lemma scan_exp_reframe s e r :
  scan_exp s = Some (e, r) ->
  s = e ++ r /\ (e = [] \/ exists c t, e = c :: t /\ is_exp_mark c = true) /\
  forall r', head_not is_digit r' -> head_not is_exp_mark r' ->
             scan_exp (e ++ r') = Some (e, r').
Proof.
  assert (Hnone : forall r', head_not is_exp_mark r' -> scan_exp r' = Some ([], r')).
  { intros [|c' r'] H; simpl in *; [reflexivity|].
    unfold is_exp_mark in H. rewrite H. reflexivity. }
  destruct s as [|c s]; simpl.
  - intros [= <- <-]. split; [reflexivity|]. split; [left; reflexivity|].
    intros r' _ Hp. apply Hnone, Hp.
  - destruct ((c =? 101) || (c =? 69)) eqn:E.
    + destruct (scan_exp_sign s) as [sg r1] eqn:Es.
      destruct (span_digits r1) as [d r0] eqn:E'. destruct d as [|d0 d]; [discriminate|].
      intros [= <- <-]. destruct (span_digits_reframe _ _ _ E') as [-> Hd].
      pose proof (span_digits_nonempty _ _ _ _ E') as Hd0.
      assert (Hs : s = sg ++ (d0 :: d) ++ r0 /\
                   forall t, scan_exp_sign (sg ++ (d0 :: d) ++ t) = (sg, (d0 :: d) ++ t)).
      { unfold scan_exp_sign in Es |- *. destruct s as [|c1 s1].
        - injection Es as <- E1. discriminate E1.
        - destruct ((c1 =? 43) || (c1 =? 45)) eqn:E1.
          + injection Es as <- ->. split; [reflexivity|]. intros t; simpl.
            rewrite E1. reflexivity.
          + injection Es as <- -> ->.
            split; [reflexivity|]. intros t; simpl. rewrite E1. reflexivity. }
      destruct Hs as [-> Hs].
      split; [list_assoc; reflexivity|].
      split; [right; exists c, (sg ++ d0 :: d); auto|].
      intros r' Hr' _. simpl. rewrite E.
      rewrite <- app_assoc. change (d0 :: d ++ r') with ((d0 :: d) ++ r').
      rewrite Hs, (Hd _ Hr'). reflexivity.
    + intros [= <- <-]. split; [reflexivity|]. split; [left; reflexivity|].
      intros r' _ Hp. apply Hnone, Hp.
Qed.

Lemma scan_number_reframe s lit r :
  scan_number s = Some (lit, r) ->
  s = lit ++ r /\
  (exists c t, lit = c :: t /\ (c = 45 \/ is_digit c = true)) /\
  forall r', head_not extends_number r' -> scan_number (lit ++ r') = Some (lit, r').
Proof.
  unfold scan_number.
  destruct (scan_sign s) as [sg r0] eqn:Es.
  destruct (scan_int r0) as [[i r1]|] eqn:Ei; [|discriminate].
  destruct (scan_frac r1) as [[f r2]|] eqn:Ef; [|discriminate].
  destruct (scan_exp r2) as [[e r3]|] eqn:Ee; [|discriminate].
  intros [= <- <-].
  destruct (scan_int_reframe _ _ _ Ei) as (-> & (ci & ti & -> & Hci) & Hi).
  destruct (scan_frac_reframe _ _ _ Ef) as (-> & Hfs & Hf).
  destruct (scan_exp_reframe _ _ _ Ee) as (-> & Hes & He).
  assert (Hsg : s = sg ++ (ci :: ti) ++ f ++ e ++ r3 /\
                (sg = [45] \/ sg = [] /\ (ci =? 45) = false)).
  { unfold scan_sign in Es. destruct s as [|c s]; [discriminate Es|].
    destruct (c =? 45) eqn:E.
    - injection Es as <- ->. apply N.eqb_eq in E; subst c. split; [reflexivity | auto].
    - injection Es as <- -> ->. auto. }
  destruct Hsg as [-> Hsg]. split; [list_assoc; reflexivity|]. split.
  { destruct Hsg as [->|[-> _]]; simpl; eauto. }
  intros r' Hr'. apply head_not_extends in Hr' as (Hd & Hp & Hx).
  assert (Hss : scan_sign ((sg ++ (ci :: ti) ++ f ++ e) ++ r')
                = (sg, (ci :: ti) ++ f ++ e ++ r')).
  { list_assoc. destruct Hsg as [->|[-> Hne]]; simpl; [reflexivity|].
    rewrite Hne. reflexivity. }
  rewrite Hss.
  assert (Hder : head_not is_digit (e ++ r') /\ head_not is_point (e ++ r')).
  { destruct Hes as [->|(c & t & -> & Hc)]; simpl; [auto|].
    unfold is_exp_mark in Hc. unfold is_digit, is_point. split.
    - cmp_cases; try reflexivity; simpl in Hc; cmp_cases_in Hc; try discriminate; lia.
    - cmp_cases; try reflexivity; simpl in Hc; cmp_cases_in Hc; try discriminate; lia. }
  assert (Hdf : head_not is_digit (f ++ e ++ r')).
  { destruct Hfs as [->|(t & ->)]; simpl; [apply Hder | reflexivity]. }
  rewrite (Hi _ Hdf), (Hf _ (proj1 Hder) (proj2 Hder)), (He _ Hd Hx).
  reflexivity.
Qed.

Lemma scan_number_literal s lit r :
  scan_number s = Some (lit, r) -> number_literal lit.
Proof.
  intros H. destruct (scan_number_reframe _ _ _ H) as (_ & _ & Hr).
  specialize (Hr [] I). rewrite app_nil_r in Hr. exact Hr.
Qed.

Lemma number_literal_scan lit rest :
  number_literal lit -> head_not extends_number rest ->
  scan_number (lit ++ rest) = Some (lit, rest).
Proof.
  intros H Hr. destruct (scan_number_reframe _ _ _ H) as (_ & _ & Hl).
  apply Hl, Hr.
Qed.

Lemma number_literal_head lit :
  number_literal lit -> exists c t, lit = c :: t /\ (c = 45 \/ is_digit c = true).
Proof. intros H. destruct (scan_number_reframe _ _ _ H) as (_ & Hh & _). exact Hh. Qed.

(** *** Strings: a quoted string reads back as the string *)

Lemma hex_value_digit d : d < 16 -> hex_value (hex_digit d) = Some d.
Proof.
  intros H. unfold hex_value, hex_digit, is_digit.
  destruct (N.ltb_spec d 10).
  - cmp_cases; simpl; try lia. f_equal; lia.
  - cmp_cases; simpl; try lia. f_equal; lia.
Qed.

Lemma hex4_escape c :
  c < 65536 ->
  hex4 (hex_digit (c / 4096 mod 16)) (hex_digit (c / 256 mod 16))
       (hex_digit (c / 16 mod 16)) (hex_digit (c mod 16)) = Some c.
Proof.
  intros H. unfold hex4.
  rewrite !hex_value_digit by (apply N.mod_lt; discriminate).
  f_equal.
  assert (E1 : c / 16 / 16 = c / 256) by (rewrite N.Div0.div_div; reflexivity).
  assert (E2 : c / 256 / 16 = c / 4096) by (rewrite N.Div0.div_div; reflexivity).
  assert (E3 : c / 4096 / 16 = 0).
  { rewrite N.Div0.div_div. apply N.div_small. exact H. }
  pose proof (N.Div0.div_mod c 16) as H0.
  pose proof (N.Div0.div_mod (c / 16) 16) as H1.
  pose proof (N.Div0.div_mod (c / 256) 16) as H2.
  pose proof (N.Div0.div_mod (c / 4096) 16) as H3.
  rewrite E1 in H1. rewrite E2 in H2. rewrite E3 in H3. lia.
Qed.

Lemma parse_unicode_escape c rest :
  c < 65536 ->
  parse_string_body (unicode_escape c ++ rest) = cons_unit c (parse_string_body rest).
Proof.
  intros H. unfold unicode_escape. cbn [app parse_string_body].
  change (92 =? 34) with false. change (92 =? 92) with true.
  change (117 =? 117) with true. cbv iota.
  rewrite (hex4_escape c H). reflexivity.
Qed.

Lemma short_escape_unescape c e :
  short_escape c = Some e -> (e =? 117) = false /\ unescape e = Some c.
Proof.
  unfold short_escape.
  repeat match goal with
  | |- context [if ?a =? ?b then _ else _] => destruct (N.eqb_spec a b)
  end; intros [= <-]; subst; split; reflexivity.
Qed.

Lemma short_escape_None c :
  short_escape c = None -> (c =? 34) = false /\ (c =? 92) = false.
Proof.
  unfold short_escape.
  repeat match goal with
  | |- context [if ?a =? ?b then _ else _] => destruct (N.eqb_spec a b)
  end; intros H; try discriminate H; split; reflexivity.
Qed.

Lemma parse_string_escaped c e rest :
  short_escape c = Some e ->
  parse_string_body (92 :: e :: rest) = cons_unit c (parse_string_body rest).
Proof.
  intros H. destruct (short_escape_unescape _ _ H) as [Hu He].
  cbn [parse_string_body]. change (92 =? 34) with false. change (92 =? 92) with true.
  cbv iota. rewrite Hu, He. reflexivity.
Qed.

Lemma parse_string_plain c rest :
  short_escape c = None -> (c <? 32) = false ->
  parse_string_body (c :: rest) = cons_unit c (parse_string_body rest).
Proof.
  intros H H32. destruct (short_escape_None _ H) as [Hq Hb].
  cbn [parse_string_body]. rewrite Hq, Hb, H32. reflexivity.
Qed.

Lemma surrogate_plain c :
  is_high_surrogate c = true \/ is_low_surrogate c = true ->
  short_escape c = None /\ (c <? 32) = false /\ c < 65536.
Proof.
  unfold is_high_surrogate, is_low_surrogate, short_escape.
  intros [H|H]; apply andb_true_iff in H as [H1 H2];
    apply N.leb_le in H1, H2;
    (repeat split; [cmp_cases; (reflexivity || lia) | apply N.ltb_ge; lia | lia]).
Qed.

Lemma parse_quote_units_len n :
  forall s rest, (length s <= n)%nat ->
    parse_string_body (quote_units s ++ 34 :: rest) = Some (s, rest).
Proof.
  induction n as [|n IH]; intros s rest Hlen.
  - destruct s; [reflexivity | simpl in Hlen; lia].
  - destruct s as [|c s]; [reflexivity|]. simpl in Hlen.
    assert (IHs : forall rest, parse_string_body (quote_units s ++ 34 :: rest)
                               = Some (s, rest)) by (intros; apply IH; lia).
    cbn [quote_units]. destruct (short_escape c) as [e|] eqn:Ee.
    { cbn [app]. rewrite (parse_string_escaped _ _ _ Ee), IHs. reflexivity. }
    destruct (c <? 32) eqn:E32.
    { rewrite <- app_assoc, parse_unicode_escape, IHs; [reflexivity|].
      apply N.ltb_lt in E32. lia. }
    destruct (is_high_surrogate c) eqn:Eh.
    { destruct (surrogate_plain c (or_introl Eh)) as (_ & _ & Hc).
      destruct s as [|d s'].
      - rewrite parse_unicode_escape by exact Hc. reflexivity.
      - destruct (is_low_surrogate d) eqn:El.
        + destruct (surrogate_plain d (or_intror El)) as (Hd1 & Hd2 & _).
          cbn [app].
          rewrite (parse_string_plain _ _ Ee E32), (parse_string_plain _ _ Hd1 Hd2).
          rewrite IH by (simpl in Hlen; lia). reflexivity.
        + rewrite <- app_assoc, parse_unicode_escape, IHs by exact Hc. reflexivity. }
    destruct (is_low_surrogate c) eqn:El.
    { destruct (surrogate_plain c (or_intror El)) as (_ & _ & Hc).
      rewrite <- app_assoc, parse_unicode_escape, IHs by exact Hc. reflexivity. }
    cbn [app]. rewrite (parse_string_plain _ _ Ee E32), IHs. reflexivity.
Qed.

Lemma parse_quote_units s rest :
  parse_string_body (quote_units s ++ 34 :: rest) = Some (s, rest).
Proof. apply (parse_quote_units_len (length s)). lia. Qed.

Lemma parse_QuoteJSONString s rest :
  exists t, QuoteJSONString s ++ rest = 34 :: t /\ parse_string_body t = Some (s, rest).
Proof.
  exists (quote_units s ++ 34 :: rest). split.
  - unfold QuoteJSONString. list_assoc. reflexivity.
  - apply parse_quote_units.
Qed.

(** *** [JSON.parse] returns well-formed values *)

Lemma wf_array items : wf (JArray items) <-> Forall wf items.
Proof.
  simpl. induction items as [|x l IH].
  - split; [constructor | trivial].
  - rewrite List.Forall_cons_iff, IH. tauto.
Qed.

Lemma wf_object props :
  wf (JObject props) <-> canonical props /\ Forall (fun kv => wf (snd kv)) props.
Proof.
  simpl. apply and_iff_compat_l. induction props as [|x l IH].
  - split; [constructor | trivial].
  - rewrite List.Forall_cons_iff, IH. tauto.
Qed.

Lemma parse_wf n :
  (forall s v r, parse_value n s = Some (v, r) -> wf v) /\
  (forall s vs r, parse_elements n s = Some (vs, r) -> Forall wf vs) /\
  (forall s kvs r, parse_members n s = Some (kvs, r) ->
                   Forall (fun kv => wf (snd kv)) kvs).
Proof.
  induction n as [|n (IHv & IHe & IHm)].
  - repeat split; intros; discriminate.
  - repeat split.
    + intros s v r H. cbn [parse_value] in H.
      repeat break_match H; try (injection H as <- <-).
      * apply wf_object. split; [apply canonical_nil | constructor].
      * apply wf_object. split; [apply canonical_obj_of_pairs|].
        apply obj_of_pairs_values. eapply IHm; eassumption.
      * apply wf_array. constructor.
      * apply wf_array. eapply IHe; eassumption.
      * exact I.
      * unfold keyword in H. break_match H. injection H as <- <-. exact I.
      * unfold keyword in H. break_match H. injection H as <- <-. exact I.
      * unfold keyword in H. break_match H. injection H as <- <-. exact I.
      * simpl. eapply scan_number_literal; eassumption.
    + intros s vs r H. cbn [parse_elements] in H.
      repeat break_match H; injection H as <- <-.
      * constructor; [eapply IHv; eassumption | eapply IHe; eassumption].
      * constructor; [eapply IHv; eassumption | constructor].
    + intros s kvs r H. cbn [parse_members] in H.
      repeat break_match H; injection H as <- <-.
      * constructor; [simpl; eapply IHv; eassumption | eapply IHm; eassumption].
      * constructor; [simpl; eapply IHv; eassumption | constructor].
Qed.

Lemma JSON_parse_wf s v : JSON_parse s = Some v -> wf v.
Proof.
  unfold JSON_parse. intros H. repeat break_match H. injection H as <-.
  eapply (proj1 (parse_wf _)); eassumption.
Qed.

(** *** [JSON.parse] reads back what [JSON.stringify] writes *)

Lemma skip_ws_blank w s : blank w -> skip_ws (w ++ s) = skip_ws s.
Proof.
  unfold blank. induction w as [|c w IH]; simpl; [reflexivity|].
  intros H. apply andb_true_iff in H as [H1 H2]. rewrite H1. apply IH, H2.
Qed.

Lemma skip_ws_head c s : is_json_ws c = false -> skip_ws (c :: s) = c :: s.
Proof. simpl. intros ->. reflexivity. Qed.

Lemma blank_app w1 w2 : blank w1 -> blank w2 -> blank (w1 ++ w2).
Proof. unfold blank. rewrite forallb_app. intros -> ->. reflexivity. Qed.

Lemma blank_cons c w : is_json_ws c = true -> blank w -> blank (c :: w).
Proof. unfold blank. simpl. intros -> ->. reflexivity. Qed.

Lemma blank_nil : blank [].
Proof. reflexivity. Qed.

Lemma parse_value_skip n w s : blank w -> parse_value n (w ++ s) = parse_value n s.
Proof.
  intros H. destruct n; [reflexivity|]. cbn [parse_value].
  rewrite (skip_ws_blank _ _ H). reflexivity.
Qed.

Lemma parse_elements_skip n w s :
  blank w -> parse_elements n (w ++ s) = parse_elements n s.
Proof.
  intros H. destruct n; [reflexivity|]. cbn [parse_elements].
  rewrite (parse_value_skip _ _ _ H). reflexivity.
Qed.

Lemma parse_members_skip n w s :
  blank w -> parse_members n (w ++ s) = parse_members n s.
Proof.
  intros H. destruct n; [reflexivity|]. cbn [parse_members].
  rewrite (skip_ws_blank _ _ H). reflexivity.
Qed.

Lemma blank_opening gap indent : blank gap -> blank indent -> blank (opening gap indent).
Proof.
  intros Hg Hi. unfold opening. destruct (is_empty gap); [apply blank_nil|].
  apply blank_cons; [reflexivity | apply blank_app; assumption].
Qed.

Lemma blank_closing gap indent : blank indent -> blank (closing gap indent).
Proof.
  intros Hi. unfold closing. destruct (is_empty gap); [apply blank_nil|].
  apply blank_cons; [reflexivity | assumption].
Qed.

Lemma serialize_array gap indent x items :
  SerializeJSONProperty gap indent (JArray (x :: items)) =
  91 :: opening gap indent
     ++ join (44 :: opening gap indent)
             (map (SerializeJSONProperty gap (indent ++ gap)) (x :: items))
     ++ closing gap indent ++ [93].
Proof.
  destruct gap as [|g gap]; reflexivity.
Qed.

Lemma serialize_object gap indent kv props :
  SerializeJSONProperty gap indent (JObject (kv :: props)) =
  123 :: opening gap indent
      ++ join (44 :: opening gap indent)
              (map (member_text gap (indent ++ gap)) (kv :: props))
      ++ closing gap indent ++ [125].
Proof.
  destruct gap as [|g gap]; reflexivity.
Qed.

Lemma size_array items : size (JArray items) = S (size_items items).
Proof. reflexivity. Qed.

Lemma size_object props : size (JObject props) = S (size_props props).
Proof. reflexivity. Qed.

(** What [parse_value] tests on the first unit of a number. *)
Lemma number_start c :
  c = 45 \/ is_digit c = true ->
  is_json_ws c = false /\ (c =? 123) = false /\ (c =? 91) = false /\
  (c =? 34) = false /\ (c =? 116) = false /\ (c =? 102) = false /\
  (c =? 110) = false /\ (c =? 93) = false /\ (c =? 125) = false /\
  (c =? 44) = false.
Proof.
  unfold is_digit, is_json_ws. intros [->|H]; [repeat split|].
  apply andb_true_iff in H as [H1 H2]. apply N.leb_le in H1, H2.
  repeat split; cmp_cases; try reflexivity; lia.
Qed.

Lemma serialize_head gap indent v :
  wf v ->
  exists c t, SerializeJSONProperty gap indent v = c :: t /\
              is_json_ws c = false /\ (c =? 93) = false.
Proof.
  destruct v as [|b|lit|s|items|props]; intros Hwf.
  - exists 110, (js "ull"). repeat split.
  - destruct b; [exists 116, (js "rue") | exists 102, (js "alse")]; repeat split.
  - cbn [SerializeJSONProperty]. destruct (number_overflows lit).
    + exists 110, (js "ull"). repeat split.
    + destruct (number_literal_head lit Hwf) as (c & t & -> & Hc).
      exists c, t.
      destruct (number_start c Hc) as (? & ? & ? & ? & ? & ? & ? & ? & ? & ?).
      repeat split; assumption.
  - exists 34, (quote_units s ++ [34]). repeat split.
  - destruct items as [|x items].
    + exists 91, [93]. repeat split.
    + rewrite serialize_array. eexists _, _. repeat split.
  - destruct props as [|kv props].
    + exists 123, [125]. repeat split.
    + rewrite serialize_object. eexists _, _. repeat split.
Qed.

Lemma follows_blank w c rest :
  blank w -> extends_number c = false -> head_not extends_number (w ++ c :: rest).
Proof.
  intros Hw Hc. destruct w as [|b w]; simpl; [exact Hc|].
  unfold blank in Hw; simpl in Hw. apply andb_true_iff in Hw as [Hb _]. revert Hb.
  unfold is_json_ws, extends_number, is_digit.
  cmp_cases; simpl; intros Hb; try reflexivity; try discriminate Hb; lia.
Qed.

Lemma parse_elements_items gap indent opn cls :
  blank gap -> blank indent -> blank opn -> blank cls ->
  forall items, items <> [] -> Forall reads_back items ->
  forall w rest n, blank w -> (size_items items <= n)%nat ->
    parse_elements n
      (w ++ join (44 :: opn) (map (SerializeJSONProperty gap indent) items)
         ++ cls ++ 93 :: rest) = Some (map reparsed items, rest).
Proof.
  intros Hgap Hind Hopn Hcls. induction items as [|x items IH]; [congruence|].
  intros _ Hall w rest n Hw Hn.
  apply List.Forall_cons_iff in Hall as [Hx Hall].
  destruct n as [|n]; [simpl in Hn; lia|]. simpl in Hn.
  cbn [parse_elements]. destruct items as [|y items].
  - cbn [map join].
    rewrite (Hx gap indent w (cls ++ 93 :: rest) n Hgap Hind Hw)
      by first [lia | apply follows_blank; [assumption | reflexivity]].
    rewrite (skip_ws_blank _ _ Hcls). reflexivity.
  - change (join (44 :: opn) (map (SerializeJSONProperty gap indent) (x :: y :: items)))
      with (SerializeJSONProperty gap indent x ++ (44 :: opn)
            ++ join (44 :: opn) (map (SerializeJSONProperty gap indent) (y :: items))).
    rewrite <- !app_assoc.
    rewrite (Hx gap indent w _ n Hgap Hind Hw) by first [lia | reflexivity].
    cbn [app skip_ws is_json_ws]. change (is_json_ws 44) with false. cbv iota.
    change (44 =? 44) with true. cbv iota.
    rewrite IH; [reflexivity | discriminate | assumption | assumption | simpl in *; lia].
Qed.

Lemma member_text_shape gap indent k v rest :
  member_text gap indent (k, v) ++ rest =
  34 :: quote_units k
     ++ 34 :: 58 :: (if is_empty gap then [] else [32])
     ++ SerializeJSONProperty gap indent v ++ rest.
Proof.
  unfold member_text, QuoteJSONString. cbn [fst snd].
  rewrite <- !app_assoc. cbn [app]. rewrite <- !app_assoc. reflexivity.
Qed.

Lemma parse_members_props gap indent opn cls :
  blank gap -> blank indent -> blank opn -> blank cls ->
  forall props, props <> [] -> Forall (fun kv => reads_back (snd kv)) props ->
  forall w rest n, blank w -> (size_props props <= n)%nat ->
    parse_members n
      (w ++ join (44 :: opn) (map (member_text gap indent) props)
         ++ cls ++ 125 :: rest)
    = Some (map (fun kv => (fst kv, reparsed (snd kv))) props, rest).
Proof.
  intros Hgap Hind Hopn Hcls. induction props as [|[k v] props IH]; [congruence|].
  intros _ Hall w rest n Hw Hn.
  apply List.Forall_cons_iff in Hall as [Hx Hall]. cbn [snd] in Hx.
  destruct n as [|n]; [simpl in Hn; lia|]. simpl in Hn.
  assert (Hsp : blank (if is_empty gap then [] else [32]))
    by (destruct (is_empty gap); reflexivity).
  cbn [parse_members]. rewrite (skip_ws_blank _ _ Hw). destruct props as [|kv props].
  - cbn [map join]. rewrite member_text_shape.
    cbn [skip_ws]. change (is_json_ws 34) with false. cbv iota.
    change (34 =? 34) with true. cbv iota.
    rewrite parse_quote_units.
    cbn [skip_ws]. change (is_json_ws 58) with false. cbv iota.
    change (58 =? 58) with true. cbv iota.
    rewrite (Hx gap indent _ (cls ++ 125 :: rest) n Hgap Hind Hsp)
      by first [lia | apply follows_blank; [assumption | reflexivity]].
    rewrite (skip_ws_blank _ _ Hcls). reflexivity.
  - change (join (44 :: opn) (map (member_text gap indent) ((k, v) :: kv :: props)))
      with (member_text gap indent (k, v) ++ (44 :: opn)
            ++ join (44 :: opn) (map (member_text gap indent) (kv :: props))).
    rewrite <- !app_assoc. rewrite member_text_shape.
    cbn [skip_ws]. change (is_json_ws 34) with false. cbv iota.
    change (34 =? 34) with true. cbv iota.
    rewrite parse_quote_units.
    cbn [skip_ws]. change (is_json_ws 58) with false. cbv iota.
    change (58 =? 58) with true. cbv iota.
    rewrite (Hx gap indent _ _ n Hgap Hind Hsp) by first [lia | reflexivity].
    cbn [app skip_ws]. change (is_json_ws 44) with false. cbv iota.
    change (44 =? 44) with true. cbv iota.
    rewrite IH; [reflexivity | discriminate | assumption | assumption | simpl in *; lia].
Qed.

Lemma skip_ws_idem s : skip_ws (skip_ws s) = skip_ws s.
Proof.
  induction s as [|c s IH]; simpl; [reflexivity|].
  destruct (is_json_ws c) eqn:E; [exact IH | simpl; rewrite E; reflexivity].
Qed.

Lemma parse_elements_skip_ws n s : parse_elements n (skip_ws s) = parse_elements n s.
Proof.
  destruct n; [reflexivity|]. cbn [parse_elements].
  destruct n; [reflexivity|]. cbn [parse_value]. rewrite skip_ws_idem. reflexivity.
Qed.

Lemma parse_members_skip_ws n s : parse_members n (skip_ws s) = parse_members n s.
Proof.
  destruct n; [reflexivity|]. cbn [parse_members]. rewrite skip_ws_idem. reflexivity.
Qed.

Lemma open_array n r items rest :
  (exists c t, skip_ws r = c :: t /\ (c =? 93) = false) ->
  parse_elements n r = Some (items, rest) ->
  parse_value (S n) (91 :: r) = Some (JArray items, rest).
Proof.
  intros (c & t & E & H93) Hp. rewrite <- parse_elements_skip_ws in Hp.
  cbn [parse_value skip_ws]. change (is_json_ws 91) with false. cbv iota.
  change (91 =? 123) with false. change (91 =? 91) with true. cbv iota.
  rewrite E in Hp |- *. rewrite H93, Hp. reflexivity.
Qed.

Lemma open_object n r pairs rest :
  (exists c t, skip_ws r = c :: t /\ (c =? 125) = false) ->
  parse_members n r = Some (pairs, rest) ->
  parse_value (S n) (123 :: r) = Some (JObject (obj_of_pairs pairs), rest).
Proof.
  intros (c & t & E & H125) Hp. rewrite <- parse_members_skip_ws in Hp.
  cbn [parse_value skip_ws]. change (is_json_ws 123) with false. cbv iota.
  change (123 =? 123) with true. cbv iota.
  rewrite E in Hp |- *. rewrite H125, Hp. reflexivity.
Qed.

Lemma join_head sep p l : exists tl, join sep (p :: l) = p ++ tl.
Proof.
  destruct l as [|q l]; simpl.
  - exists []. symmetry; apply app_nil_r.
  - eexists; reflexivity.
Qed.

Lemma keys_reparsed props :
  keys (map (fun kv => (fst kv, reparsed (snd kv))) props) = keys props.
Proof. unfold keys. rewrite map_map. reflexivity. Qed.

Lemma canonical_reparsed props :
  canonical props -> canonical (map (fun kv => (fst kv, reparsed (snd kv))) props).
Proof. unfold canonical. rewrite keys_reparsed. auto. Qed.

(** The round trip, for every well-formed value. *)
Lemma serialize_reads_back v : wf v -> reads_back v.
Proof.
  induction v as [|b|lit|s|items IH|props IH] using json_nested_ind;
    intros Hwf gap indent w rest n Hgap Hind Hw Hrest Hn;
    rewrite (parse_value_skip _ _ _ Hw);
    (destruct n as [|n]; [simpl in Hn; lia|]).
  - reflexivity.
  - destruct b; reflexivity.
  - cbn [SerializeJSONProperty reparsed].
    destruct (number_overflows lit); [reflexivity|].
    destruct (number_literal_head lit Hwf) as (c & t & -> & Hc).
    destruct (number_start c Hc) as (H1 & H2 & H3 & H4 & H5 & H6 & H7 & _).
    cbn [parse_value app skip_ws].
    rewrite H1, H2, H3, H4, H5, H6, H7.
    change (c :: t ++ rest) with ((c :: t) ++ rest).
    rewrite (number_literal_scan _ _ Hwf Hrest). reflexivity.
  - cbn [SerializeJSONProperty]. unfold QuoteJSONString.
    cbn [app]. rewrite <- app_assoc. cbn [app parse_value skip_ws].
    change (is_json_ws 34) with false. cbv iota.
    change (34 =? 123) with false. change (34 =? 91) with false.
    change (34 =? 34) with true. cbv iota.
    rewrite parse_quote_units. reflexivity.
  - destruct items as [|x items]; [reflexivity|].
    apply wf_array in Hwf.
    assert (Hall : Forall reads_back (x :: items)).
    { rewrite List.Forall_forall in IH, Hwf |- *. intros y Hy. auto. }
    rewrite serialize_array. rewrite size_array in Hn.
    assert (Ho := blank_opening gap indent Hgap Hind).
    assert (Hc := blank_closing gap indent Hind).
    cbn [app reparsed]. rewrite <- !app_assoc. apply open_array.
    + rewrite (skip_ws_blank _ _ Ho).
      apply List.Forall_cons_iff in Hwf as [Hwx _].
      destruct (serialize_head gap (indent ++ gap) x Hwx) as (c & t & Ex & Hc1 & Hc2).
      destruct (join_head (44 :: opening gap indent)
                  (SerializeJSONProperty gap (indent ++ gap) x)
                  (map (SerializeJSONProperty gap (indent ++ gap)) items)) as [tl Etl].
      cbn [map]. rewrite Etl, Ex. cbn [app]. rewrite (skip_ws_head _ _ Hc1).
      eexists _, _. split; [reflexivity | exact Hc2].
    + apply (parse_elements_items gap (indent ++ gap) _ _ Hgap
               (blank_app _ _ Hind Hgap) Ho Hc (x :: items));
        [discriminate | exact Hall | exact Ho | lia].
  - destruct props as [|kv props]; [reflexivity|].
    apply wf_object in Hwf as [Hcan Hwf].
    assert (Hall : Forall (fun kv => reads_back (snd kv)) (kv :: props)).
    { rewrite List.Forall_forall in IH, Hwf |- *. intros y Hy. auto. }
    rewrite serialize_object. rewrite size_object in Hn.
    assert (Ho := blank_opening gap indent Hgap Hind).
    assert (Hc := blank_closing gap indent Hind).
    cbn [app reparsed]. rewrite <- !app_assoc.
    rewrite <- (obj_of_pairs_canonical
                  (map (fun kv => (fst kv, reparsed (snd kv))) (kv :: props))
                  (canonical_reparsed _ Hcan)).
    apply open_object.
    + rewrite (skip_ws_blank _ _ Ho).
      destruct (join_head (44 :: opening gap indent)
                  (member_text gap (indent ++ gap) kv)
                  (map (member_text gap (indent ++ gap)) props)) as [tl Etl].
      cbn [map]. rewrite Etl. destruct kv as [k v].
      rewrite <- !app_assoc, member_text_shape.
      rewrite (skip_ws_head 34 _ eq_refl).
      eexists _, _. split; reflexivity.
    + apply (parse_members_props gap (indent ++ gap) _ _ Hgap
               (blank_app _ _ Hind Hgap) Ho Hc (kv :: props));
        [discriminate | exact Hall | exact Ho | lia].
Qed.

Lemma length_join_items gap indent sep items :
  sep <> [] -> items <> [] ->
  Forall (fun x => size x <= length (SerializeJSONProperty gap indent x))%nat items ->
  (size_items items <= S (length (join sep (map (SerializeJSONProperty gap indent) items))))%nat.
Proof.
  intros Hsep. induction items as [|x items IH]; [congruence|]. intros _ Hall.
  apply List.Forall_cons_iff in Hall as [Hx Hall]. destruct items as [|y items].
  - simpl in *. lia.
  - change (join sep (map (SerializeJSONProperty gap indent) (x :: y :: items)))
      with (SerializeJSONProperty gap indent x ++ sep
            ++ join sep (map (SerializeJSONProperty gap indent) (y :: items))).
    rewrite !length_app. specialize (IH ltac:(discriminate) Hall).
    destruct sep; [congruence|]. simpl in *. lia.
Qed.

Lemma length_join_props gap indent sep props :
  sep <> [] -> props <> [] ->
  Forall (fun kv => size (snd kv) <= length (SerializeJSONProperty gap indent (snd kv)))%nat
         props ->
  (size_props props <= S (length (join sep (map (member_text gap indent) props))))%nat.
Proof.
  intros Hsep. induction props as [|x props IH]; [congruence|]. intros _ Hall.
  apply List.Forall_cons_iff in Hall as [Hx Hall].
  assert (Hm : (size (snd x) <= length (member_text gap indent x))%nat).
  { unfold member_text. rewrite !length_app. lia. }
  destruct props as [|y props].
  - simpl in *. lia.
  - change (join sep (map (member_text gap indent) (x :: y :: props)))
      with (member_text gap indent x ++ sep
            ++ join sep (map (member_text gap indent) (y :: props))).
    rewrite !length_app. specialize (IH ltac:(discriminate) Hall).
    destruct sep; [congruence|]. simpl in *. lia.
Qed.

(** The text of a value is at least as long as the calls it takes to read. *)
Lemma size_le_length v :
  wf v -> forall gap indent,
  (size v <= length (SerializeJSONProperty gap indent v))%nat.
Proof.
  induction v as [|b|lit|s|items IH|props IH] using json_nested_ind;
    intros Hwf gap indent.
  - simpl; lia.
  - destruct b; simpl; lia.
  - cbn [SerializeJSONProperty]. destruct (number_overflows lit); [simpl; lia|].
    destruct (number_literal_head lit Hwf) as (c & t & -> & _). simpl; lia.
  - simpl. lia.
  - destruct items as [|x items]; [simpl; lia|].
    apply wf_array in Hwf. rewrite serialize_array, size_array.
    assert (Hall : Forall (fun x => size x <=
                     length (SerializeJSONProperty gap (indent ++ gap) x))%nat
                     (x :: items)).
    { rewrite List.Forall_forall in IH, Hwf |- *. intros y Hy. auto. }
    pose proof (length_join_items gap (indent ++ gap) (44 :: opening gap indent)
                  (x :: items) ltac:(discriminate) ltac:(discriminate) Hall) as H.
    cbn [length]. rewrite !length_app. cbn [length]. lia.
  - destruct props as [|kv props]; [simpl; lia|].
    apply wf_object in Hwf as [_ Hwf]. rewrite serialize_object, size_object.
    assert (Hall : Forall (fun kv => size (snd kv) <=
                     length (SerializeJSONProperty gap (indent ++ gap) (snd kv)))%nat
                     (kv :: props)).
    { rewrite List.Forall_forall in IH, Hwf |- *. intros y Hy. auto. }
    pose proof (length_join_props gap (indent ++ gap) (44 :: opening gap indent)
                  (kv :: props) ltac:(discriminate) ltac:(discriminate) Hall) as H.
    cbn [length]. rewrite !length_app. cbn [length]. lia.
Qed.

Lemma blank_spaces k : blank (repeat 32 k).
Proof. unfold blank. induction k; simpl; auto. Qed.

(** [JSON.parse(JSON.stringify(v, null, space))] is [v], with null in the
    place of infinities. *)
Lemma JSON_parse_stringify space v :
  wf v -> JSON_parse (JSON_stringify space v) = Some (reparsed v).
Proof.
  intros Hwf. unfold JSON_parse, JSON_stringify.
  set (gap := repeat 32 (Nat.min space 10)).
  pose proof (serialize_reads_back v Hwf gap [] [] []
                (S (length (SerializeJSONProperty gap [] v)))
                (blank_spaces _) blank_nil blank_nil I) as H.
  rewrite app_nil_r in H. cbn [app] in H.
  rewrite H; [reflexivity|]. pose proof (size_le_length v Hwf gap []). lia.
Qed.


Lemma in_range_array items : in_range (JArray items) <-> Forall in_range items.
Proof.
  simpl. induction items as [|x l IH].
  - split; [constructor | trivial].
  - rewrite List.Forall_cons_iff, IH. tauto.
Qed.

Lemma in_range_object props :
  in_range (JObject props) <-> Forall (fun kv => in_range (snd kv)) props.
Proof.
  simpl. induction props as [|x l IH].
  - split; [constructor | trivial].
  - rewrite List.Forall_cons_iff, IH. tauto.
Qed.

(** A value without infinities reads back as it is. *)
Lemma reparsed_in_range v : in_range v -> reparsed v = v.
Proof.
  induction v as [|b|lit|s|items IH|props IH] using json_nested_ind;
    intros Hr; try reflexivity.
  - cbn in Hr |- *. rewrite Hr. reflexivity.
  - apply in_range_array in Hr. cbn [reparsed]. f_equal.
    induction IH as [|x l Hx _ IHl]; [reflexivity|].
    apply List.Forall_cons_iff in Hr as [H1 H2]. cbn [map].
    rewrite (Hx H1), (IHl H2). reflexivity.
  - apply in_range_object in Hr. cbn [reparsed]. f_equal.
    induction IH as [|[k x] l Hx _ IHl]; [reflexivity|].
    apply List.Forall_cons_iff in Hr as [H1 H2]. cbn [map fst snd] in *.
    rewrite (Hx H1), (IHl H2). reflexivity.
Qed.

End JsonFacts.

(** ** Facts about the handlers *)

Module ServerFacts.

Import Json JsonWf JsonFacts Path Fs Server Spec.

(** The test of line 96 rejects exactly the submissions that are not valid. *)
Lemma name_missing_false data : name_missing data = false <-> valid_submission data.
Proof.
  unfold name_missing, valid_submission. split.
  - intros H. apply orb_false_iff in H as [_ H].
    destruct data as [|b|lit|s|items|props]; simpl in H; try discriminate H.
    destruct (obj_get (js "name") props) as [[|b|lit|name|items|props']|] eqn:E;
      try discriminate H.
    exists props, name. repeat split; [exact E|].
    intros Ht. rewrite Ht in H. discriminate H.
  - intros (props & name & -> & Hn & Ht). simpl. rewrite Hn.
    destruct (trim name); [congruence | reflexivity].
Qed.


(** What lines 102-111 load is well formed, whatever the file holds. *)
Lemma load_rsvps_wf proc fs : wf (load_rsvps proc fs).
Proof.
  unfold load_rsvps. destruct (existsSync fs (RSVP_STORAGE proc)); [|exact I].
  destruct (readFile fs (RSVP_STORAGE proc)) as [content|e]; [|exact I].
  destruct (JSON_parse content) as [v|] eqn:E; [|exact I].
  destruct (truthy v); [|exact I]. eapply JSON_parse_wf, E.
Qed.

Lemma make_record_wf now data : wf data -> wf (make_record now data).
Proof.
  intros H. unfold make_record. apply wf_object.
  destruct data as [|b|lit|s|items|props]; simpl;
    try (split; [apply canonical_obj_set, canonical_nil
                | apply obj_set_values; [exact I | constructor]]).
  apply wf_object in H as [Hc Hv]. split.
  - apply canonical_obj_set, Hc.
  - apply obj_set_values; [exact I | exact Hv].
Qed.




Lemma readFile_Ok fs path content :
  readFile fs path = Ok content <-> entries fs !! path = Some (File content).
Proof.
  unfold readFile. destruct (entries fs !! path) as [[]|]; split; congruence.
Qed.

Lemma load_rsvps_array proc fs items :
  readFile fs (RSVP_STORAGE proc) = Ok (JSON_stringify 2 (JArray items)) ->
  Forall wf items -> load_rsvps proc fs = JArray (map reparsed items).
Proof.
  intros H Hwf. unfold load_rsvps, existsSync. rewrite H.
  apply readFile_Ok in H. rewrite H.
  rewrite JSON_parse_stringify by (apply wf_array, Hwf). reflexivity.
Qed.


(** *** Persisting *)

Lemma mkdirSync_spec fs dir fs1 :
  mkdirSync fs dir = Some fs1 ->
  read_only fs1 = read_only fs /\
  entries fs1 !! dir = Some Directory /\
  forall p, p <> dir -> entries fs1 !! p = entries fs !! p.
Proof.
  unfold mkdirSync. destruct (entries fs !! dir) as [[]|] eqn:E; try discriminate.
  - intros [= <-]. auto.
  - destruct (read_only fs); [discriminate|]. intros [= <-]. simpl.
    repeat split.
    + apply lookup_insert_eq.
    + intros p Hp. apply lookup_insert_ne. congruence.
Qed.

Lemma writeFileSync_spec fs path data fs2 :
  writeFileSync fs path data = Some fs2 ->
  read_only fs2 = false /\
  entries fs2 !! path = Some (File data) /\
  forall p, p <> path -> entries fs2 !! p = entries fs !! p.
Proof.
  unfold writeFileSync. destruct (read_only fs) eqn:R; [discriminate|].
  assert (H : forall fs2,
             Some {| entries := <[path := File data]> (entries fs);
                     read_only := false |} = Some fs2 ->
             read_only fs2 = false /\
             entries fs2 !! path = Some (File data) /\
             forall p, p <> path -> entries fs2 !! p = entries fs !! p).
  { intros ? [= <-]. simpl. repeat split; [apply lookup_insert_eq |].
    intros p Hp. apply lookup_insert_ne. congruence. }
  destruct (entries fs !! path) as [[]|]; try discriminate; apply H.
Qed.

(** After a failed [persist] the store reads as before, if it reads. *)
Lemma persist_inl proc fs v fs' content :
  persist proc fs v = inl fs' ->
  readFile fs' (RSVP_STORAGE proc) = Ok content ->
  readFile fs (RSVP_STORAGE proc) = Ok content.
Proof.
  unfold persist.
  destruct (mkdirSync fs (path_dirname (RSVP_STORAGE proc))) as [fs1|] eqn:Em.
  - destruct (writeFileSync fs1 _ _); [discriminate|]. intros [= <-].
    destruct (mkdirSync_spec _ _ _ Em) as (_ & Hd & Ho).
    rewrite !readFile_Ok. intros H.
    destruct (decide (RSVP_STORAGE proc = path_dirname (RSVP_STORAGE proc))) as [Heq|Hne].
    + rewrite <- Heq in Hd. congruence.
    + rewrite <- (Ho _ Hne). exact H.
  - intros [= <-]. auto.
Qed.

Lemma persist_inr proc fs v fs' :
  persist proc fs v = inr fs' ->
  readFile fs' (RSVP_STORAGE proc) = Ok (JSON_stringify 2 v) /\
  read_only fs' = false.
Proof.
  unfold persist.
  destruct (mkdirSync fs (path_dirname (RSVP_STORAGE proc))) as [fs1|]; [|discriminate].
  destruct (writeFileSync fs1 _ _) as [fs2|] eqn:Ew; [|discriminate]. intros [= <-].
  destruct (writeFileSync_spec _ _ _ _ Ew) as (Hr & Hs & _).
  split; [apply readFile_Ok, Hs | exact Hr].
Qed.

End ServerFacts.

(** ** Facts about paths: the store file and its directory *)

Module PathFacts.

Import Json Path Fs Server.

Lemma split_slash_nonempty s : split_slash s <> [].
Proof.
  destruct s as [|c s]; simpl; [discriminate|].
  destruct (c =? 47); [discriminate|]. destruct (split_slash s); discriminate.
Qed.

Lemma split_slash_app x y :
  split_slash (x ++ 47 :: y) = split_slash x ++ split_slash y.
Proof.
  induction x as [|c x IH]; [reflexivity|]. cbn [app split_slash].
  destruct (c =? 47); [rewrite IH; reflexivity|].
  rewrite IH. pose proof (split_slash_nonempty x) as Hx.
  destruct (split_slash x); [congruence | reflexivity].
Qed.

Lemma normalize_segments_app a l1 :
  forall stack, exists stack', forall l2,
    normalize_segments a stack (l1 ++ l2) = normalize_segments a stack' l2.
Proof.
  induction l1 as [|seg l1 IH]; intros stack.
  - exists stack. reflexivity.
  - cbn [app normalize_segments].
    destruct (is_empty seg || is_dot seg); [apply IH|].
    destruct (is_dotdot seg); [|apply IH].
    destruct stack as [|top below]; [apply IH|].
    destruct (is_dotdot top); apply IH.
Qed.

Lemma join_app_two sep l a b :
  exists pre, join sep (l ++ [a; b]) = pre ++ a ++ sep ++ b.
Proof.
  induction l as [|x l [pre IH]].
  - exists []. reflexivity.
  - exists (x ++ sep ++ pre). cbn [app].
    change (join sep (x :: l ++ [a; b])) with
      (match l ++ [a; b] with [] => x | _ :: _ => x ++ sep ++ join sep (l ++ [a; b]) end).
    destruct (l ++ [a; b]) eqn:E; [destruct l; discriminate|].
    rewrite IH, <- !app_assoc. reflexivity.
Qed.

Lemma normalize_store_file x :
  x <> [] ->
  exists pre, normalize (x ++ 47 :: js "data/rsvps.json")
              = pre ++ js "data/rsvps.json".
Proof.
  intros Hx. unfold normalize.
  assert (He : is_empty (x ++ 47 :: js "data/rsvps.json") = false)
    by (destruct x; [congruence | reflexivity]).
  assert (Ht : ends_with_slash (x ++ 47 :: js "data/rsvps.json") = false).
  { unfold ends_with_slash. rewrite rev_app_distr. reflexivity. }
  rewrite He, Ht. unfold normalizeString. rewrite split_slash_app.
  destruct (normalize_segments_app
              (negb (isAbsolute (x ++ 47 :: js "data/rsvps.json")))
              (split_slash x) []) as [stack Hs].
  rewrite Hs.
  assert (Hn : forall a, normalize_segments a stack (split_slash (js "data/rsvps.json"))
                         = rev stack ++ [js "data"; js "rsvps.json"]).
  { intros a. change (normalize_segments a stack (split_slash (js "data/rsvps.json")))
      with (rev (js "rsvps.json" :: js "data" :: stack)).
    cbn [rev]. rewrite <- app_assoc. reflexivity. }
  rewrite Hn.
  destruct (join_app_two [47] (rev stack) (js "data") (js "rsvps.json")) as [pre Hj].
  rewrite Hj.
  assert (He' : is_empty (pre ++ js "data" ++ [47] ++ js "rsvps.json") = false)
    by (destruct pre; reflexivity).
  rewrite He'.
  destruct (isAbsolute _); [exists (47 :: pre) | exists pre]; reflexivity.
Qed.

(** The store path ends in /rsvps.json, after at least two units. *)
Lemma store_path_shape proc :
  exists c q, RSVP_STORAGE proc = (c :: q) ++ js "/rsvps.json" /\ q <> [].
Proof.
  assert (H : exists pre, RSVP_STORAGE proc = pre ++ js "data/rsvps.json").
  { unfold RSVP_STORAGE. destruct (dirname proc) as [|d0 d].
    - exists []. reflexivity.
    - change (path_join [d0 :: d; js "data"; js "rsvps.json"])
        with (normalize ((d0 :: d) ++ 47 :: js "data/rsvps.json")).
      apply normalize_store_file. discriminate. }
  destruct H as [pre ->]. destruct pre as [|p0 pre].
  - exists 100, (js "ata"). split; [reflexivity | discriminate].
  - exists p0, (pre ++ js "data"). split.
    + cbn [app]. rewrite <- app_assoc. reflexivity.
    + destruct pre; discriminate.
Qed.

Lemma drop_to_slash_app_noslash x y :
  forallb (fun c => negb (c =? 47)) x = true ->
  drop_to_slash (x ++ 47 :: y) = 47 :: y.
Proof.
  induction x as [|c x IH]; cbn [app drop_to_slash forallb]; [reflexivity|].
  intros H. apply andb_true_iff in H as [H1 H2].
  destruct (c =? 47); [discriminate | apply IH, H2].
Qed.

Lemma path_dirname_file c q :
  q <> [] -> path_dirname ((c :: q) ++ js "/rsvps.json") = c :: q.
Proof.
  intros Hq. unfold path_dirname. cbn [app].
  change (q ++ js "/rsvps.json") with (q ++ 47 :: js "rsvps.json").
  rewrite rev_app_distr.
  change (rev (47 :: js "rsvps.json")) with (js "nosj.spvsr" ++ [47]).
  rewrite <- app_assoc. cbn [app].
  change (js "nosj.spvsr" ++ 47 :: rev q)
    with (110 :: (js "osj.spvsr" ++ 47 :: rev q)).
  cbn [drop_slashes]. change (110 =? 47) with false. cbv iota.
  change (110 :: js "osj.spvsr" ++ 47 :: rev q)
    with (js "nosj.spvsr" ++ 47 :: rev q).
  rewrite drop_to_slash_app_noslash by reflexivity.
  rewrite rev_involutive.
  assert (He : is_empty (rev q) = false).
  { destruct q as [|a q]; [congruence|]. cbn [rev].
    destruct (rev q); reflexivity. }
  rewrite He, andb_false_r. reflexivity.
Qed.

(** The directory of the store is not the store file itself. *)
Lemma store_dir_not_store proc :
  path_dirname (RSVP_STORAGE proc) <> RSVP_STORAGE proc.
Proof.
  destruct (store_path_shape proc) as (c & q & E & Hq).
  rewrite E, (path_dirname_file c q Hq). intros H.
  apply (f_equal (@length N)) in H. rewrite length_app in H. simpl in H. lia.
Qed.

End PathFacts.

(** ** Facts about dates: the shape of a timestamp *)

Module DateFacts.

Import Json Spec.








Example epoch_timestamp : Date.toISOString 0 = js "1970-01-01T00:00:00.000Z".
Proof. vm_compute. reflexivity. Qed.

Example leap_day_timestamp :
  Date.toISOString 1709251199999 = js "2024-02-29T23:59:59.999Z".
Proof. vm_compute. reflexivity. Qed.

Example before_epoch_timestamp :
  Date.toISOString (-1) = js "1969-12-31T23:59:59.999Z".
Proof. vm_compute. reflexivity. Qed.

End DateFacts.

(** ** Properties of the router and of the record store *)

Module Properties.

Import Json JsonWf JsonFacts Path Fs Server Spec Samples ServerFacts.

(** The texts of the three JSON replies of the submit handler. *)
Example thank_you_text :
  status thank_you = 200 /\
  body thank_you = object_text [(js "message", js "Thank you for your RSVP!")].
Proof. split; reflexivity. Qed.

Example invalid_submission_text :
  status invalid_submission = 400 /\
  body invalid_submission
  = object_text [(js "error", js "Invalid submission: name is required")].
Proof. split; reflexivity. Qed.

Example internal_error_text :
  status internal_error = 500 /\
  body internal_error = object_text [(js "error", js "Internal server error")].
Proof. split; reflexivity. Qed.



(** The empty object is rejected as well. *)
Example empty_object_rejected :
  submit_end app 0 (js "{}") empty_disk = (empty_disk, invalid_submission).
Proof. vm_compute. reflexivity. Qed.






(** The listener hands a request whose path name decodes to the router. *)
Lemma listener_decoded proc rt req fs url_pathname :
  Uri.decodeURIComponent url_pathname = Some (pathname req) ->
  listener proc rt (method req) url_pathname (chunks req) fs
  = Some (serve proc rt req fs).
Proof. intros Hd. unfold listener. rewrite Hd. destruct req; reflexivity. Qed.







(** C4 (the code misses the claim). The guard of line 192 compares strings:
    a path that leaves the asset root for a sibling directory whose name
    starts with "public" passes it.  Here GET /..%2Fpublic_old/secret.txt,
    whose decoded path name is /../public_old/secret.txt, resolves to a file
    that is not inside /app/public, and the file is served. *)
Theorem C4_sibling_directory_is_served :
  PUBLIC_DIR app = js "/app/public" /\
  resolved_path app (js "/../public_old/secret.txt")
  = js "/app/public_old/secret.txt" /\
  inside_root (PUBLIC_DIR app)
    (resolved_path app (js "/../public_old/secret.txt")) = false /\
  static_handler app (js "/../public_old/secret.txt")
    (disk_with (js "/app/public_old/secret.txt") (js "top secret"))
  = {| status := 200;
       headers := [(js "Content-Type", js "application/octet-stream")];
       body := js "top secret" |} /\
  listener app at_epoch (js "GET") (js "/..%2Fpublic_old/secret.txt") []
    (disk_with (js "/app/public_old/secret.txt") (js "top secret"))
  = Some (disk_with (js "/app/public_old/secret.txt") (js "top secret"),
          Some {| status := 200;
                  headers := [(js "Content-Type", js "application/octet-stream")];
                  body := js "top secret" |}).
Proof. repeat split; vm_compute; reflexivity. Qed.


Example parent_directory_is_forbidden :
  static_handler app (js "/../data/rsvps.json")
    (disk_with (RSVP_STORAGE app) (js "[]")) = forbidden.
Proof. vm_compute. reflexivity. Qed.

(** C5 (the code misses the claim). A store file that holds a JSON value
    other than an array, here the empty object, survives line 106 and makes
    [rsvps.push] throw: the valid submission is answered 500. *)
Theorem C5_object_in_store_fails_submission :
  JSON_parse ada_text = Some (JObject [(js "name", JString (js "Ada"))]) /\
  name_missing (JObject [(js "name", JString (js "Ada"))]) = false /\
  readFile (disk_with (RSVP_STORAGE app) (js "{}")) (RSVP_STORAGE app)
  = Ok (js "{}") /\
  submit_end app 0 ada_text (disk_with (RSVP_STORAGE app) (js "{}"))
  = (disk_with (RSVP_STORAGE app) (js "{}"), internal_error) /\
  status internal_error = 500.
Proof. repeat split; vm_compute; reflexivity. Qed.




Example empty_store_file_counts_as_empty :
  snd (submit_end app 0 ada_text (disk_with (RSVP_STORAGE app) [])) = thank_you.
Proof. vm_compute. reflexivity. Qed.


(** A number that is an infinity is in the record, and null in the store. *)
Example infinity_is_stored_as_null :
  snd (submit_end app 0 overflow_text empty_disk) = thank_you /\
  make_record 0 (submitted (post overflow_text))
  = JObject [(js "name", JString (js "Ada")); (js "guests", JNumber (js "1e999"));
             (js "createdAt", JString (js "1970-01-01T00:00:00.000Z"))] /\
  load_rsvps app (fst (submit_end app 0 overflow_text empty_disk))
  = JArray [JObject [(js "name", JString (js "Ada")); (js "guests", JNull);
                     (js "createdAt", JString (js "1970-01-01T00:00:00.000Z"))]].
Proof. repeat split; vm_compute; reflexivity. Qed.





(** What the 'end' listener leaves in the store file: what was there, or the
    text of an array. *)
Lemma submit_end_store proc now text fs content :
  readFile (fst (submit_end proc now text fs)) (RSVP_STORAGE proc) = Ok content ->
  readFile fs (RSVP_STORAGE proc) = Ok content \/
  exists items, content = JSON_stringify 2 (JArray items) /\
                JSON_parse content = Some (JArray (map reparsed items)).
Proof.
  unfold submit_end. destruct (JSON_parse text) as [data|] eqn:Hp; [|auto].
  destruct (name_missing data); [auto|].
  pose proof (load_rsvps_wf proc fs) as Hwf.
  destruct (load_rsvps proc fs) as [|b|lit|s|items|props]; cbn [push]; auto.
  destruct (persist proc fs _) as [fs'|fs'] eqn:Hw; cbn [fst].
  - intros H. left. eapply persist_inl; eassumption.
  - intros H. right. destruct (persist_inr _ _ _ _ Hw) as [Hr _].
    rewrite Hr in H. injection H as <-.
    exists (items ++ [make_record now data]). split; [reflexivity|].
    apply (JSON_parse_stringify 2 (JArray (items ++ [make_record now data]))).
    apply wf_array, List.Forall_app. split.
    + apply wf_array, Hwf.
    + constructor; [|constructor]. apply make_record_wf. eapply JSON_parse_wf, Hp.
Qed.

Lemma serve_store proc rt req fs content :
  readFile (fst (serve proc rt req fs)) (RSVP_STORAGE proc) = Ok content ->
  readFile fs (RSVP_STORAGE proc) = Ok content \/
  exists items, content = JSON_stringify 2 (JArray items) /\
                JSON_parse content = Some (JArray (map reparsed items)).
Proof.
  unfold serve.
  destruct (_ && _); [|destruct (_ && _); [auto|];
                       destruct (_ && _); [auto|]; destruct (JsString.eqb _ _); auto].
  unfold submit_handler. destruct (destroyed _).
  - destruct (end_after_destroy rt); cbn [fst]; [apply submit_end_store | auto].
  - destruct (submit_end proc (clock rt) _ fs) as [fs' r] eqn:E. cbn [fst].
    change fs' with (fst (fs', r)). rewrite <- E. apply submit_end_store.
Qed.

(** C6. Whatever request is served, the store file afterwards holds what it
    held before or the text that [JSON.stringify] gives for an array, and
    that text parses as an array: the server writes nothing else to the
    file.  So a store file that holds a valid JSON array, if it is there at
    all, still does after any request. *)
Theorem C6_store_file_holds_an_array proc rt req fs :
  (forall content,
     readFile (fst (serve proc rt req fs)) (RSVP_STORAGE proc) = Ok content ->
     readFile fs (RSVP_STORAGE proc) = Ok content \/
     exists items, content = JSON_stringify 2 (JArray items) /\
                   JSON_parse content = Some (JArray (map reparsed items))) /\
  (store_valid proc fs -> store_valid proc (fst (serve proc rt req fs))).
Proof.
  split; [intros content; apply serve_store|].
  intros Hv content Hr. destruct (serve_store _ _ _ _ _ Hr) as [H|(items & _ & H)].
  - apply Hv, H.
  - exists (map reparsed items). exact H.
Qed.

Lemma C6_witness :
  store_valid app (fst (serve app at_epoch (post ada_text) empty_disk)).
Proof.
  refine (proj2 (C6_store_file_holds_an_array app at_epoch (post ada_text)
                   empty_disk) _).
  intros content H. vm_compute in H. discriminate H.
Defined.

(** *** The size cap *)

Lemma receive_exceeds cs :
  forall st,
    (destroyed st = false -> N.of_nat (length (text st)) <= 1000000) ->
    1000000 < N.of_nat (length (text st ++ body_text cs)) ->
    destroyed (receive cs st) = true.
Proof.
  induction cs as [|c cs IH]; intros st Hinv Hlen; cbn [receive].
  - unfold body_text in Hlen. cbn [map concat] in Hlen. rewrite app_nil_r in Hlen.
    destruct (destroyed st); [reflexivity|]. specialize (Hinv eq_refl). lia.
  - destruct (destroyed st) eqn:Ed; [exact Ed|]. apply IH.
    + unfold on_data. cbn [destroyed text]. rewrite Ed. cbn [orb].
      intros H. apply N.ltb_ge in H. exact H.
    + unfold on_data. cbn [text]. rewrite <- app_assoc. exact Hlen.
Qed.

Lemma receive_within cs :
  forall st,
    destroyed st = false ->
    N.of_nat (length (text st ++ body_text cs)) <= 1000000 ->
    receive cs st = {| text := text st ++ body_text cs; destroyed := false |}.
Proof.
  induction cs as [|c cs IH]; intros st Hd Hlen; cbn [receive].
  - unfold body_text. cbn [map concat]. rewrite app_nil_r.
    destruct st as [t d]. cbn in Hd |- *. rewrite Hd. reflexivity.
  - rewrite Hd. unfold body_text in *. cbn [map concat] in *.
    rewrite app_assoc in Hlen |- *.
    assert (Hl : N.of_nat (length (text st ++ Utf8.utf8_decode c)) <= 1000000).
    { rewrite length_app in Hlen. lia. }
    rewrite IH.
    + reflexivity.
    + unfold on_data. cbn [destroyed]. rewrite Hd. cbn [orb].
      apply N.ltb_ge. exact Hl.
    + exact Hlen.
Qed.

(** A submission whose text stays within the cap is handed whole to the 'end'
    listener, and the response of the listener is sent. *)
Lemma serve_within_cap proc rt req fs :
  method req = js "POST" ->
  pathname req = js "/rsvp" ->
  N.of_nat (length (body_text (chunks req))) <= 1000000 ->
  serve proc rt req fs
  = (fst (submit_end proc (clock rt) (body_text (chunks req)) fs),
     Some (snd (submit_end proc (clock rt) (body_text (chunks req)) fs))).
Proof.
  intros Hm Hp Hlen. unfold serve. rewrite Hm, Hp.
  change (JsString.eqb (js "POST") (js "POST") && JsString.eqb (js "/rsvp") (js "/rsvp"))
    with true. cbv iota.
  unfold submit_handler.
  rewrite (receive_within (chunks req) fresh eq_refl) by exact Hlen.
  change (text fresh ++ body_text (chunks req)) with (body_text (chunks req)).
  cbn [destroyed text]. destruct (submit_end _ _ _ _). reflexivity.
Qed.

(** C8 (as amended). The cap of line 88 is on the length of the text that
    the chunks decode to, in UTF-16 code units: a submission whose text
    grows beyond 1,000,000 code units has its socket destroyed and gets no
    response at all, whether or not the 'end' listener still runs. *)
Theorem C8_oversized_text_gets_no_response proc rt req fs :
  method req = js "POST" ->
  pathname req = js "/rsvp" ->
  1000000 < N.of_nat (length (body_text (chunks req))) ->
  snd (serve proc rt req fs) = None.
Proof.
  intros Hm Hp Hlen. unfold serve. rewrite Hm, Hp. cbn [JsString.eqb andb].
  change (JsString.eqb (js "POST") (js "POST") && JsString.eqb (js "/rsvp") (js "/rsvp"))
    with true. cbv iota.
  unfold submit_handler.
  rewrite (receive_exceeds (chunks req) fresh); [|intros _; cbn; lia | exact Hlen].
  destruct (end_after_destroy rt); reflexivity.
Qed.

Lemma decode_euros n : Utf8.utf8_decode (euros n) = repeat 8364 n.
Proof.
  unfold euros, Utf8.utf8_decode.
  induction n as [|n IH]; [reflexivity|].
  cbn [repeat concat]. rewrite <- IH. reflexivity.
Qed.

Lemma length_euros n : length (euros n) = (3 * n)%nat.
Proof.
  unfold euros. induction n as [|n IH]; [reflexivity|].
  cbn [repeat concat]. rewrite length_app, IH. simpl. lia.
Qed.

Lemma JSON_parse_euro s : JSON_parse (8364 :: s) = None.
Proof. reflexivity. Qed.

Lemma body_text_euros k n :
  body_text (repeat (euros n) k) = repeat 8364 (k * n).
Proof.
  unfold body_text. induction k as [|k IH]; [reflexivity|].
  cbn [repeat map concat Nat.mul]. rewrite IH, decode_euros, repeat_app. reflexivity.
Qed.

Lemma length_concat_euros k n :
  length (concat (repeat (euros n) k)) = (k * (3 * n))%nat.
Proof.
  induction k as [|k IH]; [reflexivity|].
  cbn [repeat concat Nat.mul]. rewrite length_app, IH, length_euros. reflexivity.
Qed.

Lemma serve_euro_request :
  serve app at_epoch euro_request empty_disk = (empty_disk, Some internal_error).
Proof.
  assert (Ht : body_text (chunks euro_request)
               = 8364 :: repeat 8364 (N.to_nat 15872 + 21 * N.to_nat 15873)).
  { unfold euro_request. cbn [chunks]. rewrite body_text_euros.
    replace (N.to_nat 15873) with (S (N.to_nat 15872))
      by (rewrite <- N2Nat.inj_succ; reflexivity).
    reflexivity. }
  rewrite (serve_within_cap app at_epoch euro_request empty_disk eq_refl eq_refl).
  - rewrite Ht. unfold submit_end. rewrite JSON_parse_euro. reflexivity.
  - unfold euro_request. cbn [chunks].
    rewrite body_text_euros, repeat_length, Nat2N.inj_mul, N2Nat.id. discriminate.
Qed.

Lemma C8_witness :
  snd (serve app at_epoch
         {| method := js "POST"; pathname := js "/rsvp";
            chunks := [ascii_bytes (repeat 32 (N.to_nat 1000001))] |} empty_disk)
  = None.
Proof.
  refine (C8_oversized_text_gets_no_response app at_epoch _ empty_disk _ _ _).
  - reflexivity.
  - reflexivity.
  - cbn [chunks]. unfold body_text. cbn [map concat]. rewrite app_nil_r.
    assert (H : forall n, Utf8.utf8_decode (ascii_bytes (repeat 32 n)) = repeat 32 n).
    { induction n as [|n IH]; [reflexivity|].
      cbn [repeat]. rewrite <- IH at 2. reflexivity. }
    rewrite H, repeat_length, N2Nat.id. reflexivity.
Defined.

(** The claim C8 as stated fails: the body of [euro_request] has more than
    1,000,000 bytes, and the request is answered (with status 500, as its
    text is not JSON). *)
Lemma C8_counterexample :
  N.of_nat (length (concat (chunks euro_request))) = 1047618 /\
  snd (serve app at_epoch euro_request empty_disk) = Some internal_error /\
  status internal_error = 500.
Proof.
  split; [|split; [rewrite serve_euro_request; reflexivity | reflexivity]].
  unfold euro_request. cbn [chunks]. rewrite length_concat_euros.
  rewrite !Nat2N.inj_mul, N2Nat.id. reflexivity.
Qed.



(** *** Submissions one after the other *)









End Properties.
Module StoreProperties.

Import Json JsonWf JsonFacts Path Fs Server Spec Samples ServerFacts Http MoreSamples.

Lemma persist_frame proc fs v fs' :
  persist proc fs v = inl fs' \/ persist proc fs v = inr fs' ->
  read_only fs' = read_only fs /\
  forall p, p <> RSVP_STORAGE proc -> p <> path_dirname (RSVP_STORAGE proc) ->
    entries fs' !! p = entries fs !! p.
Proof.
  unfold persist.
  destruct (mkdirSync fs (path_dirname (RSVP_STORAGE proc))) as [fs1|] eqn:Em.
  - destruct (mkdirSync_spec _ _ _ Em) as (Hr1 & _ & Ho1).
    destruct (writeFileSync fs1 _ _) as [fs2|] eqn:Ew.
    + intros [H|H]; [discriminate H|]. injection H as <-.
      destruct (writeFileSync_spec _ _ _ _ Ew) as (Hr2 & _ & Ho2). split.
      * unfold writeFileSync in Ew. destruct (read_only fs1) eqn:R; [discriminate|].
        congruence.
      * intros p H1 H2. rewrite (Ho2 _ H1). apply Ho1, H2.
    + intros [H|H]; [|discriminate H]. injection H as <-. split; [exact Hr1|].
      intros p _ H2. apply Ho1, H2.
  - intros [H|H]; [|discriminate H]. injection H as <-. auto.
Qed.

Lemma persist_inl_store proc fs v fs' :
  persist proc fs v = inl fs' ->
  entries fs' !! RSVP_STORAGE proc = entries fs !! RSVP_STORAGE proc.
Proof.
  unfold persist.
  destruct (mkdirSync fs (path_dirname (RSVP_STORAGE proc))) as [fs1|] eqn:Em.
  - destruct (writeFileSync fs1 _ _); [discriminate|]. intros [= <-].
    destruct (mkdirSync_spec _ _ _ Em) as (_ & _ & Ho). apply Ho.
    intros H. symmetry in H. revert H. apply PathFacts.store_dir_not_store.
  - intros [= <-]. reflexivity.
Qed.

(** The file system after a submission, whether or not its reply is sent. *)
Lemma serve_cases proc rt req fs :
  fst (serve proc rt req fs) = fs \/
  exists text, fst (serve proc rt req fs) = fst (submit_end proc (clock rt) text fs).
Proof.
  unfold serve.
  destruct (_ && _); [|destruct (_ && _); [auto|];
                       destruct (_ && _); [auto|]; destruct (JsString.eqb _ _); auto].
  unfold submit_handler. destruct (destroyed _).
  - destruct (end_after_destroy rt); cbn [fst]; eauto.
  - right. eexists. destruct (submit_end proc (clock rt) _ fs) as [fs' r] eqn:E.
    cbn [fst]. rewrite E. reflexivity.
Qed.

Lemma submit_end_frame proc now text fs :
  read_only (fst (submit_end proc now text fs)) = read_only fs /\
  forall p, p <> RSVP_STORAGE proc -> p <> path_dirname (RSVP_STORAGE proc) ->
    entries (fst (submit_end proc now text fs)) !! p = entries fs !! p.
Proof.
  unfold submit_end. destruct (JSON_parse text) as [data|]; [|auto].
  destruct (name_missing data); [auto|].
  destruct (push _ _) as [rsvps|]; [|auto].
  destruct (persist proc fs rsvps) as [fs'|fs'] eqn:E; cbn [fst];
    eapply persist_frame; eauto.
Qed.

(** X4. Only a submission changes the file system, and it changes nothing
    but the store file and the directory of the store file: every other
    path names what it named before, and a file system that refuses writes
    still does. *)
Theorem requests_touch_only_the_store proc rt req fs p :
  p <> RSVP_STORAGE proc ->
  p <> path_dirname (RSVP_STORAGE proc) ->
  entries (fst (serve proc rt req fs)) !! p = entries fs !! p /\
  read_only (fst (serve proc rt req fs)) = read_only fs /\
  (~ (method req = js "POST" /\ pathname req = js "/rsvp") ->
   fst (serve proc rt req fs) = fs).
Proof.
  intros H1 H2. split; [|split].
  - destruct (serve_cases proc rt req fs) as [->|[text ->]]; [reflexivity|].
    apply submit_end_frame; assumption.
  - destruct (serve_cases proc rt req fs) as [->|[text ->]]; [reflexivity|].
    apply submit_end_frame.
  - intros Hn. unfold serve.
    destruct (JsString.eqb (method req) (js "POST")) eqn:Em;
    destruct (JsString.eqb (pathname req) (js "/rsvp")) eqn:Ep; cbn [andb];
    try (repeat match goal with
                | |- context [if ?c then _ else _] => destruct c
                end; reflexivity).
    apply JsStringFacts.eqb_eq in Em, Ep. exfalso. auto.
Qed.

Lemma requests_touch_only_the_store_witness :
  entries (fst (serve app at_epoch (post ada_text)
                  (disk_with (js "/app/public/index.html") (js "hello"))))
    !! js "/app/public/index.html"
  = entries (disk_with (js "/app/public/index.html") (js "hello"))
    !! js "/app/public/index.html".
Proof.
  refine (proj1 (requests_touch_only_the_store app at_epoch (post ada_text)
                   (disk_with (js "/app/public/index.html") (js "hello"))
                   (js "/app/public/index.html") _ _));
    intros H; vm_compute in H; discriminate H.
Defined.

Lemma submit_end_replies proc now text fs :
  snd (submit_end proc now text fs) = thank_you \/
  snd (submit_end proc now text fs) = invalid_submission \/
  snd (submit_end proc now text fs) = internal_error.
Proof.
  unfold submit_end.
  destruct (JSON_parse text) as [data|]; [|right; right; reflexivity].
  destruct (name_missing data); [right; left; reflexivity|].
  destruct (push _ _) as [rsvps|]; [|right; right; reflexivity].
  destruct (persist proc fs rsvps); [right; right | left]; reflexivity.
Qed.

(** The store file after the 'end' listener is the one before it, unless the
    reply is the 200. *)
Lemma submit_end_store_entry proc now text fs :
  snd (submit_end proc now text fs) <> thank_you ->
  entries (fst (submit_end proc now text fs)) !! RSVP_STORAGE proc
  = entries fs !! RSVP_STORAGE proc.
Proof.
  unfold submit_end. destruct (JSON_parse text) as [data|]; [|auto].
  destruct (name_missing data); [auto|].
  destruct (push _ _) as [rsvps|]; [|auto].
  destruct (persist proc fs rsvps) as [fs'|fs'] eqn:E; cbn [fst snd].
  - intros _. eapply persist_inl_store, E.
  - congruence.
Qed.

(** A reply to a submission comes from the 'end' listener of a request whose
    socket was not destroyed. *)
Lemma submit_handler_reply proc rt req fs r :
  snd (submit_handler proc rt req fs) = Some r ->
  exists text,
    submit_handler proc rt req fs
    = (fst (submit_end proc (clock rt) text fs), Some r) /\
    r = snd (submit_end proc (clock rt) text fs) /\
    N.of_nat (length text) <= 1000000.
Proof.
  unfold submit_handler.
  destruct (destroyed (receive (chunks req) fresh)) eqn:Ed.
  - destruct (end_after_destroy rt); discriminate.
  - destruct (submit_end proc (clock rt) _ fs) as [fs' r'] eqn:E. cbn [snd].
    intros [= <-]. exists (text (receive (chunks req) fresh)).
    rewrite E. repeat split.
    destruct (N.le_gt_cases (N.of_nat (length (body_text (chunks req)))) 1000000)
      as [Hle|Hgt].
    + rewrite (Properties.receive_within (chunks req) fresh eq_refl); exact Hle.
    + rewrite (Properties.receive_exceeds (chunks req) fresh) in Ed;
        [discriminate | intros _; cbn; lia | exact Hgt].
Qed.

(** The handlers other than the submit handler leave the file system as it
    was. *)
Lemma serve_reply proc rt req fs :
  serve proc rt req fs = submit_handler proc rt req fs \/
  fst (serve proc rt req fs) = fs.
Proof.
  unfold serve.
  repeat match goal with
         | |- context [if ?c then _ else _] => destruct c
         end; auto.
Qed.

(** X5. A submission that is answered with anything but the 200 leaves the
    store file as it was, and so does any other request. *)
Theorem store_changes_only_on_200 proc rt req fs r :
  snd (serve proc rt req fs) = Some r ->
  status r <> 200 ->
  entries (fst (serve proc rt req fs)) !! RSVP_STORAGE proc
  = entries fs !! RSVP_STORAGE proc /\
  load_rsvps proc (fst (serve proc rt req fs)) = load_rsvps proc fs.
Proof.
  intros Hr Hs.
  assert (He : entries (fst (serve proc rt req fs)) !! RSVP_STORAGE proc
               = entries fs !! RSVP_STORAGE proc).
  { destruct (serve_reply proc rt req fs) as [E|E]; [|rewrite E; reflexivity].
    rewrite E in Hr |- *.
    destruct (submit_handler_reply _ _ _ _ _ Hr) as (text & -> & -> & _).
    cbn [fst]. apply submit_end_store_entry. intros H. rewrite H in Hs.
    apply Hs. reflexivity. }
  split; [exact He|]. unfold load_rsvps, existsSync, readFile. rewrite He.
  reflexivity.
Qed.

Lemma store_changes_only_on_200_witness :
  load_rsvps app
    (fst (serve app at_epoch (post ada_text)
            {| entries := {[ RSVP_STORAGE app := File (js "[]") ]};
               read_only := true |}))
  = load_rsvps app
      {| entries := {[ RSVP_STORAGE app := File (js "[]") ]}; read_only := true |}.
Proof.
  refine (proj2 (store_changes_only_on_200 app at_epoch (post ada_text)
                   {| entries := {[ RSVP_STORAGE app := File (js "[]") ]};
                      read_only := true |} internal_error _ _)).
  - vm_compute. reflexivity.
  - vm_compute. discriminate.
Defined.

(** What the 'end' listener leaves in the store: what was there, or, with
    the 200, the records that were there and one more. *)
Lemma submit_end_keeps_records proc now text fs :
  (load_rsvps proc (fst (submit_end proc now text fs)) = load_rsvps proc fs /\
   status (snd (submit_end proc now text fs)) <> 200) \/
  exists items data,
    JSON_parse text = Some data /\
    snd (submit_end proc now text fs) = thank_you /\
    load_rsvps proc fs = JArray items /\
    load_rsvps proc (fst (submit_end proc now text fs))
    = JArray (map reparsed items ++ [reparsed (make_record now data)]).
Proof.
  unfold submit_end.
  destruct (JSON_parse text) as [data|] eqn:Hp;
    [|left; split; [reflexivity | discriminate]].
  destruct (name_missing data); [left; split; [reflexivity | discriminate]|].
  pose proof (load_rsvps_wf proc fs) as Hwf.
  destruct (load_rsvps proc fs) as [|b|lit|s|items|props] eqn:Hl; cbn [push];
    try (left; split; [exact Hl | discriminate]).
  destruct (persist proc fs _) as [fs'|fs'] eqn:Hw; cbn [fst snd].
  - left. split; [|discriminate]. unfold load_rsvps at 1. unfold existsSync, readFile.
    rewrite (persist_inl_store _ _ _ _ Hw).
    fold (existsSync fs (RSVP_STORAGE proc)). fold (readFile fs (RSVP_STORAGE proc)).
    fold (load_rsvps proc fs). exact Hl.
  - right. exists items, data. repeat split.
    destruct (persist_inr _ _ _ _ Hw) as [Hr _].
    rewrite (load_rsvps_array proc fs' (items ++ [make_record now data]) Hr).
    + rewrite map_app. reflexivity.
    + apply List.Forall_app. split; [apply wf_array, Hwf|].
      constructor; [|constructor]. apply make_record_wf. eapply JSON_parse_wf, Hp.
Qed.

(** X6. No request removes, reorders or rewrites a stored record: after any
    request the store loads as it did before, or as the records it held
    followed by one new record, the submitted object with its createdAt.
    Records are given as they read back from the file, where a number that
    is an infinity has become null. *)
Theorem stored_records_are_kept proc rt req fs :
  load_rsvps proc (fst (serve proc rt req fs)) = load_rsvps proc fs \/
  exists items data,
    load_rsvps proc fs = JArray items /\
    load_rsvps proc (fst (serve proc rt req fs))
    = JArray (map reparsed items ++ [reparsed (make_record (clock rt) data)]) /\
    (in_range (JArray items) -> map reparsed items = items).
Proof.
  destruct (serve_cases proc rt req fs) as [->|[text ->]]; [auto|].
  destruct (submit_end_keeps_records proc (clock rt) text fs)
    as [[H _]|(items & data & _ & _ & H1 & H2)]; [left; exact H|].
  right. exists items, data. repeat split; [exact H1 | exact H2 |].
  intros Hr. apply reparsed_in_range in Hr. cbn [reparsed] in Hr. congruence.
Qed.





Example two_of_five_are_thanked :
  count_thanked mixed_requests (snd (serve_all app mixed_requests empty_disk)) = 2%nat /\
  map (fun reply => match reply with Some r => status r | None => 0 end)
      (snd (serve_all app mixed_requests empty_disk))
  = [200; 400; 500; 200; 200].
Proof. split; vm_compute; reflexivity. Qed.

End StoreProperties.
(** ** Facts about the decoder of the request chunks *)

Module Utf8Facts.

Import Utf8 DecoderState.

Lemma utf16_length cp : (length (utf16 cp) <= 2)%nat.
Proof. unfold utf16. destruct (cp <? 65536); simpl; lia. Qed.

Lemma lead_length b out st :
  lead b = Some (out, st) -> (length out + owed st <= 1)%nat.
Proof.
  unfold lead.
  repeat match goal with
         | |- context [if ?c then _ else _] => destruct c
         end; intros [= <- <-]; simpl; lia.
Qed.

Lemma lead_or_replace_length b :
  (length (fst (lead_or_replace b)) + owed (snd (lead_or_replace b)) <= 1)%nat.
Proof.
  unfold lead_or_replace. destruct (lead b) as [[out st]|] eqn:E.
  - apply (lead_length _ _ _ E).
  - simpl. lia.
Qed.

Lemma continue_length needed cp lower upper b out st :
  continue needed cp lower upper b = Some (out, st) ->
  (length out + owed st <= 2)%nat.
Proof.
  unfold continue. destruct (_ && _); [|discriminate].
  destruct needed as [|[|m]]; intros [= <- <-]; simpl;
    try lia; pose proof (utf16_length (cp * 64 + (b - 128))); lia.
Qed.

Lemma step_length st b :
  (length (fst (step st b)) + owed (snd (step st b)) <= owed st + 1)%nat.
Proof.
  destruct st as [|needed cp lower upper]; cbn [step owed].
  - apply lead_or_replace_length.
  - destruct (continue needed cp lower upper b) as [[out st']|] eqn:E.
    + apply (continue_length _ _ _ _ _ _ _ E).
    + pose proof (lead_or_replace_length b) as H.
      destruct (lead_or_replace b) as [out st']. cbn [fst snd length] in *. lia.
Qed.

Lemma decode_from_length bytes :
  forall st, (length (decode_from st bytes) <= owed st + length bytes)%nat.
Proof.
  induction bytes as [|b rest IH]; intros st; cbn [decode_from].
  - destruct st; simpl; lia.
  - pose proof (step_length st (Byte.to_N b)) as H.
    destruct (step st (Byte.to_N b)) as [out st']. cbn [fst snd] in H.
    rewrite length_app. specialize (IH st'). cbn [length]. lia.
Qed.

(** A chunk decodes to at most as many code units as it has bytes. *)
Lemma utf8_decode_length bytes :
  (length (utf8_decode bytes) <= length bytes)%nat.
Proof. apply (decode_from_length bytes Start). Qed.

End Utf8Facts.

(** ** Properties of the replies *)

Module ReplyProperties.

Import Json JsonWf JsonFacts Path Fs Server Spec Samples ServerFacts Http.
Import StoreProperties.

Lemma body_text_length cs :
  (length (body_text cs) <= length (concat cs))%nat.
Proof.
  unfold body_text. induction cs as [|c cs IH]; [reflexivity|].
  cbn [map concat]. rewrite !length_app.
  pose proof (Utf8Facts.utf8_decode_length c). lia.
Qed.

(** X8. A submission is answered with one of three replies, each of them
    the text of a JSON object with one string: message with the 200, error
    with the 400 and the 500.  So the reply always parses, and it has a
    message exactly when its status is 200. *)
Theorem submission_reply_is_json proc rt req fs r :
  method req = js "POST" ->
  pathname req = js "/rsvp" ->
  snd (serve proc rt req fs) = Some r ->
  header (js "Content-Type") r = Some (js "application/json") /\
  (status r = 200 /\
   JSON_parse (body r)
   = Some (JObject [(js "message", JString (js "Thank you for your RSVP!"))]) \/
   status r = 400 /\
   JSON_parse (body r)
   = Some (JObject [(js "error", JString (js "Invalid submission: name is required"))]) \/
   status r = 500 /\
   JSON_parse (body r)
   = Some (JObject [(js "error", JString (js "Internal server error"))])).
Proof.
  intros Hm Hp Hr.
  assert (E : serve proc rt req fs = submit_handler proc rt req fs).
  { unfold serve. rewrite Hm, Hp. reflexivity. }
  rewrite E in Hr. destruct (submit_handler_reply _ _ _ _ _ Hr) as (text & _ & -> & _).
  destruct (submit_end_replies proc (clock rt) text fs) as [-> |[-> | ->]];
    (split; [reflexivity|]).
  - left. split; [reflexivity | vm_compute; reflexivity].
  - right. left. split; [reflexivity | vm_compute; reflexivity].
  - right. right. split; [reflexivity | vm_compute; reflexivity].
Qed.

Lemma submission_reply_is_json_witness :
  header (js "Content-Type") invalid_submission = Some (js "application/json") /\
  (status invalid_submission = 200 /\
   JSON_parse (body invalid_submission)
   = Some (JObject [(js "message", JString (js "Thank you for your RSVP!"))]) \/
   status invalid_submission = 400 /\
   JSON_parse (body invalid_submission)
   = Some (JObject [(js "error", JString (js "Invalid submission: name is required"))]) \/
   status invalid_submission = 500 /\
   JSON_parse (body invalid_submission)
   = Some (JObject [(js "error", JString (js "Internal server error"))])).
Proof.
  refine (submission_reply_is_json app at_epoch (post blank_name_text) empty_disk
            invalid_submission _ _ _); vm_compute; reflexivity.
Defined.

(** X9. The replies of the three RSVP routes, whatever their status, allow
    any origin; the replies to every other request have no such header. *)
Theorem rsvp_replies_allow_any_origin proc rt req fs r :
  snd (serve proc rt req fs) = Some r ->
  header (js "Access-Control-Allow-Origin") r
  = if rsvp_route req then Some (js "*") else None.
Proof.
  unfold rsvp_route, serve.
  destruct (JsString.eqb (method req) (js "POST")
            && JsString.eqb (pathname req) (js "/rsvp")); cbn [orb].
  - intros Hr. destruct (submit_handler_reply _ _ _ _ _ Hr) as (text & _ & -> & _).
    destruct (submit_end_replies proc (clock rt) text fs) as [-> |[-> | ->]];
      reflexivity.
  - destruct (JsString.eqb (method req) (js "GET")
              && JsString.eqb (pathname req) (js "/rsvps")); cbn [orb snd].
    + intros [= <-]. unfold list_handler.
      destruct (readFile fs _) as [d|e]; [|destruct (is_ENOENT e)]; reflexivity.
    + destruct (JsString.eqb (method req) (js "OPTIONS")
                && JsString.eqb (pathname req) (js "/rsvp")); cbn [snd];
        [intros [= <-]; reflexivity|].
      destruct (JsString.eqb _ _); cbn [snd]; intros [= <-]; [|reflexivity].
      unfold static_handler. destruct (negb _); [reflexivity|].
      destruct (readFile fs _); reflexivity.
Qed.

Lemma rsvp_replies_allow_any_origin_witness :
  header (js "Access-Control-Allow-Origin") internal_error = Some (js "*").
Proof.
  refine (rsvp_replies_allow_any_origin app at_epoch (post (js "{")) empty_disk
            internal_error _).
  vm_compute. reflexivity.
Defined.

(** X10. A submission of at most 1,000,000 bytes is never cut off: its text
    has no more code units than the body has bytes, so the 'end' listener
    gets the whole text and its reply is sent.  An empty body is answered
    with the 500, as the empty text is not JSON. *)
Theorem small_body_is_answered proc rt req fs :
  method req = js "POST" ->
  pathname req = js "/rsvp" ->
  N.of_nat (length (concat (chunks req))) <= 1000000 ->
  serve proc rt req fs
  = (fst (submit_end proc (clock rt) (body_text (chunks req)) fs),
     Some (snd (submit_end proc (clock rt) (body_text (chunks req)) fs))) /\
  (concat (chunks req) = [] -> serve proc rt req fs = (fs, Some internal_error)).
Proof.
  intros Hm Hp Hlen.
  assert (Hs : serve proc rt req fs
               = (fst (submit_end proc (clock rt) (body_text (chunks req)) fs),
                  Some (snd (submit_end proc (clock rt) (body_text (chunks req)) fs)))).
  { apply Properties.serve_within_cap; [exact Hm | exact Hp |].
    pose proof (body_text_length (chunks req)). lia. }
  split; [exact Hs|]. intros He. rewrite Hs.
  assert (Ht : body_text (chunks req) = []).
  { pose proof (body_text_length (chunks req)) as H. rewrite He in H.
    destruct (body_text (chunks req)); [reflexivity | simpl in H; lia]. }
  rewrite Ht. reflexivity.
Qed.

Lemma small_body_is_answered_witness :
  serve app at_epoch
    {| method := js "POST"; pathname := js "/rsvp"; chunks := [] |} empty_disk
  = (empty_disk, Some internal_error).
Proof.
  refine (proj2 (small_body_is_answered app at_epoch
                   {| method := js "POST"; pathname := js "/rsvp"; chunks := [] |}
                   empty_disk _ _ _) _); try reflexivity.
  vm_compute. discriminate.
Defined.



End ReplyProperties.
(** ** Facts about path resolution *)

Module PathResolution.

Import Json Path Fs Server Spec Segments PathFacts.



Lemma split_slash_slash_free s : Forall (fun seg => slash_free seg = true) (split_slash s).
Proof.
  induction s as [|c s IH]; [repeat constructor|]. cbn [split_slash].
  destruct (c =? 47) eqn:E; [constructor; [reflexivity | exact IH]|].
  destruct (split_slash s) as [|seg segs]; [repeat constructor; cbn; rewrite E; reflexivity|].
  apply List.Forall_cons_iff in IH as [H1 H2]. constructor; [|exact H2].
  cbn [slash_free forallb]. rewrite E. exact H1.
Qed.


Lemma join_app sep (l1 l2 : list jsstring) :
  l1 <> [] -> l2 <> [] ->
  join sep (l1 ++ l2) = join sep l1 ++ sep ++ join sep l2.
Proof.
  induction l1 as [|p l1 IH]; [congruence|]. intros _ H2.
  destruct l1 as [|q l1].
  - destruct l2 as [|r l2]; [congruence | reflexivity].
  - change (join sep ((p :: q :: l1) ++ l2))
      with (p ++ sep ++ join sep ((q :: l1) ++ l2)).
    rewrite IH by (congruence || exact H2).
    change (join sep (p :: q :: l1)) with (p ++ sep ++ join sep (q :: l1)).
    rewrite <- !app_assoc. reflexivity.
Qed.




(** The segments of an absolute directory leave a stack of plain
    segments. *)
Lemma normalize_segments_prefix l1 :
  Forall (fun seg => slash_free seg = true) l1 ->
  forall stack, Forall plain stack ->
  exists stack', Forall plain stack' /\
    forall l2, normalize_segments false stack (l1 ++ l2)
               = normalize_segments false stack' l2.
Proof.
  induction l1 as [|seg l1 IH]; intros Hf stack Hs.
  - exists stack. auto.
  - apply List.Forall_cons_iff in Hf as [Hseg Hf]. cbn [app normalize_segments].
    destruct (is_empty seg || is_dot seg) eqn:Ek; [apply IH; assumption|].
    destruct (is_dotdot seg) eqn:Ed.
    + destruct stack as [|top below0]; [apply IH; assumption|].
      apply List.Forall_cons_iff in Hs as [Ht Hb].
      destruct Ht as (_ & -> & _). apply IH; assumption.
    + apply IH; [assumption|]. constructor; [|exact Hs].
      repeat split; [unfold kept; rewrite Ek; reflexivity | exact Ed | exact Hseg].
Qed.








Lemma ends_with_slash_app x c y :
  ends_with_slash (x ++ c :: y) = ends_with_slash (c :: y).
Proof.
  unfold ends_with_slash. rewrite rev_app_distr. cbn [rev].
  destruct (rev y) as [|d r]; reflexivity.
Qed.






End PathResolution.
(** ** Facts about file names *)

Module ExtnameFacts.

Import Json Path Segments FileNames.

Lemma drop_slashes_head c s : (c =? 47) = false -> drop_slashes (c :: s) = c :: s.
Proof. intros H. cbn [drop_slashes]. rewrite H. reflexivity. Qed.

Lemma take_to_slash_app x y :
  slash_free x = true -> take_to_slash (x ++ 47 :: y) = x.
Proof.
  induction x as [|c x IH]; [reflexivity|]. cbn [slash_free forallb app take_to_slash].
  intros H. apply andb_true_iff in H as [Hc Hx].
  destruct (c =? 47); [discriminate|]. rewrite (IH Hx). reflexivity.
Qed.

Lemma take_to_slash_free x : slash_free x = true -> take_to_slash x = x.
Proof.
  induction x as [|c x IH]; [reflexivity|]. cbn [slash_free forallb take_to_slash].
  intros H. apply andb_true_iff in H as [Hc Hx].
  destruct (c =? 47); [discriminate|]. rewrite (IH Hx). reflexivity.
Qed.

Lemma slash_free_rev x : slash_free x = true -> slash_free (rev x) = true.
Proof.
  unfold slash_free. rewrite !forallb_forall. intros H c Hc.
  apply H, in_rev, Hc.
Qed.

Lemma slash_free_app x y :
  slash_free (x ++ y) = slash_free x && slash_free y.
Proof. apply forallb_app. Qed.

(** The last segment of a path, when it is not empty. *)
Lemma base_last_segment x seg :
  seg <> [] -> slash_free seg = true ->
  rev (take_to_slash (drop_slashes (rev (x ++ 47 :: seg)))) = seg /\
  rev (take_to_slash (drop_slashes (rev seg))) = seg.
Proof.
  intros Hn Hf. pose proof (slash_free_rev seg Hf) as Hr.
  assert (Hd : forall rest, drop_slashes (rev seg ++ rest) = rev seg ++ rest).
  { intros rest. destruct (rev seg) as [|c r] eqn:E.
    - apply (f_equal (@rev N)) in E. rewrite rev_involutive in E. contradiction.
    - cbn [slash_free forallb] in Hr. apply andb_true_iff in Hr as [Hc _].
      apply drop_slashes_head. destruct (c =? 47); [discriminate | reflexivity]. }
  split.
  - rewrite rev_app_distr. cbn [rev]. rewrite <- app_assoc. cbn [app].
    rewrite Hd, take_to_slash_app by exact Hr. apply rev_involutive.
  - rewrite <- (app_nil_r (rev seg)), Hd, app_nil_r, take_to_slash_free by exact Hr.
    apply rev_involutive.
Qed.

Lemma path_extname_last_segment x seg :
  seg <> [] -> slash_free seg = true ->
  path_extname (x ++ 47 :: seg) = path_extname seg.
Proof.
  intros Hn Hf. unfold path_extname.
  destruct (base_last_segment x seg Hn Hf) as [-> ->]. reflexivity.
Qed.

Lemma split_last_dot_free ext : dot_free ext = true -> split_last_dot ext = None.
Proof.
  induction ext as [|c ext IH]; [reflexivity|]. cbn [dot_free forallb split_last_dot].
  intros H. apply andb_true_iff in H as [Hc He]. rewrite (IH He).
  destruct (c =? 46); [discriminate | reflexivity].
Qed.

Lemma split_last_dot_stem stem ext :
  dot_free ext = true ->
  split_last_dot (stem ++ 46 :: ext) = Some (stem, 46 :: ext).
Proof.
  intros He. induction stem as [|c stem IH].
  - cbn [app split_last_dot]. rewrite (split_last_dot_free ext He). reflexivity.
  - cbn [app split_last_dot]. rewrite IH. reflexivity.
Qed.

(** The extension of a segment [stem.ext]. *)
Lemma path_extname_stem x stem ext :
  stem_and_extension stem ext = true ->
  path_extname (x ++ 47 :: stem ++ 46 :: ext)
  = if JsString.eqb (stem ++ 46 :: ext) [46; 46] then [] else 46 :: ext.
Proof.
  unfold stem_and_extension. intros H.
  apply andb_true_iff in H as [H Hd]. apply andb_true_iff in H as [H He].
  apply andb_true_iff in H as [Hn Hs].
  assert (Hseg : slash_free (stem ++ 46 :: ext) = true).
  { rewrite slash_free_app, Hs. cbn [slash_free forallb andb] in *. exact He. }
  rewrite path_extname_last_segment; [|destruct stem; discriminate | exact Hseg].
  unfold path_extname.
  destruct (base_last_segment [] (stem ++ 46 :: ext)) as [_ ->];
    [destruct stem; discriminate | exact Hseg |].
  rewrite (split_last_dot_stem stem ext Hd).
  destruct stem; [discriminate Hn|]. reflexivity.
Qed.

End ExtnameFacts.

(** ** Properties of the static handler *)

Module StaticProperties.

Import Json Path Fs Server Spec Samples Segments FileNames PathResolution ExtnameFacts.

Lemma startsWith_app x y : startsWith (x ++ y) x = true.
Proof.
  induction x as [|c x IH]; [destruct y; reflexivity|].
  change (startsWith ((c :: x) ++ y) (c :: x))
    with (N.eqb c c && startsWith (x ++ y) x).
  rewrite N.eqb_refl. exact IH.
Qed.





Example css_file_is_served :
  static_handler app (js "/assets//./css/site.css")
    (disk_with (js "/app/public/assets/css/site.css") (js "body {}"))
  = {| status := 200; headers := [(js "Content-Type", js "text/css; charset=utf-8")];
       body := js "body {}" |}.
Proof. vm_compute. reflexivity. Qed.

Lemma toLowerCase_nil ext : toLowerCase ext = [] -> ext = [].
Proof. destruct ext; [reflexivity | discriminate]. Qed.

Lemma dotdot_segment stem ext :
  stem <> [] -> dot_free ext = true ->
  JsString.eqb (stem ++ 46 :: ext) [46; 46] = true -> ext = [].
Proof.
  intros Hn He H. apply JsStringFacts.eqb_eq in H.
  destruct stem as [|c stem]; [congruence|]. injection H as _ H.
  destruct stem as [|d stem].
  - injection H as H. exact H.
  - injection H as _ H. destruct stem; discriminate H.
Qed.

(** X13. The content type of a file is chosen by what follows the last dot
    of its name alone, whatever the case of its ASCII letters: two files
    whose extensions differ in case only, in whatever directories and with
    whatever stems, get the same type.  A name without a dot, and a name
    whose only dot is its first character, have no extension and get
    application/octet-stream. *)
Theorem content_type_by_extension dir1 stem1 ext1 dir2 stem2 ext2 :
  stem_and_extension stem1 ext1 = true ->
  stem_and_extension stem2 ext2 = true ->
  toLowerCase ext1 = toLowerCase ext2 ->
  getContentType (dir1 ++ 47 :: stem1 ++ 46 :: ext1)
  = getContentType (dir2 ++ 47 :: stem2 ++ 46 :: ext2) /\
  (ext1 <> [] ->
   getContentType (dir1 ++ 47 :: ext1) = js "application/octet-stream") /\
  getContentType (dir1 ++ 47 :: 46 :: ext1) = js "application/octet-stream".
Proof.
  intros H1 H2 Hl. split; [|split].
  - unfold getContentType.
    rewrite (path_extname_stem dir1 stem1 ext1 H1), (path_extname_stem dir2 stem2 ext2 H2).
    unfold stem_and_extension in H1, H2.
    apply andb_true_iff in H1 as [H1 Hd1]. apply andb_true_iff in H1 as [H1 _].
    apply andb_true_iff in H1 as [Hn1 _].
    apply andb_true_iff in H2 as [H2 Hd2]. apply andb_true_iff in H2 as [H2 _].
    apply andb_true_iff in H2 as [Hn2 _].
    assert (Hs1 : stem1 <> []) by (destruct stem1; [discriminate | congruence]).
    assert (Hs2 : stem2 <> []) by (destruct stem2; [discriminate | congruence]).
    destruct (JsString.eqb (stem1 ++ 46 :: ext1) [46; 46]) eqn:E1.
    + pose proof (dotdot_segment stem1 ext1 Hs1 Hd1 E1) as ->.
      symmetry in Hl. apply toLowerCase_nil in Hl. subst ext2.
      destruct (JsString.eqb (stem2 ++ [46]) [46; 46]); reflexivity.
    + destruct (JsString.eqb (stem2 ++ 46 :: ext2) [46; 46]) eqn:E2.
      * pose proof (dotdot_segment stem2 ext2 Hs2 Hd2 E2) as ->.
        apply toLowerCase_nil in Hl. subst ext1. reflexivity.
      * change (toLowerCase (46 :: ext1)) with (46 :: toLowerCase ext1).
        change (toLowerCase (46 :: ext2)) with (46 :: toLowerCase ext2).
        rewrite Hl. reflexivity.
  - intros Hn. unfold stem_and_extension in H1.
    apply andb_true_iff in H1 as [H1 Hd1]. apply andb_true_iff in H1 as [_ He1].
    unfold getContentType.
    rewrite path_extname_last_segment by assumption.
    unfold path_extname.
    destruct (base_last_segment [] ext1 Hn He1) as [_ ->].
    rewrite (split_last_dot_free ext1 Hd1). reflexivity.
  - unfold stem_and_extension in H1.
    apply andb_true_iff in H1 as [H1 Hd1]. apply andb_true_iff in H1 as [_ He1].
    unfold getContentType.
    rewrite path_extname_last_segment; [|discriminate | exact He1].
    unfold path_extname.
    destruct (base_last_segment [] (46 :: ext1)) as [_ ->];
      [discriminate | exact He1 |].
    cbn [split_last_dot]. rewrite (split_last_dot_free ext1 Hd1). reflexivity.
Qed.

Lemma content_type_by_extension_witness :
  getContentType (js "/app/public/assets/images" ++ 47 :: js "hero" ++ 46 :: js "JPG")
  = getContentType (js "/tmp" ++ 47 :: js "a.b" ++ 46 :: js "jpg").
Proof.
  refine (proj1 (content_type_by_extension (js "/app/public/assets/images")
                   (js "hero") (js "JPG") (js "/tmp") (js "a.b") (js "jpg") _ _ _));
    vm_compute; reflexivity.
Defined.

Example jpeg_content_type :
  getContentType (js "/app/public/assets/images/hero.JPG") = js "image/jpeg" /\
  getContentType (js "/app/public/.html") = js "application/octet-stream" /\
  getContentType (js "/app/public/index.html/") = js "text/html; charset=utf-8".
Proof. repeat split; vm_compute; reflexivity. Qed.

End StaticProperties.
(** ** Properties of the countdown *)

Module CountdownProperties.

Import Countdown.

Local Open Scope Z_scope.

(** The target is the instant that line 115 names. *)
Example target_instant : Date.toISOString target = js "2025-11-21T18:30:00.000Z".
Proof. vm_compute. reflexivity. Qed.

Lemma remaining_hours (now : Z) :
  let total := Z.max 0 (target - now) / 3600000 in
  remaining now = (total / 24, total mod 24) /\ 0 <= total.
Proof.
  cbv zeta. unfold remaining.
  change (1000 * 60 * 60) with 3600000.
  assert (E : (if target - now <? 0 then 0 else target - now) = Z.max 0 (target - now)).
  { destruct (Z.ltb_spec (target - now) 0); lia. }
  rewrite E.
  assert (H0 : 0 <= Z.max 0 (target - now) / 3600000)
    by (apply Z.div_pos; lia).
  split; [|exact H0]. f_equal. apply Z.rem_mod_nonneg; lia.
Qed.

(** X14. The countdown shows whole hours, split into days and hours: the
    hours are between 0 and 23, the days are not negative, and together
    they are the number of whole hours from now to the target, zero once
    less than an hour is left or the target is past.  Both numbers are
    written to the page as decimal text. *)
Theorem countdown_counts_whole_hours (now : Z) (p : page) :
  let days := fst (remaining now) in
  let hours := snd (remaining now) in
  updateCountdown now p
  = {| daysEl := Some (integer_text days); hoursEl := Some (integer_text hours) |} /\
  0 <= days /\ 0 <= hours <= 23 /\
  3600000 * (24 * days + hours) <= Z.max 0 (target - now)
    < 3600000 * (24 * days + hours + 1) /\
  (now <= target - 3600000 <-> 0 < 24 * days + hours).
Proof.
  cbv zeta. destruct (remaining_hours now) as [E H0]. cbv zeta in E.
  unfold updateCountdown. rewrite E. cbn [fst snd].
  set (total := Z.max 0 (target - now) / 3600000) in *.
  pose proof (Z.div_mod total 24 ltac:(lia)) as Hdm.
  pose proof (Z.mod_pos_bound total 24 ltac:(lia)) as Hm.
  pose proof (Z.div_pos total 24 H0 ltac:(lia)) as Hd.
  assert (Ht : 24 * (total / 24) + total mod 24 = total) by lia.
  rewrite Ht.
  pose proof (Z.div_mod (Z.max 0 (target - now)) 3600000 ltac:(lia)) as Hq.
  pose proof (Z.mod_pos_bound (Z.max 0 (target - now)) 3600000 ltac:(lia)) as Hr.
  fold total in Hq.
  repeat split; try lia.
Qed.

(** X15. The countdown never runs backwards: at a later time it shows at
    most as many whole hours as at an earlier one. *)
Theorem countdown_never_increases (now later : Z) :
  now <= later ->
  24 * fst (remaining later) + snd (remaining later)
  <= 24 * fst (remaining now) + snd (remaining now).
Proof.
  intros Hle.
  destruct (remaining_hours now) as [E1 _]. destruct (remaining_hours later) as [E2 _].
  cbv zeta in E1, E2. rewrite E1, E2. cbn [fst snd].
  rewrite <- !Z.div_mod by lia.
  apply Z.div_le_mono; lia.
Qed.

Lemma countdown_never_increases_witness :
  24 * fst (remaining 1763749800000) + snd (remaining 1763749800000)
  <= 24 * fst (remaining 0) + snd (remaining 0).
Proof.
  refine (countdown_never_increases 0 1763749800000 _). vm_compute. discriminate.
Defined.

(** A day and a half before the target, and after it. *)
Example countdown_samples :
  remaining (target - 129600000) = (1, 12) /\
  remaining (target - 3599999) = (0, 0) /\
  remaining (target + 1) = (0, 0) /\
  updateCountdown 0 {| daysEl := Some []; hoursEl := Some [] |}
  = {| daysEl := Some (js "20413"); hoursEl := Some (js "18") |}.
Proof. repeat split; vm_compute; reflexivity. Qed.

(** Without one of the two elements the script writes nothing and starts no
    timer. *)
Example countdown_needs_both_elements now text :
  on_load now {| daysEl := Some text; hoursEl := None |}
  = {| shown := {| daysEl := Some text; hoursEl := None |}; timer := false |} /\
  on_load now {| daysEl := None; hoursEl := Some text |}
  = {| shown := {| daysEl := None; hoursEl := Some text |}; timer := false |}.
Proof. split; reflexivity. Qed.

End CountdownProperties.
(** ** Properties of the slider *)

Module SliderProperties.

Import Slider.

Local Open Scope Z_scope.

Lemma restart_timers st :
  timers (setInterval (clearInterval st))
  = {[ sliderInterval (setInterval (clearInterval st)) ]} ∪ (timers st ∖ {[ sliderInterval st ]}).
Proof. reflexivity. Qed.

Lemma steady_load p ids : whole p = true -> steady (on_load p ids).
Proof.
  unfold whole. intros H. apply andb_true_iff in H as [H Hr].
  apply andb_true_iff in H as [Hh Hl].
  unfold on_load, show_current, setHeroBackground. rewrite Hl, Hr. cbn.
  rewrite Hh. cbn. unfold steady. cbn. rewrite Hh.
  repeat split; try lia. apply (right_id_L ∅ (∪)).
Qed.

(** Showing the image of an index within the array, on a steady state. *)
Lemma steady_show index st :
  steady st -> 0 <= index < Z.of_nat (length images) ->
  show_current (set_currentIndex index st)
  = ({| document := document st;
        backgroundImage := Some (js "url('" ++ image index ++ js "')");
        currentIndex := index;
        sliderInterval := sliderInterval st;
        timers := timers st;
        issued := issued st;
        left_listener := left_listener st;
        right_listener := right_listener st |}, true).
Proof.
  intros (Hh & _) _. unfold show_current, setHeroBackground. cbn. rewrite Hh.
  reflexivity.
Qed.

Lemma next_index i :
  0 <= i < Z.of_nat (length images) ->
  0 <= Z.rem (i + 1) (Z.of_nat (length images)) < Z.of_nat (length images).
Proof. intros H. rewrite Z.rem_mod_nonneg by (cbn in *; lia). apply Z.mod_pos_bound. cbn. lia. Qed.

Lemma prev_index i :
  0 <= i < Z.of_nat (length images) ->
  0 <= Z.rem (i - 1 + Z.of_nat (length images)) (Z.of_nat (length images))
    < Z.of_nat (length images).
Proof. intros H. rewrite Z.rem_mod_nonneg by (cbn in *; lia). apply Z.mod_pos_bound. cbn. lia. Qed.

Lemma steady_handle st e : steady st -> steady (handle st e).
Proof.
  intros Hs. pose proof Hs as (Hh & Hl & Hr & Hi & Hb & Ht).
  destruct e as [id| |]; cbn [handle].
  - unfold on_timer. destruct (bool_decide _); [|exact Hs].
    unfold nextImage. rewrite (steady_show _ st Hs (next_index _ Hi)). cbn [fst].
    unfold steady. cbn. pose proof (next_index _ Hi). auto 10.
  - unfold on_left_click, then_restart, prevImage. rewrite Hl.
    rewrite (steady_show _ st Hs (prev_index _ Hi)). cbn [fst snd].
    unfold steady. cbn. pose proof (prev_index _ Hi) as Hp.
    repeat split; try assumption; try apply Hp.
    rewrite Ht, difference_diag_L. apply (right_id_L ∅ (∪)).
  - unfold on_right_click, then_restart, nextImage. rewrite Hr.
    rewrite (steady_show _ st Hs (next_index _ Hi)). cbn [fst snd].
    unfold steady. cbn. pose proof (next_index _ Hi) as Hp.
    repeat split; try assumption; try apply Hp.
    rewrite Ht, difference_diag_L. apply (right_id_L ∅ (∪)).
Qed.

Lemma steady_run es : forall st, steady st -> steady (run es st).
Proof.
  induction es as [|e es IH]; intros st Hs; [exact Hs|].
  apply IH, steady_handle, Hs.
Qed.

Lemma index_cases i :
  0 <= i < Z.of_nat (length images) -> i = 0 \/ i = 1 \/ i = 2.
Proof. cbn. lia. Qed.

Lemma image_in_range i :
  0 <= i < Z.of_nat (length images) ->
  nth_error images (Z.to_nat i) = Some (image i) /\ In (image i) images.
Proof.
  intros H. destruct (index_cases i H) as [-> |[-> | ->]]; split;
    try reflexivity; cbn; auto.
Qed.

(** X16. On a page with the header and the two buttons, whatever is clicked
    and whenever the timer fires, the index stays within the array and the
    header shows the image of the index: one of the three images, never the
    text undefined. *)
Theorem slider_shows_one_of_the_images p ids es :
  whole p = true ->
  let st := run es (on_load p ids) in
  0 <= currentIndex st < 3 /\
  exists name,
    nth_error images (Z.to_nat (currentIndex st)) = Some name /\
    In name images /\
    backgroundImage st = Some (js "url('" ++ name ++ js "')").
Proof.
  intros Hp st.
  destruct (steady_run es _ (steady_load p ids Hp)) as (_ & _ & _ & Hi & Hb & _).
  fold st in Hi, Hb. split; [exact Hi|].
  destruct (image_in_range _ Hi) as [Hn Hin]. eauto.
Qed.

Lemma slider_shows_one_of_the_images_witness :
  let st := run [RightClick; Timer 2; LeftClick; LeftClick]
              (on_load {| has_header := true; has_left := true; has_right := true |} 0) in
  0 <= currentIndex st < 3 /\
  exists name,
    nth_error images (Z.to_nat (currentIndex st)) = Some name /\
    In name images /\
    backgroundImage st = Some (js "url('" ++ name ++ js "')").
Proof.
  refine (slider_shows_one_of_the_images
            {| has_header := true; has_left := true; has_right := true |} 0
            [RightClick; Timer 2; LeftClick; LeftClick] _).
  reflexivity.
Defined.

(** X17. On a page with the header and the two buttons there is one running
    timer at any time, the one whose id the script holds: each click stops
    the timer it finds before it starts the next, so that timers never add
    up. *)
Theorem slider_runs_one_timer p ids es :
  whole p = true ->
  timers (run es (on_load p ids)) = {[ sliderInterval (run es (on_load p ids)) ]}.
Proof.
  intros Hp.
  destruct (steady_run es _ (steady_load p ids Hp)) as (_ & _ & _ & _ & _ & Ht).
  exact Ht.
Qed.

Lemma slider_runs_one_timer_witness :
  timers (run [RightClick; LeftClick]
            (on_load {| has_header := true; has_left := true; has_right := true |} 7))
  = {[ sliderInterval
         (run [RightClick; LeftClick]
            (on_load {| has_header := true; has_left := true; has_right := true |} 7)) ]}.
Proof.
  refine (slider_runs_one_timer
            {| has_header := true; has_left := true; has_right := true |} 7
            [RightClick; LeftClick] _).
  reflexivity.
Defined.

(** The picture of a state: the index and the background. *)
Lemma steady_picture st st' :
  steady st -> steady st' -> currentIndex st' = currentIndex st ->
  backgroundImage st' = backgroundImage st.
Proof.
  intros (_ & _ & _ & _ & Hb & _) (_ & _ & _ & _ & Hb' & _) E.
  rewrite Hb, Hb', E. reflexivity.
Qed.

Lemma steady_right_index st :
  steady st ->
  currentIndex (on_right_click st) = Z.rem (currentIndex st + 1) 3.
Proof.
  intros Hs. pose proof Hs as (_ & _ & Hr & Hi & _).
  unfold on_right_click, then_restart, nextImage. rewrite Hr.
  rewrite (steady_show _ st Hs (next_index _ Hi)). reflexivity.
Qed.

Lemma steady_left_index st :
  steady st ->
  currentIndex (on_left_click st) = Z.rem (currentIndex st - 1 + 3) 3.
Proof.
  intros Hs. pose proof Hs as (_ & Hl & _ & Hi & _).
  unfold on_left_click, then_restart, prevImage. rewrite Hl.
  rewrite (steady_show _ st Hs (prev_index _ Hi)). reflexivity.
Qed.

(** X18. On a page with the header and the two buttons, the left button
    undoes the right button and the right button the left one, and three
    clicks on the same button come back to the same image. *)
Theorem left_undoes_right p ids es :
  whole p = true ->
  let st := run es (on_load p ids) in
  let same st' :=
    currentIndex st' = currentIndex st /\ backgroundImage st' = backgroundImage st in
  same (on_left_click (on_right_click st)) /\
  same (on_right_click (on_left_click st)) /\
  same (on_right_click (on_right_click (on_right_click st))) /\
  same (on_left_click (on_left_click (on_left_click st))).
Proof.
  intros Hp st same.
  pose proof (steady_run es _ (steady_load p ids Hp)) as Hs. fold st in Hs.
  pose proof (steady_handle st RightClick Hs) as Hr. cbn [handle] in Hr.
  pose proof (steady_handle st LeftClick Hs) as Hl. cbn [handle] in Hl.
  pose proof (steady_handle _ RightClick Hr) as Hrr. cbn [handle] in Hrr.
  pose proof (steady_handle _ LeftClick Hl) as Hll. cbn [handle] in Hll.
  pose proof (steady_handle _ LeftClick Hr) as Hrl. cbn [handle] in Hrl.
  pose proof (steady_handle _ RightClick Hl) as Hlr. cbn [handle] in Hlr.
  pose proof (steady_handle _ RightClick Hrr) as Hrrr. cbn [handle] in Hrrr.
  pose proof (steady_handle _ LeftClick Hll) as Hlll. cbn [handle] in Hlll.
  assert (Hi : currentIndex st = 0 \/ currentIndex st = 1 \/ currentIndex st = 2).
  { destruct Hs as (_ & _ & _ & Hi & _). apply index_cases, Hi. }
  assert (E1 : currentIndex (on_left_click (on_right_click st)) = currentIndex st).
  { rewrite (steady_left_index _ Hr), (steady_right_index _ Hs).
    destruct Hi as [-> |[-> | ->]]; reflexivity. }
  assert (E2 : currentIndex (on_right_click (on_left_click st)) = currentIndex st).
  { rewrite (steady_right_index _ Hl), (steady_left_index _ Hs).
    destruct Hi as [-> |[-> | ->]]; reflexivity. }
  assert (E3 : currentIndex (on_right_click (on_right_click (on_right_click st)))
               = currentIndex st).
  { rewrite (steady_right_index _ Hrr), (steady_right_index _ Hr),
      (steady_right_index _ Hs).
    destruct Hi as [-> |[-> | ->]]; reflexivity. }
  assert (E4 : currentIndex (on_left_click (on_left_click (on_left_click st)))
               = currentIndex st).
  { rewrite (steady_left_index _ Hll), (steady_left_index _ Hl),
      (steady_left_index _ Hs).
    destruct Hi as [-> |[-> | ->]]; reflexivity. }
  unfold same. repeat split; try assumption; apply steady_picture; assumption.
Qed.

Lemma left_undoes_right_witness :
  currentIndex
    (on_left_click
       (on_right_click
          (run [Timer 1]
             (on_load {| has_header := true; has_left := true; has_right := true |} 0))))
  = currentIndex
      (run [Timer 1]
         (on_load {| has_header := true; has_left := true; has_right := true |} 0)).
Proof.
  refine (proj1 (proj1 (left_undoes_right
            {| has_header := true; has_left := true; has_right := true |} 0
            [Timer 1] _))).
  reflexivity.
Defined.

Lemma headless_run es :
  forall st, has_header (document st) = false -> backgroundImage st = None ->
    has_header (document (run es st)) = false /\ backgroundImage (run es st) = None.
Proof.
  induction es as [|e es IH]; intros st Hh Hb; [auto|]. cbn [run fold_left].
  apply IH.
  - destruct e as [id| |]; cbn [handle];
      unfold on_timer, on_left_click, on_right_click, then_restart, nextImage,
        prevImage, show_current, setHeroBackground; cbn; rewrite Hh;
      repeat match goal with
             | |- context [if ?c then _ else _] => destruct c
             end; exact Hh.
  - destruct e as [id| |]; cbn [handle];
      unfold on_timer, on_left_click, on_right_click, then_restart, nextImage,
        prevImage, show_current, setHeroBackground; cbn; rewrite Hh;
      repeat match goal with
             | |- context [if ?c then _ else _] => destruct c
             end; exact Hb.
Qed.

(** X19. The script does not check that the page has its elements.  On a
    page that lacks the header or one of the buttons the listener of
    DOMContentLoaded throws before it has shown the first image, though
    after it has started the timer; a button gets its click listener only
    if the buttons before it exist; and without header no image is ever
    shown, whatever is clicked. *)
Theorem slider_needs_its_elements p ids :
  whole p = false ->
  backgroundImage (on_load p ids) = None /\
  timers (on_load p ids) = {[ sliderInterval (on_load p ids) ]} /\
  left_listener (on_load p ids) = has_left p /\
  right_listener (on_load p ids) = has_left p && has_right p /\
  (has_header p = false ->
   forall es, backgroundImage (run es (on_load p ids)) = None).
Proof.
  unfold whole. intros Hw.
  assert (Hload : backgroundImage (on_load p ids) = None
                  /\ document (on_load p ids) = p).
  { unfold on_load, show_current, setHeroBackground.
    destruct (has_left p); [|split; reflexivity].
    destruct (has_right p); [|split; reflexivity]. cbn.
    destruct (has_header p); [discriminate Hw | split; reflexivity]. }
  destruct Hload as [Hb Hd]. split; [exact Hb|]. split; [|split; [|split]].
  - unfold on_load, show_current, setHeroBackground.
    destruct (has_left p); [|apply (right_id_L ∅ (∪))].
    destruct (has_right p); [|apply (right_id_L ∅ (∪))]. cbn.
    destruct (has_header p); apply (right_id_L ∅ (∪)).
  - unfold on_load, show_current, setHeroBackground.
    destruct (has_left p); [|reflexivity].
    destruct (has_right p); [|reflexivity]. cbn.
    destruct (has_header p); reflexivity.
  - unfold on_load, show_current, setHeroBackground.
    destruct (has_left p); [|reflexivity].
    destruct (has_right p); [|reflexivity]. cbn.
    destruct (has_header p); reflexivity.
  - intros Hh es. apply headless_run; [rewrite Hd; exact Hh | exact Hb].
Qed.

Lemma slider_needs_its_elements_witness :
  backgroundImage
    (on_load {| has_header := true; has_left := false; has_right := true |} 0)
  = None.
Proof.
  refine (proj1 (slider_needs_its_elements
            {| has_header := true; has_left := false; has_right := true |} 0 _)).
  reflexivity.
Defined.

(** Without the left button the first image is never shown: the first tick
    of the timer shows the second. *)
Example first_image_is_skipped :
  backgroundImage
    (run [Timer 1]
       (on_load {| has_header := true; has_left := false; has_right := true |} 0))
  = Some (js "url('assets/images/image1.jpg')").
Proof. vm_compute. reflexivity. Qed.

End SliderProperties.
(** ** Facts about UTF-8: what is sent is what is read *)

Module Utf8RoundTrip.

Import Json Utf8 Utf8Encode.

Lemma to_N_byte_of n : n <= 255 -> Byte.to_N (byte_of n) = n.
Proof.
  intros H. unfold byte_of. destruct (Byte.of_N n) as [b|] eqn:E.
  - apply Byte.to_of_N, E.
  - pose proof (Byte.to_of_N_option_map n) as Ho. rewrite E in Ho.
    destruct (N.leb_spec n 255); [discriminate Ho | lia].
Qed.

Lemma decode_from_cons st b rest :
  decode_from st (b :: rest)
  = fst (step st (Byte.to_N b)) ++ decode_from (snd (step st (Byte.to_N b))) rest.
Proof. cbn [decode_from]. destruct (step st (Byte.to_N b)). reflexivity. Qed.

Lemma decode_one b rest :
  b < 128 -> decode_from Start (byte_of b :: rest) = b :: decode_from Start rest.
Proof.
  intros H. rewrite decode_from_cons, to_N_byte_of by lia.
  cbn [step]. unfold lead_or_replace, lead. decide_tests. reflexivity.
Qed.

Lemma decode_two q r rest :
  2 <= q <= 31 -> r < 64 ->
  decode_from Start (byte_of (192 + q) :: byte_of (128 + r) :: rest)
  = (q * 64 + r) :: decode_from Start rest.
Proof.
  intros Hq Hr. rewrite !decode_from_cons, !to_N_byte_of by lia.
  cbn [step]. unfold lead_or_replace, lead. decide_tests. cbn [fst snd step app].
  unfold continue. decide_tests. cbn [fst snd app].
  replace ((192 + q - 192) * 64 + (128 + r - 128)) with (q * 64 + r) by lia.
  unfold utf16. decide_tests. reflexivity.
Qed.

Lemma decode_three q r2 r1 rest :
  q <= 15 -> r2 < 64 -> r1 < 64 ->
  (q = 0 -> 32 <= r2) -> (q = 13 -> r2 < 32) ->
  decode_from Start
    (byte_of (224 + q) :: byte_of (128 + r2) :: byte_of (128 + r1) :: rest)
  = ((q * 64 + r2) * 64 + r1) :: decode_from Start rest.
Proof.
  intros Hq H2 H1 H0 H13. rewrite !decode_from_cons, !to_N_byte_of by lia.
  cbn [step]. unfold lead_or_replace, lead. decide_tests; cbn [fst snd step app];
    unfold continue; decide_tests; cbn [fst snd step app];
    unfold continue; decide_tests; cbn [fst snd app];
    match goal with
    | |- utf16 ?x ++ _ = _ =>
      replace x with ((q * 64 + r2) * 64 + r1) by lia
    end;
    unfold utf16; decide_tests; reflexivity.
Qed.

Lemma decode_four q r3 r2 r1 rest :
  q <= 4 -> r3 < 64 -> r2 < 64 -> r1 < 64 ->
  (q = 0 -> 16 <= r3) -> (q = 4 -> r3 < 16) ->
  decode_from Start
    (byte_of (240 + q) :: byte_of (128 + r3) :: byte_of (128 + r2)
     :: byte_of (128 + r1) :: rest)
  = utf16 (((q * 64 + r3) * 64 + r2) * 64 + r1) ++ decode_from Start rest.
Proof.
  intros Hq H3 H2 H1 H0 H4. rewrite !decode_from_cons, !to_N_byte_of by lia.
  cbn [step]. unfold lead_or_replace, lead. decide_tests; cbn [fst snd step app];
    unfold continue; decide_tests; cbn [fst snd step app];
    unfold continue; decide_tests; cbn [fst snd step app];
    unfold continue; decide_tests; cbn [fst snd app];
    match goal with
    | |- utf16 ?x ++ _ = _ =>
      replace x with (((q * 64 + r3) * 64 + r2) * 64 + r1) by lia
    end; reflexivity.
Qed.

Lemma decode_code_point cp rest :
  cp < 55296 \/ 57344 <= cp -> cp < 1114112 ->
  decode_from Start (encode_code_point cp ++ rest)
  = utf16 cp ++ decode_from Start rest.
Proof.
  intros Hs Hmax. unfold encode_code_point.
  destruct (N.ltb_spec cp 128); [|destruct (N.ltb_spec cp 2048);
                                   [|destruct (N.ltb_spec cp 65536)]].
  - cbn [app]. rewrite decode_one by assumption. unfold utf16. decide_tests.
    reflexivity.
  - cbn [app]. divmod cp 64. rewrite decode_two by lia.
    unfold utf16. decide_tests. cbn [app]. f_equal. lia.
  - cbn [app]. replace (cp / 4096) with (cp / 64 / 64)
      by (rewrite N.Div0.div_div; reflexivity).
    divmod cp 64. divmod q 64. rewrite decode_three by lia.
    unfold utf16. decide_tests. cbn [app]. f_equal. lia.
  - cbn [app]. replace (cp / 262144) with (cp / 64 / 64 / 64)
      by (rewrite !N.Div0.div_div; reflexivity).
    replace (cp / 4096) with (cp / 64 / 64)
      by (rewrite N.Div0.div_div; reflexivity).
    divmod cp 64. divmod q 64. divmod q0 64. rewrite decode_four by lia.
    f_equal. f_equal. lia.
Qed.

Lemma surrogate_pair c d :
  is_high_surrogate c = true -> is_low_surrogate d = true ->
  utf16 (65536 + (c - 55296) * 1024 + (d - 56320)) = [c; d] /\
  65536 <= 65536 + (c - 55296) * 1024 + (d - 56320) < 1114112.
Proof.
  unfold is_high_surrogate, is_low_surrogate. intros Hc Hd.
  apply andb_true_iff in Hc as [Hc1 Hc2]. apply andb_true_iff in Hd as [Hd1 Hd2].
  apply N.leb_le in Hc1, Hc2, Hd1, Hd2. split; [|lia].
  unfold utf16. decide_tests.
  replace (65536 + (c - 55296) * 1024 + (d - 56320) - 65536)
    with ((c - 55296) * 1024 + (d - 56320)) by lia.
  assert (Hq : ((c - 55296) * 1024 + (d - 56320)) / 1024 = c - 55296)
    by (symmetry; apply (N.div_unique _ 1024 _ (d - 56320)); lia).
  assert (Hm : ((c - 55296) * 1024 + (d - 56320)) mod 1024 = d - 56320)
    by (symmetry; apply (N.mod_unique _ 1024 (c - 55296)); lia).
  rewrite Hq, Hm. f_equal; [lia | f_equal; lia].
Qed.

(** What a client sends of a well-formed string, the server reads. *)
Lemma decode_encode_len n :
  forall s, (length s <= n)%nat -> well_formed s = true ->
    decode_from Start (utf8_encode s) = s.
Proof.
  induction n as [|n IH]; intros s Hlen Hwf.
  - destruct s; [reflexivity | simpl in Hlen; lia].
  - destruct s as [|c r]; [reflexivity|]. cbn [utf8_encode well_formed] in *.
    destruct (is_high_surrogate c) eqn:Eh.
    + destruct r as [|d r']; [discriminate|].
      apply andb_true_iff in Hwf as [Hd Hr]. rewrite Hd.
      destruct (surrogate_pair c d Eh Hd) as [Hu Hb].
      rewrite decode_code_point by lia. rewrite Hu, IH; [reflexivity | | exact Hr].
      simpl in Hlen. lia.
    + apply andb_true_iff in Hwf as [Hc Hr]. apply andb_true_iff in Hc as [Hl Hc].
      apply negb_true_iff in Hl. rewrite Hl. apply N.ltb_lt in Hc.
      rewrite decode_code_point.
      * unfold utf16. decide_tests. rewrite IH; [reflexivity | | exact Hr].
        simpl in Hlen. lia.
      * unfold is_high_surrogate, is_low_surrogate in Eh, Hl.
        apply andb_false_iff in Eh, Hl.
        rewrite !N.leb_gt in Eh, Hl. lia.
      * lia.
Qed.

Lemma utf8_decode_encode s :
  well_formed s = true -> utf8_decode (utf8_encode s) = s.
Proof. apply (decode_encode_len (length s)). reflexivity. Qed.

(** *** Well-formed strings *)









End Utf8RoundTrip.
(** ** Facts about the RSVP form *)

Module FormFacts.

Import Json JsonWf JsonFacts Fs Server Spec Utf8Encode Utf8RoundTrip RsvpForm FormSamples.

(** *** The number of guests *)






(** *** Trimming *)







(** *** The payload *)










End FormFacts.
(** ** Properties of the RSVP form and of its submissions *)

Module FormProperties.

Import Json JsonWf JsonFacts Fs Server Spec Samples ServerFacts StoreProperties.
Import Utf8Encode Utf8RoundTrip RsvpForm FormSamples FormFacts.

(** X20. A body that arrives in chunks cut between characters is read as it
    was sent: the text of the chunks that encode well-formed strings is the
    strings one after the other.  A chunk boundary inside a character is
    not mended by the next chunk: the euro sign in two chunks is read as
    three U+FFFD. *)
Theorem chunks_are_decoded_one_by_one parts :
  Forall (fun s => well_formed s = true) parts ->
  body_text (map utf8_encode parts) = concat parts /\
  body_text split_euro = [65533; 65533; 65533] /\
  Utf8.utf8_decode (concat split_euro) = [8364].
Proof.
  intros H. split; [|split; reflexivity].
  unfold body_text. induction H as [|s l Hs _ IH]; [reflexivity|].
  cbn [map concat]. rewrite (utf8_decode_encode s Hs), IH. reflexivity.
Qed.

Lemma chunks_are_decoded_one_by_one_witness :
  body_text (map utf8_encode [[123; 34; 8364]; [55357; 56832; 34; 125]])
  = concat [[123; 34; 8364]; [55357; 56832; 34; 125]].
Proof.
  refine (proj1 (chunks_are_decoded_one_by_one
                   [[123; 34; 8364]; [55357; 56832; 34; 125]] _)).
  repeat constructor.
Defined.



(** The fields of a form as they are sent: trimmed, the guests as a
    number. *)
Example ada_formData :
  formData ada_form
  = JObject [(js "name", JString (js "Ada Lovelace"));
             (js "email", JString (js "ada@example.org"));
             (js "phone", JString []);
             (js "guests", JNumber (js "2"));
             (js "attending", JString (js "yes"));
             (js "message", JString (js "See you there!"))] /\
  guests_number (js "-0") = JNumber (js "0") /\
  guests_number (js "many") = JNumber (js "0") /\
  guests_number (js "-3") = JNumber (js "-3").
Proof. repeat split; vm_compute; reflexivity. Qed.




(** The sample form is thanked, and its record is stored. *)
Example ada_form_is_stored :
  snd (submit app at_epoch ada_form empty_disk) = thanks_shown /\
  load_rsvps app (fst (submit app at_epoch ada_form empty_disk))
  = JArray [JObject [(js "name", JString (js "Ada Lovelace"));
                     (js "email", JString (js "ada@example.org"));
                     (js "phone", JString []);
                     (js "guests", JNumber (js "2"));
                     (js "attending", JString (js "yes"));
                     (js "message", JString (js "See you there!"));
                     (js "createdAt", JString (js "1970-01-01T00:00:00.000Z"))]].
Proof. split; vm_compute; reflexivity. Qed.

(** X23. Whatever [fetch] settles with, the response element is shown, in
    green or in red; the form is reset exactly when the feedback is green,
    and that only after a reply with a status from 200 to 299 whose body is
    JSON other than null.  A rejected fetch, a body that is not JSON and
    the body null all give the same message in red. *)
Theorem feedback_for_every_outcome r :
  display (on_fetched r) = js "block" /\
  (color (on_fetched r) = js "green" /\ form_reset (on_fetched r) = true /\
   (exists status body result,
      r = Response status body /\ ok status = true /\
      JSON_parse body = Some result /\ result <> JNull) \/
   color (on_fetched r) = js "red" /\ form_reset (on_fetched r) = false) /\
  (forall status,
     on_fetched Rejected = unexpected /\
     on_fetched (Response status (js "not json")) = unexpected /\
     on_fetched (Response status (js "null")) = unexpected).
Proof.
  split; [|split].
  - destruct r as [|status body]; [reflexivity|]. cbn [on_fetched].
    destruct (JSON_parse body) as [result|]; [|reflexivity].
    destruct (ok status);
      [destruct (property_or (js "message") _ result)
      | destruct (property_or (js "error") _ result)]; reflexivity.
  - destruct r as [|status body]; [right; split; reflexivity|]. cbn [on_fetched].
    destruct (JSON_parse body) as [result|] eqn:Ep; [|right; split; reflexivity].
    destruct (ok status) eqn:Eo.
    + destruct (property_or (js "message") _ result) as [v|] eqn:Em;
        [|right; split; reflexivity].
      left. split; [reflexivity|]. split; [reflexivity|].
      exists status, body, result. repeat split; try assumption.
      intros ->. discriminate Em.
    + destruct (property_or (js "error") _ result); right; split; reflexivity.
  - intros status. split; [reflexivity|]. split; cbn [on_fetched].
    + replace (JSON_parse (js "not json")) with (@None json)
        by (vm_compute; reflexivity).
      reflexivity.
    + replace (JSON_parse (js "null")) with (Some JNull) by (vm_compute; reflexivity).
      destruct (ok status); reflexivity.
Qed.

End FormProperties.
(** ** More properties of the store and of the static handler *)

Module GuardProperties.

Import Json JsonWf JsonFacts Path Fs Server Spec Samples ServerFacts StoreProperties.
Import Http MoreSamples Segments PathResolution PathFacts.

(** A store that does not load as an array stops every submission. *)
Lemma submit_end_stuck proc now text fs :
  (forall items, load_rsvps proc fs <> JArray items) ->
  fst (submit_end proc now text fs) = fs /\
  status (snd (submit_end proc now text fs)) <> 200.
Proof.
  intros Hs. unfold submit_end.
  destruct (JSON_parse text) as [data|]; [|split; [reflexivity | discriminate]].
  destruct (name_missing data); [split; [reflexivity | discriminate]|].
  destruct (load_rsvps proc fs) as [|b|lit|s|items|props]; cbn [push];
    try (split; [reflexivity | discriminate]).
  exfalso. apply (Hs items). reflexivity.
Qed.

Lemma serve_stuck proc rt req fs :
  (forall items, load_rsvps proc fs <> JArray items) ->
  fst (serve proc rt req fs) = fs /\ thanked req (snd (serve proc rt req fs)) = false.
Proof.
  intros Hs. unfold thanked, is_submission, serve.
  destruct (JsString.eqb (method req) (js "POST")
            && JsString.eqb (pathname req) (js "/rsvp")); cbn [andb].
  - unfold submit_handler.
    destruct (destroyed (receive (chunks req) fresh)).
    + destruct (end_after_destroy rt); cbn [fst snd]; split; try reflexivity.
      apply submit_end_stuck, Hs.
    + destruct (submit_end_stuck proc (clock rt)
                  (text (receive (chunks req) fresh)) fs Hs) as [H1 H2].
      destruct (submit_end proc (clock rt) _ fs) as [fs' r]. cbn [fst snd] in *.
      split; [exact H1 | apply N.eqb_neq, H2].
  - split; [|reflexivity].
    repeat match goal with
           | |- context [if ?c then _ else _] => destruct c
           end; reflexivity.
Qed.

Lemma serve_all_stuck proc reqs fs :
  (forall items, load_rsvps proc fs <> JArray items) ->
  fst (serve_all proc reqs fs) = fs /\
  count_thanked reqs (snd (serve_all proc reqs fs)) = O.
Proof.
  intros Hs. induction reqs as [|[rt req] reqs [IH1 IH2]]; [split; reflexivity|].
  cbn [serve_all]. destruct (serve_stuck proc rt req fs Hs) as [H1 H2].
  destruct (serve proc rt req fs) as [fs1 r]. cbn [fst snd] in *. subst fs1.
  destruct (serve_all proc reqs fs) as [fs2 rs]. cbn [fst snd] in *.
  split; [exact IH1|]. unfold count_thanked in *.
  cbn [combine List.filter fst snd]. rewrite H2. exact IH2.
Qed.

(** X24. A store file that holds a JSON value other than an array and other
    than a falsy one is never repaired: whatever requests follow, the file
    system stays as it is, no submission is answered with the 200, and
    every valid submission within the cap is answered with the 500. *)
Theorem non_array_store_is_stuck proc reqs fs :
  (forall items, load_rsvps proc fs <> JArray items) ->
  fst (serve_all proc reqs fs) = fs /\
  count_thanked reqs (snd (serve_all proc reqs fs)) = O /\
  (forall rt req, accepted_request req ->
     serve proc rt req fs = (fs, Some internal_error)).
Proof.
  intros Hs. destruct (serve_all_stuck proc reqs fs Hs) as [H1 H2].
  split; [exact H1|]. split; [exact H2|].
  intros rt req (Hm & Hp & Hlen & data & Hparse & Hvalid).
  rewrite (Properties.serve_within_cap proc rt req fs Hm Hp Hlen).
  unfold submit_end. rewrite Hparse, (proj2 (name_missing_false data) Hvalid).
  destruct (load_rsvps proc fs) as [|b|lit|s|items|props] eqn:E; cbn [push];
    try reflexivity.
  exfalso. apply (Hs items). reflexivity.
Qed.

Lemma non_array_store_is_stuck_witness :
  fst (serve_all app mixed_requests (disk_with (RSVP_STORAGE app) (js "{}")))
  = disk_with (RSVP_STORAGE app) (js "{}") /\
  count_thanked mixed_requests
    (snd (serve_all app mixed_requests (disk_with (RSVP_STORAGE app) (js "{}"))))
  = O /\
  (forall rt req, accepted_request req ->
     serve app rt req (disk_with (RSVP_STORAGE app) (js "{}"))
     = (disk_with (RSVP_STORAGE app) (js "{}"), Some internal_error)).
Proof.
  refine (non_array_store_is_stuck app mixed_requests
            (disk_with (RSVP_STORAGE app) (js "{}")) _).
  intros items H. vm_compute in H. discriminate H.
Defined.

(** *** The data directory *)

Lemma startsWith_differ prefix c d y z :
  c <> d ->
  forall s, startsWith s (prefix ++ c :: y) = true ->
            startsWith s (prefix ++ d :: z) = false.
Proof.
  intros Hcd. induction prefix as [|p prefix IH]; intros s.
  - destruct s as [|a s]; [discriminate|].
    change (startsWith (a :: s) ([] ++ c :: y)) with (N.eqb a c && startsWith s y).
    change (startsWith (a :: s) ([] ++ d :: z)) with (N.eqb a d && startsWith s z).
    intros H. apply andb_true_iff in H as [H _]. apply N.eqb_eq in H.
    rewrite H, (proj2 (N.eqb_neq c d) Hcd). reflexivity.
  - destruct s as [|a s]; [discriminate|].
    change (startsWith (a :: s) ((p :: prefix) ++ c :: y))
      with (N.eqb a p && startsWith s (prefix ++ c :: y)).
    change (startsWith (a :: s) ((p :: prefix) ++ d :: z))
      with (N.eqb a p && startsWith s (prefix ++ d :: z)).
    intros H. apply andb_true_iff in H as [H1 H2]. rewrite H1, (IH s H2). reflexivity.
Qed.

(** The asset root and the store file of a script in an absolute directory
    differ after a common prefix. *)
Lemma public_and_data proc :
  isAbsolute (dirname proc) = true ->
  exists prefix,
    PUBLIC_DIR proc = prefix ++ js "public" /\
    RSVP_STORAGE proc = prefix ++ js "data/rsvps.json" /\
    prefix <> [].
Proof.
  intros Ha. unfold PUBLIC_DIR, RSVP_STORAGE.
  destruct (dirname proc) as [|c d] eqn:Ed; [discriminate|].
  change (path_join [c :: d; js "public"])
    with (normalize ((c :: d) ++ 47 :: js "public")).
  change (path_join [c :: d; js "data"; js "rsvps.json"])
    with (normalize ((c :: d) ++ 47 :: js "data/rsvps.json")).
  unfold normalize.
  change (is_empty ((c :: d) ++ 47 :: js "public")) with false.
  change (is_empty ((c :: d) ++ 47 :: js "data/rsvps.json")) with false.
  change (isAbsolute ((c :: d) ++ 47 :: js "public")) with (isAbsolute (c :: d)).
  change (isAbsolute ((c :: d) ++ 47 :: js "data/rsvps.json"))
    with (isAbsolute (c :: d)).
  rewrite Ha. cbv iota. change (negb true) with false.
  rewrite !ends_with_slash_app.
  change (ends_with_slash (47 :: js "public")) with false.
  change (ends_with_slash (47 :: js "data/rsvps.json")) with false.
  cbv iota. unfold normalizeString. rewrite !split_slash_app.
  destruct (normalize_segments_prefix (split_slash (c :: d))
              (split_slash_slash_free (c :: d)) [] (List.Forall_nil _))
    as (S & HS & Hrun).
  rewrite !Hrun.
  change (normalize_segments false S (split_slash (js "public")))
    with (rev (js "public" :: S)).
  change (normalize_segments false S (split_slash (js "data/rsvps.json")))
    with (rev (js "rsvps.json" :: js "data" :: S)).
  cbn [rev]. rewrite <- !app_assoc.
  change ([js "data"] ++ [js "rsvps.json"]) with [js "data"; js "rsvps.json"].
  assert (Hrev : Forall plain (rev S)) by (apply List.Forall_rev, HS).
  destruct (rev S) as [|s0 L] eqn:Er.
  - exists [47]. cbn. repeat split. discriminate.
  - exists (47 :: join [47] (s0 :: L) ++ [47]).
    rewrite !(join_app [47] (s0 :: L)) by discriminate.
    assert (He1 : is_empty (join [47] (s0 :: L) ++ [47] ++ join [47] [js "public"])
                  = false).
    { destruct (join [47] (s0 :: L)); reflexivity. }
    assert (He2 : is_empty (join [47] (s0 :: L) ++ [47]
                            ++ join [47] [js "data"; js "rsvps.json"]) = false).
    { destruct (join [47] (s0 :: L)); reflexivity. }
    rewrite He1, He2. split; [|split; [|discriminate]];
      rewrite <- (app_comm_cons (join [47] (s0 :: L) ++ [47]) _ 47), <- app_assoc;
      reflexivity.
Qed.

(** X25. The static handler serves nothing of the data directory, whatever
    the path name: a resolved path that starts with the path of the
    directory of the store file, the store file itself among them, is
    answered with the 403. *)
Theorem data_directory_is_not_served proc path fs :
  isAbsolute (dirname proc) = true ->
  startsWith (resolved_path proc path) (path_dirname (RSVP_STORAGE proc)) = true ->
  static_handler proc path fs = forbidden /\
  startsWith (RSVP_STORAGE proc) (path_dirname (RSVP_STORAGE proc)) = true.
Proof.
  intros Ha Hs. destruct (public_and_data proc Ha) as (prefix & Hp & Hd & Hn).
  assert (Hdir : path_dirname (RSVP_STORAGE proc) = prefix ++ js "data").
  { rewrite Hd. destruct prefix as [|c q]; [congruence|].
    change ((c :: q) ++ js "data/rsvps.json")
      with ((c :: q) ++ js "data" ++ js "/rsvps.json").
    rewrite app_assoc. change ((c :: q) ++ js "data") with (c :: (q ++ js "data")).
    apply path_dirname_file. destruct q; discriminate. }
  split.
  - unfold static_handler. fold (resolved_path proc path).
    rewrite Hdir in Hs. rewrite Hp.
    change (js "data") with (100 :: js "ata") in Hs.
    change (js "public") with (112 :: js "ublic").
    rewrite (startsWith_differ prefix 100 112 _ _ ltac:(discriminate) _ Hs).
    reflexivity.
  - rewrite Hdir, Hd.
    change (js "data/rsvps.json") with (js "data" ++ js "/rsvps.json").
    rewrite app_assoc. apply StaticProperties.startsWith_app.
Qed.

Lemma data_directory_is_not_served_witness :
  static_handler app (js "/../data/rsvps.json")
    (disk_with (RSVP_STORAGE app) (js "[]")) = forbidden.
Proof.
  refine (proj1 (data_directory_is_not_served app (js "/../data/rsvps.json")
                   (disk_with (RSVP_STORAGE app) (js "[]")) _ _));
    vm_compute; reflexivity.
Defined.

End GuardProperties.
